(** * NexusForest: a shallow embedding of the query layer, the data-cleaning
    pipeline, the validators, the analytical view and one tool handler,
    with the properties stated about them.

    Part I holds the embedding, one module per source file.  Part II holds
    the lemmas and the theorems.

    Conventions of the embedding.
    - A Python [str] is a Rocq [string]; every [ascii] stands for one code
      point in U+0000..U+00FF (so [o_circumflex] below is the single
      character U+00F4, not a UTF-8 byte pair).
    - Python [int] is [Z].  Python [float] and SQLite [REAL] are [Q]: the
      exact rationals, without NaN, infinities or rounding error.
    - A raised exception is the [Raise] constructor of [result].
    - Logging calls are dropped: they do not influence any returned value. *)

From Stdlib Require Import ZArith QArith Qabs Qround List String Ascii Bool Lia Lqa.
From Stdlib Require Import DecimalString Sorted.
Import ListNotations.

Set Warnings "-register-all".

Local Open Scope string_scope.
Local Open Scope Z_scope.

(* ================================================================== *)
(** * Part I.  The embedding                                           *)
(* ================================================================== *)

(** ** Python values, exceptions and string helpers *)
Module Py.

(** The values the modelled functions receive through [Any]-typed
    arguments, dictionaries and JSON argument objects. *)
Inductive pyval : Type :=
| PNone
| PBool (b : bool)
| PInt (z : Z)
| PFloat (q : Q)
| PStr (s : string)
| PList (l : list pyval)
| PTuple (l : list pyval)
| PDict (d : list (pyval * pyval)).

Inductive exn : Type :=
| ValueError (msg : string)
| KeyError (key : string)
| TypeError (msg : string)
| PolarsError (msg : string)
| SqliteError (msg : string).

Inductive result (A : Type) : Type :=
| Ok (a : A)
| Raise (e : exn).

Arguments Ok {A} a.
Arguments Raise {A} e.

Definition bind {A B : Type} (r : result A) (k : A -> result B) : result B :=
  match r with
  | Ok a => k a
  | Raise e => Raise e
  end.

(** Code with a mutable state [S] that may raise: the state is kept
    when an exception is raised. *)
Definition stateful (S A : Type) : Type := S -> result A * S.

Definition ret {S A : Type} (a : A) : stateful S A := fun s => (Ok a, s).

Definition throw {S A : Type} (e : exn) : stateful S A := fun s => (Raise e, s).

Definition seq {S A B : Type} (m : stateful S A) (k : A -> stateful S B)
    : stateful S B :=
  fun s =>
    match m s with
    | (Ok a, s') => k a s'
    | (Raise e, s') => (Raise e, s')
    end.

(** [try: body except Exception: handler; raise] *)
Definition try_except_reraise {S A : Type} (body : stateful S A)
    (handler : stateful S unit) : stateful S A :=
  fun s =>
    match body s with
    | (Ok a, s') => (Ok a, s')
    | (Raise e, s') => (Raise e, snd (handler s'))
    end.

Declare Scope py_scope.
Notation "x <- m ;; k" := (seq m (fun x => k))
  (at level 61, m at next level, right associativity) : py_scope.
Notation "m ;;; k" := (seq m (fun _ => k))
  (at level 61, right associativity) : py_scope.

(** [l.append(x)] and [l.extend(xs)], as functions on the list value. *)
Definition append {A : Type} (l : list A) (x : A) : list A := (l ++ [x])%list.
Definition extend {A : Type} (l xs : list A) : list A := (l ++ xs)%list.

(** [sep.join(parts)] *)
Fixpoint join (sep : string) (parts : list string) : string :=
  match parts with
  | [] => EmptyString
  | [p] => p
  | p :: rest => p ++ sep ++ join sep rest
  end.

(** [s.replace(c, '')] for a one-character pattern [c]. *)
Fixpoint remove_char (c : ascii) (s : string) : string :=
  match s with
  | EmptyString => EmptyString
  | String a rest =>
      if Ascii.eqb a c then remove_char c rest else String a (remove_char c rest)
  end.

(** [c * n] for a one-character string [c]. *)
Fixpoint repeat_char (c : ascii) (n : nat) : string :=
  match n with
  | O => EmptyString
  | S n' => String c (repeat_char c n')
  end.

(** Iterating over a [str] yields its one-character strings. *)
Fixpoint chars (s : string) : list string :=
  match s with
  | EmptyString => []
  | String a rest => String a EmptyString :: chars rest
  end.

Definition in_range (lo hi : nat) (c : ascii) : bool :=
  (Nat.leb lo (nat_of_ascii c) && Nat.leb (nat_of_ascii c) hi)%bool.

(** [c.isalnum()] for one code point below U+0100: true when the
    character is alphabetic, decimal, a digit or numeric in the Unicode
    database.  Below U+0080 these are [0-9A-Za-z]; in the Latin-1
    supplement they are U+00AA, U+00B2, U+00B3, U+00B5, U+00B9, U+00BA,
    U+00BC..U+00BE, U+00C0..U+00D6, U+00D8..U+00F6 and U+00F8..U+00FF. *)
Definition char_isalnum (c : ascii) : bool :=
  (in_range 48 57 c || in_range 65 90 c || in_range 97 122 c
   || in_range 170 170 c || in_range 178 179 c || in_range 181 181 c
   || in_range 185 186 c || in_range 188 190 c
   || in_range 192 214 c || in_range 216 246 c || in_range 248 255 c)%bool.

Fixpoint all_chars (p : ascii -> bool) (s : string) : bool :=
  match s with
  | EmptyString => true
  | String a rest => (p a && all_chars p rest)%bool
  end.

(** [s.isalnum()]: every character is alphanumeric and there is at least
    one character. *)
Definition isalnum (s : string) : bool :=
  match s with
  | EmptyString => false
  | _ => all_chars char_isalnum s
  end.

(** [needle in hay] on strings. *)
Fixpoint contains (needle hay : string) : bool :=
  (prefix needle hay
   || match hay with
      | EmptyString => false
      | String _ rest => contains needle rest
      end)%bool.

(** [str(n)] for a non-negative count and for an [int]. *)
Definition str_of_nat (n : nat) : string := NilZero.string_of_uint (Nat.to_uint n).
Definition str_of_Z (z : Z) : string := NilZero.string_of_int (Z.to_int z).

End Py.

(** ** [nexus/data/database/query_executor.py] *)
Module QueryExecutor.
Import Py.

(** A [dict] is read through [items()], which yields its entries in
    insertion order. *)
Definition conditions_map := list (string * pyval).

(** The validity test of one column name:
    [column.replace('_', '').isalnum()]. *)
Definition column_ok (column : string) : bool :=
  isalnum (remove_char "_" column).

(** [','.join('?' * len(value))] *)
Definition placeholders (n : nat) : string :=
  join "," (chars (repeat_char "?" n)).

(** The body of the [for column, value in conditions.items()] loop, with
    the two accumulators [where_parts] and [params] threaded through. *)
Fixpoint build_where_loop (items : conditions_map)
    (where_parts : list string) (params : list pyval)
    : result (list string * list pyval) :=
  match items with
  | [] => Ok (where_parts, params)
  | (column, value) :: rest =>
      if negb (column_ok column)
      then Raise (ValueError ("Invalid column name: " ++ column))
      else
        match value with
        | PNone =>
            build_where_loop rest (append where_parts (column ++ " IS NULL")) params
        | PList vs | PTuple vs =>
            build_where_loop rest
              (append where_parts
                 (column ++ " IN (" ++ placeholders (List.length vs) ++ ")"))
              (extend params vs)
        | _ =>
            build_where_loop rest (append where_parts (column ++ " = ?"))
              (append params value)
        end
  end.

(** [QueryExecutor.build_where_clause]; the returned [tuple(params)] is
    the list of parameters. *)
Definition build_where_clause (conditions : conditions_map)
    : result (string * list pyval) :=
  match conditions with
  | [] => Ok (EmptyString, [])
  | _ =>
      bind (build_where_loop conditions [] [])
           (fun '(where_parts, params) =>
              Ok ("WHERE " ++ join " AND " where_parts, params))
  end.

(** *** [execute_transaction]

    The function opens a fresh connection on the database file, issues
    [BEGIN TRANSACTION], runs the operations on one cursor, commits, and
    on any exception rolls back and re-raises; the connection is closed on
    every path.

    The SQLite engine is outside the repository, so it is a parameter of
    the embedding.  [sqlite_kind sql] tells what the statement is to the
    engine and to the [sqlite3] module, which hand the operations of the
    caller to the engine unfiltered: a statement that opens, commits or
    rolls back a transaction, a data-modification statement, or any other
    statement.  [sqlite_exec sql params db] is the outcome of a statement
    of the last two kinds on the contents [db] seen by the connection,
    either an exception (a failed statement leaves nothing behind) or the
    new contents; [sqlite_commit db] is [Some e] when writing [db] out
    fails. *)
Inductive statement_kind : Type :=
| Begin      (* BEGIN *)
| Commit     (* COMMIT, END *)
| Rollback   (* ROLLBACK, other than ROLLBACK TO a savepoint *)
| Dml        (* INSERT, UPDATE, DELETE, REPLACE *)
| Other.     (* every other statement, text that does not parse included *)

Section Transaction.

Local Open Scope py_scope.

Variable DB : Type.
Variable sqlite_exec : string -> list pyval -> DB -> exn + DB.
Variable sqlite_commit : DB -> option exn.
Variable sqlite_kind : string -> statement_kind.

(** A connection: the contents of the file, and the uncommitted contents
    while a transaction is open. *)
Record connection : Type := mkConnection {
  committed : DB;
  pending : option DB
}.

(** Code running on a connection: it may change the connection and may
    raise; the connection is kept when it raises. *)
Definition txn (A : Type) : Type := stateful connection A.

(** [sqlite3.connect(path)] and [conn.close()]: closing discards
    whatever was not committed. *)
Definition connect (db : DB) : connection := mkConnection db None.
Definition close (c : connection) : DB := committed c.

(** [conn.execute("BEGIN TRANSACTION")] *)
Definition begin_transaction : txn unit :=
  fun c =>
    match pending c with
    | None => (Ok tt, mkConnection (committed c) (Some (committed c)))
    | Some _ =>
        (Raise (SqliteError "cannot start a transaction within a transaction"), c)
    end.

(** A [COMMIT] statement: the pending contents are written out and the
    transaction ends; without a transaction it is an error. *)
Definition commit_statement : txn unit :=
  fun c =>
    match pending c with
    | Some w =>
        match sqlite_commit w with
        | None => (Ok tt, mkConnection w None)
        | Some e => (Raise e, c)
        end
    | None => (Raise (SqliteError "cannot commit - no transaction is active"), c)
    end.

(** A [ROLLBACK] statement: the pending contents are dropped and the
    transaction ends; without a transaction it is an error. *)
Definition rollback_statement : txn unit :=
  fun c =>
    match pending c with
    | Some _ => (Ok tt, mkConnection (committed c) None)
    | None => (Raise (SqliteError "cannot rollback - no transaction is active"), c)
    end.

(** [cursor.execute(sql, params)].  A statement that opens or ends a
    transaction acts on the transaction of the connection.  A
    data-modification statement runs on the pending contents, the module
    opening a transaction before it when none is open.  Any other
    statement runs on the pending contents when a transaction is open and
    is committed on its own when none is. *)
Definition cursor_execute (sql : string) (params : list pyval) : txn unit :=
  fun c =>
    match sqlite_kind sql with
    | Begin => begin_transaction c
    | Commit => commit_statement c
    | Rollback => rollback_statement c
    | Dml =>
        let current := match pending c with Some w => w | None => committed c end in
        match sqlite_exec sql params current with
        | inl e => (Raise e, c)
        | inr db' => (Ok tt, mkConnection (committed c) (Some db'))
        end
    | Other =>
        match pending c with
        | Some w =>
            match sqlite_exec sql params w with
            | inl e => (Raise e, c)
            | inr db' => (Ok tt, mkConnection (committed c) (Some db'))
            end
        | None =>
            match sqlite_exec sql params (committed c) with
            | inl e => (Raise e, c)
            | inr db' =>
                match sqlite_commit db' with
                | None => (Ok tt, mkConnection db' None)
                | Some e => (Raise e, c)
                end
            end
        end
    end.

(** [conn.commit()] *)
Definition commit : txn unit :=
  fun c =>
    match pending c with
    | None => (Ok tt, c)
    | Some w =>
        match sqlite_commit w with
        | None => (Ok tt, mkConnection w None)
        | Some e => (Raise e, c)
        end
    end.

(** [conn.rollback()] *)
Definition rollback : txn unit :=
  fun c => (Ok tt, mkConnection (committed c) None).

Definition operation : Type := string * option (list pyval).

(** [if params: cursor.execute(sql, params) else: cursor.execute(sql)];
    [None] and the empty tuple are both falsy. *)
Definition execute_operation (op : operation) : txn unit :=
  let '(sql, params) := op in
  match params with
  | Some (p :: ps) => cursor_execute sql (p :: ps)
  | _ => cursor_execute sql []
  end.

(** [for sql, params in operations: ...] *)
Fixpoint for_operations (operations : list operation) : txn unit :=
  match operations with
  | [] => ret tt
  | op :: rest => execute_operation op ;;; for_operations rest
  end.

(** [QueryExecutor.execute_transaction]: the result (or the re-raised
    exception) and the contents of the database file afterwards. *)
Definition execute_transaction (operations : list operation) (db : DB)
    : result bool * DB :=
  let '(r, conn) :=
    try_except_reraise
      (begin_transaction ;;;
       for_operations operations ;;;
       commit ;;;
       ret true)
      rollback
      (connect db) in
  (r, close conn).

End Transaction.

End QueryExecutor.

(** ** The dataframe engine, as far as the pipeline uses it *)
Module Polars.
Import Py.

(** A column is a typed sequence of nullable cells.  Integer columns
    stand for [Int32]/[Int64], float columns for [Float32]/[Float64],
    string columns for [String]. *)
Inductive series : Type :=
| IntSeries (vals : list (option Z))
| FloatSeries (vals : list (option Q))
| StrSeries (vals : list (option string)).

(** A frame is its columns in order; [df.columns] is the list of names
    and [df[name]] the first column of that name. *)
Definition DataFrame : Type := list (string * series).

Definition columns (df : DataFrame) : list string := map fst df.

Definition has_column (name : string) (df : DataFrame) : bool :=
  existsb (String.eqb name) (columns df).

Fixpoint get_column (name : string) (df : DataFrame) : option series :=
  match df with
  | [] => None
  | (n, s) :: rest => if String.eqb name n then Some s else get_column name rest
  end.

(** [df.with_columns(expr.alias(name))]: the column [name] is replaced
    in place when it exists and appended otherwise. *)
Fixpoint with_column (name : string) (s : series) (df : DataFrame) : DataFrame :=
  match df with
  | [] => [(name, s)]
  | (n, s0) :: rest =>
      if String.eqb name n then (n, s) :: rest else (n, s0) :: with_column name s rest
  end.

Definition series_len (s : series) : nat :=
  match s with
  | IntSeries vals => List.length vals
  | FloatSeries vals => List.length vals
  | StrSeries vals => List.length vals
  end.

(** [len(df)] *)
Definition height (df : DataFrame) : nat :=
  match df with
  | [] => O
  | (_, s) :: _ => series_len s
  end.

Definition is_null {A : Type} (c : option A) : bool :=
  match c with
  | None => true
  | Some _ => false
  end.

Definition count_nulls {A : Type} (vals : list (option A)) : nat :=
  List.length (filter is_null vals).

(** [df[col].null_count()] *)
Definition null_count (s : series) : nat :=
  match s with
  | IntSeries vals => count_nulls vals
  | FloatSeries vals => count_nulls vals
  | StrSeries vals => count_nulls vals
  end.

(** Boolean expressions evaluate to nullable booleans, combined by
    three-valued logic. *)
Definition mask : Type := list (option bool).

Definition not3 (a : option bool) : option bool := option_map negb a.

Definition and3 (a b : option bool) : option bool :=
  match a, b with
  | Some false, _ => Some false
  | _, Some false => Some false
  | Some true, Some true => Some true
  | _, _ => None
  end.

Fixpoint zip_with {A B C : Type} (f : A -> B -> C) (l : list A) (m : list B) : list C :=
  match l, m with
  | a :: l', b :: m' => f a b :: zip_with f l' m'
  | _, _ => []
  end.

Definition mask_and (m1 m2 : mask) : mask := zip_with and3 m1 m2.
Definition mask_not (m : mask) : mask := map not3 m.

Definition is_true (b : option bool) : bool :=
  match b with
  | Some true => true
  | _ => false
  end.

(** [df.filter(m).height]: the number of rows on which the predicate is
    true (null counts as not true). *)
Definition filter_height (m : mask) : nat := List.length (filter is_true m).

(** [pl.when(m).then(t).otherwise(o)], element by element. *)
Definition when_then_otherwise {A : Type} (m : mask) (t o : list (option A))
    : list (option A) :=
  zip_with (fun b '(tv, ov) => if is_true b then tv else ov) m (zip_with pair t o).

(** [expr.map_elements(f)]: with the default [skip_nulls=True] the
    function is not called on a null cell, which stays null. *)
Definition map_elements {A B : Type} (f : option A -> B) (vals : list (option A))
    : list (option B) :=
  map (fun c => match c with
                | None => None
                | Some v => Some (f (Some v))
                end) vals.

(** Keeping the rows selected by a predicate, in every column. *)
Fixpoint keep {A : Type} (m : mask) (vals : list A) : list A :=
  match m, vals with
  | b :: m', v :: vals' => if is_true b then v :: keep m' vals' else keep m' vals'
  | _, _ => []
  end.

Definition series_filter (m : mask) (s : series) : series :=
  match s with
  | IntSeries vals => IntSeries (keep m vals)
  | FloatSeries vals => FloatSeries (keep m vals)
  | StrSeries vals => StrSeries (keep m vals)
  end.

(** [df.filter(m)] *)
Definition filter_rows (m : mask) (df : DataFrame) : DataFrame :=
  map (fun '(n, s) => (n, series_filter m s)) df.

Definition Qltb (a b : Q) : bool := negb (Qle_bool b a).

(** Comparison of a column with an integer literal; comparing a string
    column with a number is an error of the engine. *)
Definition compare_lit (cmpZ : Z -> Z -> bool) (cmpQ : Q -> Q -> bool)
    (s : series) (lit : Z) : result mask :=
  match s with
  | IntSeries vals => Ok (map (option_map (fun z => cmpZ z lit)) vals)
  | FloatSeries vals => Ok (map (option_map (fun q => cmpQ q (inject_Z lit))) vals)
  | StrSeries _ => Raise (PolarsError "cannot compare string with numeric type")
  end.

Definition lt_lit : series -> Z -> result mask := compare_lit Z.ltb Qltb.
Definition ge_lit : series -> Z -> result mask :=
  compare_lit Z.geb (fun a b => Qle_bool b a).
Definition le_lit : series -> Z -> result mask := compare_lit Z.leb Qle_bool.

(** [pl.col(c).is_not_null()] *)
Definition is_not_null (s : series) : mask :=
  match s with
  | IntSeries vals => map (fun c => Some (negb (is_null c))) vals
  | FloatSeries vals => map (fun c => Some (negb (is_null c))) vals
  | StrSeries vals => map (fun c => Some (negb (is_null c))) vals
  end.

(** [pl.when(m).then(None).otherwise(pl.col(c))] *)
Definition null_where (m : mask) (s : series) : series :=
  match s with
  | IntSeries vals => IntSeries (when_then_otherwise m (map (fun _ => None) vals) vals)
  | FloatSeries vals => FloatSeries (when_then_otherwise m (map (fun _ => None) vals) vals)
  | StrSeries vals => StrSeries (when_then_otherwise m (map (fun _ => None) vals) vals)
  end.

(** White space in the sense of [str.strip_chars()] without argument,
    among the code points below U+0100: U+0009..U+000D, U+0020, U+0085
    and U+00A0. *)
Definition is_whitespace (c : ascii) : bool :=
  (in_range 9 13 c || in_range 32 32 c || in_range 133 133 c || in_range 160 160 c)%bool.

Fixpoint lstrip (s : string) : string :=
  match s with
  | EmptyString => EmptyString
  | String a rest => if is_whitespace a then lstrip rest else s
  end.

Fixpoint rstrip (s : string) : string :=
  match s with
  | EmptyString => EmptyString
  | String a rest =>
      match rstrip rest with
      | EmptyString => if is_whitespace a then EmptyString else String a EmptyString
      | kept => String a kept
      end
  end.

Definition strip_chars (s : string) : string := rstrip (lstrip s).

Definition option_eqb {A : Type} (eqb : A -> A -> bool) (a b : option A) : bool :=
  match a, b with
  | None, None => true
  | Some x, Some y => eqb x y
  | _, _ => false
  end.

Fixpoint distinct {A : Type} (eqb : A -> A -> bool) (l : list A) : list A :=
  match l with
  | [] => []
  | a :: rest => if existsb (eqb a) rest then distinct eqb rest else a :: distinct eqb rest
  end.

(** [series.n_unique()] on a string column; null is one more value. *)
Definition n_unique_str (vals : list (option string)) : Z :=
  Z.of_nat (List.length (distinct (option_eqb String.eqb) vals)).

End Polars.

(** ** [nexus/data/pipeline/cleaners.py] *)
Module DataCleaner.
Import Py Polars.

(** [self.cleaning_stats] *)
Record cleaning_stats : Type := mkStats {
  countries_standardized : Z;
  negative_values_fixed : Z;
  impossible_values_capped : Z;
  duplicates_removed : Z
}.

(** [DataCleaner.__init__] *)
Definition init_stats : cleaning_stats := mkStats 0 0 0 0.

(** U+00F4, LATIN SMALL LETTER O WITH CIRCUMFLEX. *)
Definition o_circumflex : ascii := "244"%char.

Definition Cote_dIvoire : string := String "C" (String o_circumflex "te d'Ivoire").

(** The [country_mappings] dictionary, in its order of declaration. *)
Definition country_mappings : list (string * string) :=
  [ ("USA", "United States");
    ("US", "United States");
    ("United States of America", "United States");
    ("UK", "United Kingdom");
    ("Britain", "United Kingdom");
    ("DRC", "Democratic Republic of the Congo");
    ("Congo, Dem. Rep.", "Democratic Republic of the Congo");
    ("CAR", "Central African Republic");
    ("Burma", "Myanmar");
    ("Holland", "Netherlands");
    ("Cote d'Ivoire", Cote_dIvoire);
    ("Ivory Coast", Cote_dIvoire);
    ("French Guyana", "French Guiana");
    ("Virgin Islands", "U.S. Virgin Islands") ].

(** [pl.when(pl.col("country") == old_name).then(pl.lit(new_name))
       .otherwise(pl.col("country"))] on one cell: the comparison is null
    on a null cell, so the cell is kept. *)
Definition replace_name (old_name new_name : string) (c : option string)
    : option string :=
  option_map (fun s => if String.eqb s old_name then new_name else s) c.

(** [for old_name, new_name in country_mappings.items(): df = ...] *)
Fixpoint apply_mappings (mappings : list (string * string))
    (vals : list (option string)) : list (option string) :=
  match mappings with
  | [] => vals
  | (old_name, new_name) :: rest =>
      apply_mappings rest (map (replace_name old_name new_name) vals)
  end.

(** [DataCleaner.clean_country_names] *)
Definition clean_country_names (self : cleaning_stats) (df : DataFrame)
    : result (DataFrame * cleaning_stats) :=
  if negb (has_column "country" df) then Ok (df, self)
  else
    match get_column "country" df with
    | Some (StrSeries vals) =>
        let original_countries := n_unique_str vals in
        let mapped := apply_mappings country_mappings vals in
        let trimmed := map (option_map strip_chars) mapped in
        let new_countries := n_unique_str trimmed in
        Ok (with_column "country" (StrSeries trimmed) df,
            mkStats (original_countries - new_countries)
                    (negative_values_fixed self)
                    (impossible_values_capped self)
                    (duplicates_removed self))
    | _ => Raise (PolarsError "cannot compare string with numeric type")
    end.

(** [for col in columns: ...] of [fix_negative_values], with the frame
    and [negative_count] threaded through. *)
Fixpoint fix_negative_loop (columns : list string) (df : DataFrame)
    (negative_count : Z) : result (DataFrame * Z) :=
  match columns with
  | [] => Ok (df, negative_count)
  | col :: rest =>
      if negb (has_column col df) then fix_negative_loop rest df negative_count
      else if (contains "net_flux" col || contains "removals" col)%bool
      then fix_negative_loop rest df negative_count
      else
        match get_column col df with
        | None => fix_negative_loop rest df negative_count
        | Some s =>
            bind (lt_lit s 0) (fun negative =>
              let neg_mask := mask_and negative (is_not_null s) in
              let count := filter_height neg_mask in
              if (0 <? count)%nat
              then fix_negative_loop rest
                     (with_column col (null_where negative s) df)
                     (negative_count + Z.of_nat count)
              else fix_negative_loop rest df negative_count)
        end
  end.

(** [DataCleaner.fix_negative_values] *)
Definition fix_negative_values (self : cleaning_stats) (df : DataFrame)
    (columns : list string) : result (DataFrame * cleaning_stats) :=
  bind (fix_negative_loop columns df 0) (fun '(df', negative_count) =>
    Ok (df', mkStats (countries_standardized self)
                     negative_count
                     (impossible_values_capped self)
                     (duplicates_removed self))).

Definition valid_thresholds : list Z := [0; 10; 15; 20; 25; 30; 50; 75].

(** [min(candidates, key=...)]: the first candidate whose key is not
    exceeded by any other.  A key is a number or [float('inf')], the
    latter written [None]. *)
Section MinBy.

Variables A K : Type.
Variable ltb : K -> K -> bool.

Definition key_lt (a b : option K) : bool :=
  match a, b with
  | Some x, Some y => ltb x y
  | Some _, None => true
  | None, _ => false
  end.

Fixpoint min_from (key : A -> option K) (best : A) (rest : list A) : A :=
  match rest with
  | [] => best
  | v :: rest' =>
      if key_lt (key v) (key best) then min_from key v rest' else min_from key best rest'
  end.

Definition py_min (key : A -> option K) (candidates : list A) : option A :=
  match candidates with
  | [] => None
  | v :: rest => Some (min_from key v rest)
  end.

End MinBy.

Arguments key_lt {K} ltb a b.
Arguments min_from {A K} ltb key best rest.
Arguments py_min {A K} ltb key candidates.

(** [lambda x: min(valid_thresholds,
       key=lambda v: abs(v - x) if x is not None else float('inf'))]
    on an integer cell and on a float cell. *)
Definition snap_int (x : option Z) : Z :=
  match py_min Z.ltb
          (fun v => match x with
                    | Some xv => Some (Z.abs (v - xv))
                    | None => None
                    end)
          valid_thresholds with
  | Some r => r
  | None => 0
  end.

Definition snap_float (x : option Q) : Z :=
  match py_min Qltb
          (fun v => match x with
                    | Some xv => Some (Qabs (inject_Z v - xv))
                    | None => None
                    end)
          valid_thresholds with
  | Some r => r
  | None => 0
  end.

(** [pl.col("threshold").is_in(values)]: null on a null cell. *)
Definition is_in_int (vals : list (option Z)) (values : list Z) : mask :=
  map (option_map (fun z => existsb (Z.eqb z) values)) vals.

Definition is_in_float (vals : list (option Q)) (values : list Z) : mask :=
  map (option_map (fun q => existsb (fun v => Qeq_bool q (inject_Z v)) values)) vals.

(** [DataCleaner.validate_thresholds] *)
Definition validate_thresholds (df : DataFrame) : result DataFrame :=
  if negb (has_column "threshold" df) then Ok df
  else
    match get_column "threshold" df with
    | Some (IntSeries vals) =>
        let invalid_mask := mask_not (is_in_int vals valid_thresholds) in
        let invalid_count := filter_height invalid_mask in
        if (0 <? invalid_count)%nat
        then Ok (with_column "threshold"
                   (IntSeries (when_then_otherwise invalid_mask
                                 (map_elements snap_int vals) vals)) df)
        else Ok df
    | Some (FloatSeries vals) =>
        let invalid_mask := mask_not (is_in_float vals valid_thresholds) in
        let invalid_count := filter_height invalid_mask in
        if (0 <? invalid_count)%nat
        then Ok (with_column "threshold"
                   (FloatSeries (when_then_otherwise invalid_mask
                                   (map (option_map inject_Z)
                                      (map_elements snap_float vals)) vals)) df)
        else Ok df
    | _ => Raise (PolarsError "is_in: cannot compare string with numeric type")
    end.

(** [DataCleaner.validate_years]; the defaults are [min_year=2001] and
    [max_year=2024]. *)
Definition validate_years (df : DataFrame) (min_year max_year : Z)
    : result DataFrame :=
  if negb (has_column "year" df) then Ok df
  else
    match get_column "year" df with
    | None => Ok df
    | Some s =>
        bind (ge_lit s min_year) (fun lower =>
        bind (le_lit s max_year) (fun upper =>
          Ok (filter_rows (mask_and lower upper) df)))
    end.

End DataCleaner.

(** ** [nexus/data/pipeline/loaders.py], class [DataValidator] *)
Module Loaders.
Import Py Polars.

Definition Q_of_nat (n : nat) : Q := inject_Z (Z.of_nat n).

(** [sum(df[col].null_count() for col in cols)] *)
Definition sum_null_counts (df : DataFrame) (cols : list string) : nat :=
  fold_right
    (fun col acc =>
       (match get_column col df with
        | Some s => null_count s
        | None => O
        end + acc)%nat)
    O cols.

(** [DataValidator.check_data_completeness] of the ingestion stage; the
    [threshold] argument only selects whether a warning is logged. *)
Definition check_data_completeness (df : DataFrame) : Q :=
  let total_cells := (height df * List.length (columns df))%nat in
  if Nat.eqb total_cells 0 then 0%Q
  else
    let null_cells := sum_null_counts df (columns df) in
    (1 - Q_of_nat null_cells / Q_of_nat total_cells)%Q.

End Loaders.

(** ** [nexus/data/pipeline/validators.py] *)
Module Validators.
Import Py Polars.

(** [df[col].dtype in [pl.Float32, pl.Float64, pl.Int32, pl.Int64]] *)
Definition is_numeric (s : series) : bool :=
  match s with
  | IntSeries _ | FloatSeries _ => true
  | StrSeries _ => false
  end.

(** [DataValidator.check_data_completeness] of the post-transform stage;
    [threshold] only selects whether a warning is logged. *)
Definition check_data_completeness (df : DataFrame) : Q :=
  let total_cells := (height df * List.length (columns df))%nat in
  if Nat.eqb total_cells 0 then 0%Q
  else
    let numeric_cols :=
      filter (fun col => match get_column col df with
                         | Some s => is_numeric s
                         | None => false
                         end) (columns df) in
    let null_cells := Loaders.sum_null_counts df numeric_cols in
    let total_numeric_cells := (height df * List.length numeric_cols)%nat in
    if Nat.eqb total_numeric_cells 0 then 1%Q
    else (1 - Loaders.Q_of_nat null_cells / Loaders.Q_of_nat total_numeric_cells)%Q.

(** The rows of the two frames [validate_relationships] reads, over the
    columns it touches. *)
Record tree_cover_row : Type := mkTreeCover {
  tc_country : option string;
  tc_year : option Z;
  tc_threshold : option Z;
  tc_tree_cover_loss_ha : option Q
}.

Record primary_forest_row : Type := mkPrimaryForest {
  pf_country : option string;
  pf_year : option Z;
  pf_primary_forest_loss_ha : option Q
}.

Record joined_row : Type := mkJoined {
  country : option string;
  year : option Z;
  threshold : option Z;
  tree_cover_loss_ha : option Q;
  primary_forest_loss_ha : option Q
}.

(** The [ValidationResult] dataclass. *)
Record ValidationResult : Type := mkValidationResult {
  passed : bool;
  message : string;
  severity : string;
  details : option (list (string * pyval))
}.

(** [pl.col("threshold") == 30] on one row. *)
Definition threshold_is_30 (t : tree_cover_row) : option bool :=
  option_map (fun z => Z.eqb z 30) (tc_threshold t).

(** Equality of the join keys [country] and [year]; a null key matches
    nothing. *)
Definition keys_match (t : tree_cover_row) (p : primary_forest_row) : bool :=
  match tc_country t, pf_country p, tc_year t, pf_year p with
  | Some c1, Some c2, Some y1, Some y2 => (String.eqb c1 c2 && Z.eqb y1 y2)%bool
  | _, _, _, _ => false
  end.

(** [left.join(right, on=["country", "year"], how="inner")] *)
Definition inner_join (left : list tree_cover_row) (right : list primary_forest_row)
    : list joined_row :=
  flat_map
    (fun t =>
       map (fun p => mkJoined (tc_country t) (tc_year t) (tc_threshold t)
                       (tc_tree_cover_loss_ha t) (pf_primary_forest_loss_ha p))
           (filter (keys_match t) right))
    left.

(** [pl.col(a) > pl.col(b)] on one row. *)
Definition gt3 (a b : option Q) : option bool :=
  match a, b with
  | Some x, Some y => Some (Qltb y x)
  | _, _ => None
  end.

(** [(primary > total) & primary.is_not_null() & total.is_not_null()] *)
Definition violation (j : joined_row) : option bool :=
  and3 (and3 (gt3 (primary_forest_loss_ha j) (tree_cover_loss_ha j))
             (Some (negb (is_null (primary_forest_loss_ha j)))))
       (Some (negb (is_null (tree_cover_loss_ha j)))).

(** [DataValidator.validate_relationships] *)
Definition validate_relationships (tree_cover_df : list tree_cover_row)
    (primary_forest_df : list primary_forest_row) : ValidationResult :=
  let joined :=
    inner_join (filter (fun t => is_true (threshold_is_30 t)) tree_cover_df)
               primary_forest_df in
  let violations := filter (fun j => is_true (violation j)) joined in
  if (0 <? List.length violations)%nat
  then mkValidationResult false
         ("Found " ++ str_of_nat (List.length violations)
            ++ " cases where primary forest loss exceeds total forest loss")
         "error"
         (Some [("violation_count", PInt (Z.of_nat (List.length violations)))])
  else mkValidationResult true
         "Primary forest loss correctly bounded by total forest loss"
         "info"
         None.

End Validators.

(** ** [nexus/data/database/exporter.py], [schema.py] and [views.py]

    The database holds the fact tables; only the tables and columns
    that [v_primary_forest_percentage] reads are kept.  The frames that
    are exported are the fact frames of the validators. *)
Module Database.
Import Py Polars Validators.

Record database : Type := mkDatabase {
  fact_tree_cover_loss : list tree_cover_row;
  fact_primary_forest : list primary_forest_row
}.

Definition key3 : Type := (option string * option Z * option Z)%type.
Definition key2 : Type := (option string * option Z)%type.

Definition key3_eqb (a b : key3) : bool :=
  let '(c1, y1, t1) := a in
  let '(c2, y2, t2) := b in
  (option_eqb String.eqb c1 c2 && option_eqb Z.eqb y1 y2 && option_eqb Z.eqb t1 t2)%bool.

Definition key2_eqb (a b : key2) : bool :=
  let '(c1, y1) := a in
  let '(c2, y2) := b in
  (option_eqb String.eqb c1 c2 && option_eqb Z.eqb y1 y2)%bool.

Fixpoint no_duplicates {A : Type} (eqb : A -> A -> bool) (l : list A) : bool :=
  match l with
  | [] => true
  | a :: rest => (negb (existsb (eqb a) rest) && no_duplicates eqb rest)%bool
  end.

(** The constraints of [FACT_TREE_COVER_SCHEMA] on the inserted rows:
    [country], [year] and [threshold] are [NOT NULL] and form the primary
    key. *)
Definition tree_cover_constraints (rows : list tree_cover_row) : bool :=
  (forallb (fun r => negb (is_null (tc_country r)) && negb (is_null (tc_year r))
                     && negb (is_null (tc_threshold r))) rows
   && no_duplicates key3_eqb
        (map (fun r => (tc_country r, tc_year r, tc_threshold r)) rows))%bool.

(** The constraints of [FACT_PRIMARY_FOREST_SCHEMA]: [country] and
    [year] are [NOT NULL] and form the primary key. *)
Definition primary_forest_constraints (rows : list primary_forest_row) : bool :=
  (forallb (fun r => negb (is_null (pf_country r)) && negb (is_null (pf_year r))) rows
   && no_duplicates key2_eqb (map (fun r => (pf_country r, pf_year r)) rows))%bool.

(** [DatabaseExporter.export_dataframe] with [if_exists="replace"]: the
    rows of the table are deleted, the rows of the frame are inserted as
    they are and the change is committed; when an insertion violates a
    constraint the transaction is rolled back and the error re-raised.
    On success the verified row count is returned. *)
Definition export_tree_cover (df : list tree_cover_row)
    : stateful database nat :=
  fun db =>
    if tree_cover_constraints df
    then (Ok (List.length df), mkDatabase df (fact_primary_forest db))
    else (Raise (SqliteError "constraint failed: fact_tree_cover_loss"), db).

Definition export_primary_forest (df : list primary_forest_row)
    : stateful database nat :=
  fun db =>
    if primary_forest_constraints df
    then (Ok (List.length df), mkDatabase (fact_tree_cover_loss db) df)
    else (Raise (SqliteError "constraint failed: fact_primary_forest"), db).

Local Open Scope py_scope.

(** [DatabaseExporter.export_all_tables], restricted to the two tables
    kept here; the result holds the row counts. *)
Definition export_all_tables (tree_cover_df : list tree_cover_row)
    (primary_forest_df : list primary_forest_row)
    : stateful database (list (string * nat)) :=
  n_tree <- export_tree_cover tree_cover_df ;;
  n_primary <- export_primary_forest primary_forest_df ;;
  ret [("fact_tree_cover_loss", n_tree); ("fact_primary_forest", n_primary)].

(** A database state the export path can produce. *)
Definition exported (db : database) : Prop :=
  exists tree_cover_df primary_forest_df db0 counts,
    export_all_tables tree_cover_df primary_forest_df db0 = (Ok counts, db).

(** SQL [ROUND(x, 2)]: to the nearest hundredth, halves away from zero. *)
Definition sql_round2 (x : Q) : Q :=
  if Qle_bool 0 x
  then (inject_Z (Qfloor (x * 100 + (1 # 2))) / 100)%Q
  else (- (inject_Z (Qfloor (- x * 100 + (1 # 2))) / 100))%Q.

(** [CASE WHEN t.tree_cover_loss_ha > 0
          THEN ROUND((p.primary_forest_loss_ha / t.tree_cover_loss_ha) * 100, 2)
          ELSE NULL END]; an arithmetic operation on NULL is NULL. *)
Definition primary_percentage_expr (t_loss p_loss : option Q) : option Q :=
  match t_loss with
  | Some tl =>
      if Qltb 0 tl
      then match p_loss with
           | Some pl => Some (sql_round2 (pl / tl * 100))
           | None => None
           end
      else None
  | None => None
  end.

(** [x > 0] as a [WHEN] condition: NULL is not true. *)
Definition positive (x : option Q) : bool :=
  match x with
  | Some v => Qltb 0 v
  | None => false
  end.

(** The [loss_type] column of the [ViewManager] definition. *)
Definition loss_type_expr (t_loss p_loss : option Q) : string :=
  if (positive t_loss && positive p_loss)%bool then "Both"
  else if positive t_loss then "Total Only"
  else if positive p_loss then "Primary Only"
  else "No Loss".

Record view_row : Type := mkViewRow {
  v_country : option string;
  v_year : option Z;
  v_tree_cover_loss_ha : option Q;
  v_primary_forest_loss_ha : option Q;
  primary_percentage : option Q;
  loss_type : option string
}.

(** [FROM fact_tree_cover_loss t LEFT JOIN fact_primary_forest p
     ON t.country = p.country AND t.year = p.year WHERE t.threshold = 30]:
    the pairs [(t, p)], with [p] absent when no row matches. *)
Definition left_join (db : database)
    : list (tree_cover_row * option primary_forest_row) :=
  flat_map
    (fun t =>
       match filter (keys_match t) (fact_primary_forest db) with
       | [] => [(t, None)]
       | matches => map (fun p => (t, Some p)) matches
       end)
    (filter (fun t => is_true (threshold_is_30 t)) (fact_tree_cover_loss db)).

Definition p_loss_of (p : option primary_forest_row) : option Q :=
  match p with
  | Some r => pf_primary_forest_loss_ha r
  | None => None
  end.

(** The view as [SchemaManager._create_views] defines it. *)
Definition schema_v_primary_forest_percentage (db : database) : list view_row :=
  map (fun '(t, p) =>
         mkViewRow (tc_country t) (tc_year t) (tc_tree_cover_loss_ha t) (p_loss_of p)
           (primary_percentage_expr (tc_tree_cover_loss_ha t) (p_loss_of p))
           None)
      (left_join db).

(** The view as [ViewManager._create_primary_forest_percentage_view]
    defines it. *)
Definition v_primary_forest_percentage (db : database) : list view_row :=
  map (fun '(t, p) =>
         mkViewRow (tc_country t) (tc_year t) (tc_tree_cover_loss_ha t) (p_loss_of p)
           (primary_percentage_expr (tc_tree_cover_loss_ha t) (p_loss_of p))
           (Some (loss_type_expr (tc_tree_cover_loss_ha t) (p_loss_of p))))
      (left_join db).

End Database.

(** ** [nexus/mcp/mcp_stdio_server.py] *)
Module McpServer.
Import Py.

Local Open Scope py_scope.

(** A result row ([dict(row)]) and the JSON argument object of a tool
    call are dictionaries with string keys. *)
Definition row : Type := list (string * pyval).

Fixpoint dict_get (d : row) (key : string) : option pyval :=
  match d with
  | [] => None
  | (k, v) :: rest => if String.eqb k key then Some v else dict_get rest key
  end.

(** [d.get(key, default)]; the default is an argument, so it has been
    evaluated by the time [get] is called. *)
Definition get (d : row) (key : string) (default : pyval) : pyval :=
  match dict_get d key with
  | Some v => v
  | None => default
  end.

(** [types.TextContent(type="text", text=...)] *)
Record TextContent : Type := mkTextContent {
  type : string;
  text : string
}.

(** One statement handed to the database: the SQL text and the
    parameters. *)
Definition query : Type := (string * list pyval)%type.

(** [x == n] for an integer literal [n]. *)
Definition eq_int (x : pyval) (n : Z) : bool :=
  match x with
  | PInt z => Z.eqb z n
  | PFloat q => Qeq_bool q (inject_Z n)
  | PBool b => Z.eqb (if b then 1 else 0) n
  | _ => false
  end.

(** [x in [n1, n2, ...]] *)
Definition in_ints (x : pyval) (l : list Z) : bool := existsb (eq_int x) l.

Definition nl : string := String "010" EmptyString.

Definition latest_year_sql : string :=
  "SELECT MAX(year) as max_year FROM fact_tree_cover_loss".

Definition carbon_sql : string :=
  "
        SELECT country, year, threshold,
               carbon_emissions_mg_co2e,
               carbon_emissions_annual_avg,
               carbon_removals_annual_avg,
               carbon_net_flux_annual_avg,
               carbon_density_mg_c_ha,
               carbon_flux_status
        FROM fact_carbon
        WHERE country = ? AND year = ? AND threshold = ?
    ".

Definition source_attribution : string :=
  nl ++ nl ++ "---" ++ nl ++ "*Source: Hansen/UMD/Google/USGS/NASA*".

(** [add_source_attribution] *)
Definition add_source_attribution (response : string) : string :=
  response ++ source_attribution.

(** What lies outside the repository is a parameter of the handler:
    - [database sql params] are the rows the database file yields for a
      statement (the embedded [QueryExecutor.execute_query] turns a failed
      statement into the empty list);
    - [climategpt question data context] is the text obtained from the
      external endpoint by [call_climategpt], empty when there is none;
    - [str_of] is the built-in [str] and [format_thousands] the format
      specification [:,.0f];
    - [bullet] is the one-character string U+2022. *)
Section Handler.

Variable database : string -> list pyval -> list row.
Variable climategpt : string -> list row -> string -> string.
Variable str_of : pyval -> string.
Variable format_thousands : pyval -> string.
Variable bullet : string.

(** A handler runs against the log of the statements executed so far. *)
Definition handler (A : Type) : Type := stateful (list query) A.

(** [query_executor.execute_query(sql, params)] *)
Definition execute_query (sql : string) (params : list pyval) : handler (list row) :=
  fun log => (Ok (database sql params), append log (sql, params)).

(** [d[key]] *)
Definition getitem (d : row) (key : string) : handler pyval :=
  match dict_get d key with
  | Some v => ret v
  | None => throw (KeyError key)
  end.

(** [get_latest_year] *)
Definition get_latest_year : handler pyval :=
  result <- execute_query latest_year_sql [] ;;
  match result with
  | first :: _ => getitem first "max_year"
  | [] => ret (PInt 2024)
  end.

(** [format_number] *)
Definition format_number (value : pyval) : string :=
  match value with
  | PNone => "N/A"
  | PInt _ | PFloat _ | PBool _ => format_thousands value
  | _ => str_of value
  end.

(** [x < 0] *)
Definition lt_zero (x : pyval) : handler bool :=
  match x with
  | PInt z => ret (Z.ltb z 0)
  | PFloat q => ret (Polars.Qltb q 0)
  | PBool _ => ret false
  | _ => throw (TypeError "'<' not supported between these operands")
  end.

Definition guidance_message (threshold : pyval) : string :=
  "Carbon data is only available for thresholds 30%, 50%, and 75%." ++ nl ++ nl
  ++ "You requested " ++ str_of threshold ++ "%. Please use 30, 50, or 75.".

Definition no_data_message (country year threshold : pyval) : string :=
  ("No carbon data found for " ++ str_of country ++ " in " ++ str_of year ++ " at "
   ++ str_of threshold ++ "% threshold." ++ nl ++ nl)
  ++ ("Suggestions:" ++ nl ++ bullet ++ " Check country name" ++ nl
      ++ bullet ++ " Try a different year (2001-2024)" ++ nl
      ++ bullet ++ " Try threshold 30, 50, or 75").

(** The line that reports the net flux and the sink or source status. *)
Definition net_flux_line (net_flux : pyval) (is_sink : bool) : string :=
  bullet ++ " Net Flux: " ++ format_number net_flux ++ " Mg CO2e/yr ("
  ++ (if is_sink then "SINK" else "SOURCE") ++ ")" ++ nl.

Definition analysis_context : string :=
  "Negative net flux indicates carbon sink (forest absorbing more than emitting). Positive indicates source (emitting more than absorbing).".

(** [handle_query_carbon_data] *)
Definition handle_query_carbon_data (args : row) : handler (list TextContent) :=
  country <- getitem args "country" ;;
  latest <- get_latest_year ;;
  let year := get args "year" latest in
  let threshold := get args "threshold" (PInt 30) in
  if negb (in_ints threshold [30; 50; 75])
  then ret [mkTextContent "text" (guidance_message threshold)]
  else
    results <- execute_query carbon_sql [country; year; threshold] ;;
    match results with
    | [] => ret [mkTextContent "text" (no_data_message country year threshold)]
    | first :: _ =>
        let net_flux := get first "carbon_net_flux_annual_avg" (PInt 0) in
        is_sink <- lt_zero net_flux ;;
        let response :=
          "**Carbon Data: " ++ str_of country ++ " (" ++ str_of year ++ ")**" ++ nl ++ nl in
        let response := response ++ (bullet ++ " Threshold: " ++ str_of threshold ++ "%" ++ nl) in
        emissions <- getitem first "carbon_emissions_mg_co2e" ;;
        let response :=
          response ++ (bullet ++ " Carbon Emissions: " ++ format_number emissions
                       ++ " Mg CO2e" ++ nl) in
        annual <- getitem first "carbon_emissions_annual_avg" ;;
        let response :=
          response ++ (bullet ++ " Annual Emissions: " ++ format_number annual
                       ++ " Mg CO2e/yr" ++ nl) in
        removals <- getitem first "carbon_removals_annual_avg" ;;
        let response :=
          response ++ (bullet ++ " Annual Removals: " ++ format_number removals
                       ++ " Mg CO2/yr" ++ nl) in
        let response := response ++ net_flux_line net_flux is_sink in
        density <- getitem first "carbon_density_mg_c_ha" ;;
        let response :=
          response ++ (bullet ++ " Carbon Density: " ++ format_number density
                       ++ " Mg C/ha" ++ nl) in
        status <- getitem first "carbon_flux_status" ;;
        let response := response ++ (bullet ++ " Status: " ++ str_of status ++ nl) in
        let climate_analysis :=
          climategpt
            ("Carbon emissions from deforestation in " ++ str_of country ++ " during "
             ++ str_of year)
            results analysis_context in
        let response :=
          match climate_analysis with
          | EmptyString => response
          | _ => response ++ (nl ++ "**Climate Analysis:**" ++ nl ++ climate_analysis)
          end in
        ret [mkTextContent "text" (add_source_attribution response)]
    end.

End Handler.

End McpServer.

(** ** Reference definitions, in the words of the specification *)
Module Spec.
Import Py.

(** A letter: [c.isalpha()] for a code point below U+0100, that is
    [A-Za-z], U+00AA, U+00B5, U+00BA, U+00C0..U+00D6, U+00D8..U+00F6
    and U+00F8..U+00FF. *)
Definition is_letter (c : ascii) : bool :=
  (in_range 65 90 c || in_range 97 122 c
   || in_range 170 170 c || in_range 181 181 c || in_range 186 186 c
   || in_range 192 214 c || in_range 216 246 c || in_range 248 255 c)%bool.

(** A digit, in the widest sense of the word: [c.isdigit()], that is
    [0-9] and the superscripts U+00B2, U+00B3 and U+00B9. *)
Definition is_digit (c : ascii) : bool :=
  (in_range 48 57 c || in_range 178 179 c || in_range 185 185 c)%bool.

(** The fractions U+00BC, U+00BD and U+00BE: numeric characters that
    are neither letters nor digits. *)
Definition is_vulgar_fraction (c : ascii) : bool := in_range 188 190 c.

(** A column name contains a character other than a letter, a digit or
    the underscore. *)
Definition has_foreign_char (column : string) : Prop :=
  exists c : ascii,
    In c (list_ascii_of_string column)
    /\ is_letter c = false /\ is_digit c = false /\ c <> "_"%char.

(** What the test [column.replace('_', '').isalnum()] fails on: a name
    with no character besides underscores (the empty name among them),
    and a name with a character, other than the underscore, that
    [str.isalnum] does not accept. *)
Definition fails_isalnum (column : string) : Prop :=
  (forall c : ascii, In c (list_ascii_of_string column) -> c = "_"%char)
  \/ exists c : ascii,
       In c (list_ascii_of_string column) /\ char_isalnum c = false /\ c <> "_"%char.

(** U+00BD, VULGAR FRACTION ONE HALF, and the column name made of the
    letter [a] followed by it. *)
Definition one_half : ascii := "189"%char.

Definition a_half : string := String "a" (String one_half EmptyString).

(** The condition emitted for one entry: [IS NULL] for a null value, an
    [IN] list with one placeholder per element for a list or a tuple,
    [= ?] for a scalar. *)
Definition entry_sql (entry : string * pyval) : string :=
  let '(column, value) := entry in
  match value with
  | PNone => column ++ " IS NULL"
  | PList vs | PTuple vs =>
      column ++ " IN (" ++ join "," (repeat "?" (List.length vs)) ++ ")"
  | _ => column ++ " = ?"
  end.

(** The parameters one entry contributes. *)
Definition entry_params (entry : string * pyval) : list pyval :=
  match snd entry with
  | PNone => []
  | PList vs | PTuple vs => vs
  | v => [v]
  end.

(** The first column name of the map that fails the validity test. *)
Definition first_rejected (conditions : list (string * pyval)) : option string :=
  find (fun column => negb (QueryExecutor.column_ok column)) (map fst conditions).

(** A joined pair of [validate_relationships]: a tree-cover row at
    threshold 30 and a primary-forest row with the same non-null country
    and year. *)
Definition joined_pair (tree_cover_df : list Validators.tree_cover_row)
    (primary_forest_df : list Validators.primary_forest_row)
    (t : Validators.tree_cover_row) (p : Validators.primary_forest_row) : Prop :=
  In t tree_cover_df /\ In p primary_forest_df
  /\ Validators.tc_threshold t = Some 30
  /\ Validators.keys_match t p = true.

(** Primary-forest loss strictly above tree-cover loss, both present. *)
Definition primary_exceeds (t : Validators.tree_cover_row)
    (p : Validators.primary_forest_row) : Prop :=
  exists tl pl : Q,
    Validators.tc_tree_cover_loss_ha t = Some tl
    /\ Validators.pf_primary_forest_loss_ha p = Some pl
    /\ (tl < pl)%Q.

(** Sample frames: one country and year, tree-cover loss 100 ha at
    threshold 30, and primary-forest loss of 200 ha, respectively 150 ha. *)
Definition sample_tree_cover : list Validators.tree_cover_row :=
  [Validators.mkTreeCover (Some "Brazil") (Some 2022) (Some 30) (Some (100 # 1))].

Definition sample_primary_200 : list Validators.primary_forest_row :=
  [Validators.mkPrimaryForest (Some "Brazil") (Some 2022) (Some (200 # 1))].

Definition sample_primary_150 : list Validators.primary_forest_row :=
  [Validators.mkPrimaryForest (Some "Brazil") (Some 2022) (Some (150 # 1))].

(** A column whose name marks it as legitimately negative. *)
Definition may_be_negative (col : string) : bool :=
  (contains "net_flux" col || contains "removals" col)%bool.

(** A column that [fix_negative_values] is asked to repair and does not
    exempt. *)
Definition targeted (columns : list string) (col : string) : bool :=
  (existsb (String.eqb col) columns && negb (may_be_negative col))%bool.

(** The repair of one cell: a negative value becomes null, every other
    cell, null or not, is kept. *)
Definition fix_cell_int (c : option Z) : option Z :=
  match c with
  | Some z => if Z.ltb z 0 then None else Some z
  | None => None
  end.

Definition fix_cell_float (c : option Q) : option Q :=
  match c with
  | Some q => if Polars.Qltb q 0 then None else Some q
  | None => None
  end.

Definition fix_series (s : Polars.series) : Polars.series :=
  match s with
  | Polars.IntSeries vals => Polars.IntSeries (map fix_cell_int vals)
  | Polars.FloatSeries vals => Polars.FloatSeries (map fix_cell_float vals)
  | Polars.StrSeries vals => Polars.StrSeries vals
  end.

(** [df'] is [df] with every targeted column repaired and every other
    column untouched. *)
Definition repaired (columns : list string) (df df' : Polars.DataFrame) : Prop :=
  Polars.columns df' = Polars.columns df
  /\ forall c : string,
       Polars.get_column c df' =
       if targeted columns c
       then option_map fix_series (Polars.get_column c df)
       else Polars.get_column c df.

(** Some targeted column of [df] is a string column, which cannot be
    compared with zero. *)
Definition blocked (columns : list string) (df : Polars.DataFrame) : Prop :=
  exists (c : string) (vals : list (option string)),
    In c columns /\ may_be_negative c = false
    /\ Polars.get_column c df = Some (Polars.StrSeries vals).

(** The frame of the unit test of [fix_negative_values]. *)
Definition sample_negative_frame : Polars.DataFrame :=
  [ ("tree_cover_loss_ha", Polars.IntSeries [Some 100; Some (-50); Some 200]);
    ("carbon_net_flux_annual_avg", Polars.IntSeries [Some 100; Some (-50); Some 200]) ].

(** The alias table read as a lookup: the standard name of an alias,
    and the name itself when it is no alias. *)
Definition alias (name : string) : string :=
  match find (fun entry => String.eqb name (fst entry)) DataCleaner.country_mappings with
  | Some entry => snd entry
  | None => name
  end.

(** Normalisation of one country cell: alias lookup by exact match, then
    trimming of the surrounding white space. *)
Definition normalize_cell (c : option string) : option string :=
  option_map (fun name => Polars.strip_chars (alias name)) c.

(** The country values carry no leading or trailing white space. *)
Definition trimmed (vals : list (option string)) : Prop :=
  forall name : string, In (Some name) vals -> Polars.strip_chars name = name.

(** A frame whose only country is the alias [USA] between two spaces. *)
Definition sample_padded_alias : Polars.DataFrame :=
  [("country", Polars.StrSeries [Some " USA "])].

(** The name is an alias of the table, by exact match. *)
Definition is_alias (name : string) : bool :=
  existsb (fun entry => String.eqb name (fst entry)) DataCleaner.country_mappings.

(** An alias between white space: the name itself is no alias, and what
    is left of it after trimming is one. *)
Definition padded_alias (name : string) : bool :=
  (negb (is_alias name) && is_alias (Polars.strip_chars name))%bool.

(** No country value is an alias between white space. *)
Definition no_padded_alias (vals : list (option string)) : Prop :=
  forall name : string, In (Some name) vals -> padded_alias name = false.

(** A frame with a padded name that is no alias, an alias and a null. *)
Definition sample_padded_names : Polars.DataFrame :=
  [("country", Polars.StrSeries [Some "  Canada  "; Some "USA"; None])].

(** The order on keys, a number or infinity, that [min] compares by. *)
Definition le_key {K : Type} (le : K -> K -> Prop) (a b : option K) : Prop :=
  match a, b with
  | Some x, Some y => le x y
  | _, None => True
  | None, Some _ => False
  end.

(** Membership in the canonical threshold set. *)
Definition canonical (x : Z) : bool :=
  existsb (Z.eqb x) DataCleaner.valid_thresholds.

(** The threshold cell after [validate_thresholds]: a null cell and a
    canonical value are kept, any other value is snapped. *)
Definition snap_cell (c : option Z) : option Z :=
  match c with
  | None => None
  | Some x => if canonical x then Some x else Some (DataCleaner.snap_int (Some x))
  end.

Definition canonical_float (q : Q) : bool :=
  existsb (fun v => Qeq_bool q (inject_Z v)) DataCleaner.valid_thresholds.

Definition snap_cell_float (c : option Q) : option Q :=
  match c with
  | None => None
  | Some q =>
      if canonical_float q then Some q
      else Some (inject_Z (DataCleaner.snap_float (Some q)))
  end.

(** The threshold column after [validate_thresholds]. *)
Definition snap_series (s : Polars.series) : Polars.series :=
  match s with
  | Polars.IntSeries vals => Polars.IntSeries (map snap_cell vals)
  | Polars.FloatSeries vals => Polars.FloatSeries (map snap_cell_float vals)
  | Polars.StrSeries vals => Polars.StrSeries vals
  end.

Definition is_numeric_series (s : Polars.series) : Prop :=
  match s with
  | Polars.StrSeries _ => False
  | _ => True
  end.


(** A frame is well formed when its column names are distinct and all
    its columns have the height of the frame. *)
Definition well_formed (df : Polars.DataFrame) : Prop :=
  NoDup (Polars.columns df)
  /\ forall name s, In (name, s) df -> Polars.series_len s = Polars.height df.

(** Cells and non-null cells of a list of columns. *)
Definition cells (l : list Polars.series) : nat :=
  list_sum (map Polars.series_len l).

Definition non_null_cells (l : list Polars.series) : nat :=
  list_sum (map (fun s => (Polars.series_len s - Polars.null_count s)%nat) l).

Definition all_columns (df : Polars.DataFrame) : list Polars.series := map snd df.

Definition numeric_columns (df : Polars.DataFrame) : list Polars.series :=
  filter Validators.is_numeric (map snd df).

(** The fraction of non-null cells over a list of columns. *)
Definition non_null_fraction (l : list Polars.series) : Q :=
  (Loaders.Q_of_nat (non_null_cells l) / Loaders.Q_of_nat (cells l))%Q.

(** A table with a null in its only non-numeric column. *)
Definition sample_null_in_text : Polars.DataFrame :=
  [ ("country", Polars.StrSeries [Some "Brazil"; None]);
    ("year", Polars.IntSeries [Some 2020; Some 2021]) ].

(** The database obtained by exporting the sample frames with
    tree-cover loss 100 and primary-forest loss 200. *)
Definition sample_database : Database.database :=
  Database.mkDatabase sample_tree_cover sample_primary_200.

(** The sign test of the handler: [Some true] for a negative number,
    [Some false] for any other number, nothing for a value that cannot be
    compared with zero. *)
Definition sign_of (v : pyval) : option bool :=
  match v with
  | PInt z => Some (Z.ltb z 0)
  | PFloat q => Some (Polars.Qltb q 0)
  | PBool _ => Some false
  | _ => None
  end.

(** A row of the carbon lookup carries the selected columns. *)
Definition carbon_row (first : McpServer.row) : Prop :=
  forall key : string,
    In key ["carbon_emissions_mg_co2e"; "carbon_emissions_annual_avg";
            "carbon_removals_annual_avg"; "carbon_density_mg_c_ha";
            "carbon_flux_status"] ->
    McpServer.dict_get first key <> None.

(** Stand-ins for the surroundings of the handler, for concrete runs: a
    database that answers the latest-year statement with 2023 and every
    other statement with no row, no external analysis, and a rendering
    of values that is right on [None], integers and strings. *)
Definition sample_database_answers (sql : string) (params : list pyval)
    : list McpServer.row :=
  if String.eqb sql McpServer.latest_year_sql then [[("max_year", PInt 2023)]] else [].

Definition sample_no_analysis (question : string) (data : list McpServer.row)
    (context : string) : string := EmptyString.

Definition sample_str (v : pyval) : string :=
  match v with
  | PInt z => str_of_Z z
  | PStr s => s
  | _ => "None"
  end.

(** A call with the threshold 10, for which no carbon data exists. *)
Definition sample_args_threshold_10 : McpServer.row :=
  [("country", PStr "Brazil"); ("threshold", PInt 10)].

(** *** The transaction, operation by operation *)
Section TransactionSpec.

Variable DB : Type.
Variable sqlite_exec : string -> list pyval -> DB -> exn + DB.
Variable sqlite_kind : string -> QueryExecutor.statement_kind.

(** The parameters an operation is executed with. *)
Definition params_of (op : QueryExecutor.operation) : list pyval :=
  match snd op with
  | Some (p :: ps) => p :: ps
  | _ => []
  end.

(** The operation is a statement that ends the transaction it runs in:
    a [COMMIT] or a [ROLLBACK]. *)
Definition ends_transaction (op : QueryExecutor.operation) : bool :=
  match sqlite_kind (fst op) with
  | QueryExecutor.Commit | QueryExecutor.Rollback => true
  | _ => false
  end.

(** One operation that does not end the transaction, on the contents
    [db] of the open transaction: a [BEGIN] fails, because a transaction
    is open, and any other statement is a matter of the engine. *)
Definition run_statement (op : QueryExecutor.operation) (db : DB) : exn + DB :=
  match sqlite_kind (fst op) with
  | QueryExecutor.Begin =>
      inl (SqliteError "cannot start a transaction within a transaction")
  | _ => sqlite_exec (fst op) (params_of op) db
  end.

(** Running the operations one after the other on the contents [db],
    up to the first one that fails. *)
Fixpoint apply_operations (operations : list QueryExecutor.operation) (db : DB)
    : exn + DB :=
  match operations with
  | [] => inr db
  | op :: rest =>
      match run_statement op db with
      | inl e => inl e
      | inr db' => apply_operations rest db'
      end
  end.

(** The contents reached when the run stops. *)
Fixpoint progress (operations : list QueryExecutor.operation) (db : DB) : DB :=
  match operations with
  | [] => db
  | op :: rest =>
      match run_statement op db with
      | inl _ => db
      | inr db' => progress rest db'
      end
  end.

End TransactionSpec.

(** A small engine for concrete runs: the database is one table of
    integers, the statement [INSERT INTO logs (n) VALUES (?)] appends its
    integer parameter, [COMMIT], [ROLLBACK] and [BEGIN] are what they
    say, and any other text is a syntax error. *)
Definition sample_engine (sql : string) (params : list pyval) (db : list Z)
    : exn + list Z :=
  if String.eqb sql "INSERT INTO logs (n) VALUES (?)"
  then match params with
       | [PInt n] => inr (db ++ [n])%list
       | _ => inl (SqliteError "Incorrect number of bindings supplied")
       end
  else inl (SqliteError "syntax error").

Definition sample_commit (db : list Z) : option exn := None.

Definition sample_kind (sql : string) : QueryExecutor.statement_kind :=
  if String.eqb sql "COMMIT" then QueryExecutor.Commit
  else if String.eqb sql "ROLLBACK" then QueryExecutor.Rollback
  else if String.eqb sql "BEGIN" then QueryExecutor.Begin
  else if String.eqb sql "INSERT INTO logs (n) VALUES (?)" then QueryExecutor.Dml
  else QueryExecutor.Other.

End Spec.


(** ** [nexus/data/pipeline/validators.py], helper checks *)
Module ValidatorChecks.
Import Py Polars.

(** [for col in columns: ...] of [check_negative_values], with the
    list [columns_with_negatives] threaded through. *)
Fixpoint check_negative_loop (columns : list string) (df : DataFrame)
    (columns_with_negatives : list string) : result (list string) :=
  match columns with
  | [] => Ok columns_with_negatives
  | col :: rest =>
      if negb (has_column col df) then check_negative_loop rest df columns_with_negatives
      else if (contains "net_flux" col || contains "removals" col)%bool
      then check_negative_loop rest df columns_with_negatives
      else
        match get_column col df with
        | None => check_negative_loop rest df columns_with_negatives
        | Some s =>
            bind (lt_lit s 0) (fun negative =>
              let neg_count := filter_height (mask_and negative (is_not_null s)) in
              if (0 <? neg_count)%nat
              then check_negative_loop rest df (append columns_with_negatives col)
              else check_negative_loop rest df columns_with_negatives)
        end
  end.

(** [DataValidator.check_negative_values] *)
Definition check_negative_values (df : DataFrame) (columns : list string)
    : result (list string) :=
  check_negative_loop columns df [].

End ValidatorChecks.

(** ** Further vocabulary for the properties of Part II *)
Module Props.
Import Py.

(** The number of occurrences of a character in a string. *)
Fixpoint count_char (c : ascii) (s : string) : nat :=
  match s with
  | EmptyString => O
  | String a rest => ((if Ascii.eqb a c then 1 else 0) + count_char c rest)%nat
  end.

(** The characters a generated [WHERE] clause is made of: the
    characters [str.isalnum] accepts (letters, digits and, with them,
    numeric characters such as the fraction U+00BD), the underscore, the
    space, and the punctuation of the parameterised conditions. *)
Definition clause_char (c : ascii) : bool :=
  (char_isalnum c
   || existsb (Ascii.eqb c) ["_"; " "; "("; ")"; ","; "?"; "="]%char)%bool.

(** Characters with which SQL text closes a literal, ends a statement
    or opens a comment: the single quote (U+0027), the double quote
    (U+0022), the back quote (U+0060), the semicolon, the minus sign, the
    slash, the asterisk, the backslash (U+005C), the number sign, and the
    control characters U+0000, U+000A and U+000D. *)
Definition sql_special : list ascii :=
  ["039"; "034"; "096"; ";"; "-"; "/"; "*"; "092"; "#"; "000"; "010"; "013"]%char.

(** A year cell that [validate_years] keeps: present and within the
    inclusive range. *)
Definition year_in_range (min_year max_year : Z) (c : option Z) : bool :=
  match c with
  | Some y => (Z.leb min_year y && Z.leb y max_year)%bool
  | None => false
  end.

(** A column holds a negative value. *)
Definition has_negative (s : Polars.series) : bool :=
  match s with
  | Polars.IntSeries vals =>
      existsb (fun c => match c with Some z => Z.ltb z 0 | None => false end) vals
  | Polars.FloatSeries vals =>
      existsb (fun c => match c with Some q => Polars.Qltb q 0 | None => false end) vals
  | Polars.StrSeries _ => false
  end.

(** The named column is present in the frame, is not exempt by its
    name, and holds a negative value. *)
Definition reported (df : Polars.DataFrame) (col : string) : bool :=
  (negb (Spec.may_be_negative col)
   && match Polars.get_column col df with
      | Some s => has_negative s
      | None => false
      end)%bool.

End Props.

(** ** Expressions over two columns *)
Module PolarsExpr.
Import Py Polars.

(** A binary comparison is null when either operand is. *)
Definition cmp3 {A : Type} (cmp : A -> A -> bool) (a b : option A) : option bool :=
  match a, b with
  | Some x, Some y => Some (cmp x y)
  | _, _ => None
  end.

(** The cast of an integer column to the float type. *)
Definition to_float (vals : list (option Z)) : list (option Q) :=
  map (option_map inject_Z) vals.

Definition Qgtb (a b : Q) : bool := Qltb b a.

(** [pl.col(a) > pl.col(b)]: two integer columns are compared as
    integers, an integer and a float column in the float type, two string
    columns in the order of their code points; a string column does not
    compare with a numeric one. *)
Definition gt_col (a b : series) : result mask :=
  match a, b with
  | IntSeries x, IntSeries y => Ok (zip_with (cmp3 Z.gtb) x y)
  | IntSeries x, FloatSeries y => Ok (zip_with (cmp3 Qgtb) (to_float x) y)
  | FloatSeries x, IntSeries y => Ok (zip_with (cmp3 Qgtb) x (to_float y))
  | FloatSeries x, FloatSeries y => Ok (zip_with (cmp3 Qgtb) x y)
  | StrSeries x, StrSeries y => Ok (zip_with (cmp3 (fun s t => String.ltb t s)) x y)
  | _, _ => Raise (PolarsError "cannot compare string with numeric type")
  end.

(** [pl.col(c) > n] for an integer literal [n]. *)
Definition gt_lit : series -> Z -> result mask := compare_lit Z.gtb Qgtb.

(** [pl.when(m).then(pl.col(t)).otherwise(pl.col(o))]: the result has
    the common type of the two columns. *)
Definition when_then_col (m : mask) (t o : series) : result series :=
  match t, o with
  | IntSeries x, IntSeries y => Ok (IntSeries (when_then_otherwise m x y))
  | IntSeries x, FloatSeries y => Ok (FloatSeries (when_then_otherwise m (to_float x) y))
  | FloatSeries x, IntSeries y => Ok (FloatSeries (when_then_otherwise m x (to_float y)))
  | FloatSeries x, FloatSeries y => Ok (FloatSeries (when_then_otherwise m x y))
  | StrSeries x, StrSeries y => Ok (StrSeries (when_then_otherwise m x y))
  | _, _ => Raise (PolarsError "failed to determine supertype")
  end.

(** [pl.when(m).then(100.0).otherwise(pl.col(c))]: the float literal
    makes the result a float column. *)
Definition when_then_100 (m : mask) (o : series) : result series :=
  match o with
  | IntSeries y =>
      Ok (FloatSeries (when_then_otherwise m (map (fun _ => Some 100%Q) y) (to_float y)))
  | FloatSeries y =>
      Ok (FloatSeries (when_then_otherwise m (map (fun _ => Some 100%Q) y) y))
  | StrSeries _ => Raise (PolarsError "failed to determine supertype")
  end.

(** [pl.all_horizontal(masks)] for a non-empty list of masks. *)
Definition all_horizontal (masks : list mask) : mask :=
  match masks with
  | [] => []
  | m :: rest => fold_left mask_and rest m
  end.

(** [[pl.col(c).is_not_null() for c in columns]], evaluated on a frame:
    naming a column the frame does not have is an error of the engine. *)
Fixpoint not_null_masks (columns : list string) (df : DataFrame) : result (list mask) :=
  match columns with
  | [] => Ok []
  | c :: rest =>
      match get_column c df with
      | None => Raise (PolarsError ("column not found: " ++ c))
      | Some s => bind (not_null_masks rest df) (fun masks => Ok (is_not_null s :: masks))
      end
  end.

(** [df.drop_nulls()]: the rows without a null in any column. *)
Definition drop_nulls (df : DataFrame) : DataFrame :=
  filter_rows (all_horizontal (map (fun '(_, s) => is_not_null s) df)) df.

End PolarsExpr.

(** ** [DataCleaner]: capping and complete cases *)
Module CleanerChecks.
Import Py Polars PolarsExpr.

(** The first block of [cap_impossible_values]: the loss is capped at
    the extent. *)
Definition cap_loss_at_extent (df : DataFrame) (capped_count : Z)
    : result (DataFrame * Z) :=
  if (has_column "tree_cover_loss_ha" df && has_column "extent_2000_ha" df)%bool
  then
    match get_column "tree_cover_loss_ha" df, get_column "extent_2000_ha" df with
    | Some loss, Some extent =>
        bind (gt_col loss extent) (fun exceeds =>
        bind (gt_lit extent 0) (fun positive =>
          let mask := mask_and (mask_and exceeds positive) (is_not_null loss) in
          let count := filter_height mask in
          if (0 <? count)%nat
          then bind (when_then_col mask extent loss) (fun capped =>
                 Ok (with_column "tree_cover_loss_ha" capped df,
                     capped_count + Z.of_nat count))
          else Ok (df, capped_count)))
    | _, _ => Ok (df, capped_count)
    end
  else Ok (df, capped_count).

(** The second block: the loss rate is capped at 100. *)
Definition cap_loss_rate (df : DataFrame) (capped_count : Z)
    : result (DataFrame * Z) :=
  if has_column "loss_rate_pct" df
  then
    match get_column "loss_rate_pct" df with
    | Some rate =>
        bind (gt_lit rate 100) (fun mask =>
          let count := filter_height mask in
          if (0 <? count)%nat
          then bind (when_then_100 mask rate) (fun capped =>
                 Ok (with_column "loss_rate_pct" capped df,
                     capped_count + Z.of_nat count))
          else Ok (df, capped_count))
    | None => Ok (df, capped_count)
    end
  else Ok (df, capped_count).

(** [DataCleaner.cap_impossible_values] *)
Definition cap_impossible_values (self : DataCleaner.cleaning_stats) (df : DataFrame)
    : result (DataFrame * DataCleaner.cleaning_stats) :=
  bind (cap_loss_at_extent df 0) (fun '(df1, capped_count) =>
  bind (cap_loss_rate df1 capped_count) (fun '(df2, capped_count) =>
    Ok (df2, DataCleaner.mkStats (DataCleaner.countries_standardized self)
                                 (DataCleaner.negative_values_fixed self)
                                 capped_count
                                 (DataCleaner.duplicates_removed self)))).

(** [DataCleaner.get_complete_cases]; [None] and the empty list are both
    falsy and select [drop_nulls]. *)
Definition get_complete_cases (df : DataFrame) (columns : option (list string))
    : result DataFrame :=
  match columns with
  | Some (c :: rest) =>
      bind (not_null_masks (c :: rest) df) (fun masks =>
        Ok (filter_rows (all_horizontal masks) df))
  | _ => Ok (drop_nulls df)
  end.

End CleanerChecks.

(** ** Vocabulary for the properties of the capping and filtering code *)
Module Cells.

(** The numeric reading of a column: an integer cell as the rational it
    denotes; a string column has no numeric cells. *)
Definition as_Q (s : Polars.series) : list (option Q) :=
  match s with
  | Polars.IntSeries vals => PolarsExpr.to_float vals
  | Polars.FloatSeries vals => vals
  | Polars.StrSeries _ => []
  end.

(** The number in row [i] of a column, when there is one. *)
Definition cell_at (s : Polars.series) (i : nat) : option Q :=
  match nth_error (as_Q s) i with
  | Some c => c
  | None => None
  end.

(** The columns [get_complete_cases] inspects. *)
Definition checked_columns (df : Polars.DataFrame) (columns : option (list string))
    : list string :=
  match columns with
  | Some (c :: rest) => c :: rest
  | _ => Polars.columns df
  end.

(** No cell of the named column is null (or the frame lacks it). *)
Definition complete_in (df : Polars.DataFrame) (c : string) : Prop :=
  forall s, Polars.get_column c df = Some s -> Polars.null_count s = O.

End Cells.

(** ** Orderings of masks *)

(** [below m m']: wherever [m] selects a row, [m'] has a row and selects
    it too. *)
Fixpoint below (m m' : Polars.mask) : Prop :=
  match m, m' with
  | [], _ => True
  | b :: r, b' :: r' => (Polars.is_true b = true -> Polars.is_true b' = true) /\ below r r'
  | _ :: _, [] => False
  end.

(** The mask of [n] rows that selects every row. *)
Definition all_true (n : nat) : Polars.mask := repeat (Some true) n.

(** ** The masks of [cap_impossible_values] on numeric readings *)
Module Capping.
Import Polars PolarsExpr.

(** [(loss > extent) & (extent > 0) & loss.is_not_null()] in one row. *)
Definition exceeds_bit (l e : option Q) : option bool :=
  and3 (and3 (cmp3 Qgtb l e) (option_map (fun q => Qgtb q 0) e))
       (Some (negb (is_null l))).

Definition exceeds_mask (l e : list (option Q)) : mask := zip_with exceeds_bit l e.

(** [loss_rate_pct > 100] *)
Definition rate_mask (r : list (option Q)) : mask :=
  map (option_map (fun q => Qgtb q 100)) r.

(** Nothing is left to cap in the loss column: both columns are numeric
    and the mask of the first block selects no row. *)
Definition loss_settled (df : DataFrame) : Prop :=
  match get_column "tree_cover_loss_ha" df, get_column "extent_2000_ha" df with
  | Some l, Some e =>
      Validators.is_numeric l = true /\ Validators.is_numeric e = true
      /\ filter_height (exceeds_mask (Cells.as_Q l) (Cells.as_Q e)) = O
  | _, _ => True
  end.

(** Nothing is left to cap in the loss rate. *)
Definition rate_settled (df : DataFrame) : Prop :=
  match get_column "loss_rate_pct" df with
  | Some r =>
      Validators.is_numeric r = true /\ filter_height (rate_mask (Cells.as_Q r)) = O
  | None => True
  end.

End Capping.

(** ** [transformers.py]: the computed status columns *)
Module Transformers.
Import Py Polars PolarsExpr.

(** [pl.col(c) == n] for an integer literal [n]. *)
Definition eq_lit : series -> Z -> result mask := compare_lit Z.eqb Qeq_bool.

(** [pl.col(c).is_null()] *)
Definition is_null_expr (s : series) : mask :=
  match s with
  | IntSeries vals => map (fun c => Some (is_null c)) vals
  | FloatSeries vals => map (fun c => Some (is_null c)) vals
  | StrSeries vals => map (fun c => Some (is_null c)) vals
  end.

(** [pl.lit(x)], broadcast to the rows of the column it is combined
    with. *)
Definition lit (x : string) (s : series) : list (option string) :=
  repeat (Some x) (series_len s).

(** [BaseTransformer._add_data_quality_flag] *)
Definition _add_data_quality_flag (df : DataFrame) (value_column : string)
    : result DataFrame :=
  match get_column value_column df with
  | None => Raise (PolarsError ("column not found: " ++ value_column))
  | Some s =>
      bind (eq_lit s 0) (fun zero =>
      bind (lt_lit s 0) (fun negative =>
        Ok (with_column "data_quality_flag"
              (StrSeries
                 (when_then_otherwise (is_null_expr s) (lit "NULL" s)
                    (when_then_otherwise zero (lit "ZERO" s)
                       (when_then_otherwise negative (lit "INVALID" s)
                          (lit "VALID" s)))))
              df)))
  end.

(** The [carbon_flux_status] column that [CarbonTransformer.transform]
    adds: [SINK] below zero, [SOURCE] above, [NEUTRAL] otherwise. *)
Definition carbon_flux_status (df : DataFrame) : result DataFrame :=
  match get_column "carbon_net_flux_annual_avg" df with
  | None => Raise (PolarsError "column not found: carbon_net_flux_annual_avg")
  | Some s =>
      bind (lt_lit s 0) (fun negative =>
      bind (gt_lit s 0) (fun positive =>
        Ok (with_column "carbon_flux_status"
              (StrSeries
                 (when_then_otherwise negative (lit "SINK" s)
                    (when_then_otherwise positive (lit "SOURCE" s)
                       (lit "NEUTRAL" s))))
              df)))
  end.

End Transformers.

(** ** The label of one cell, for the properties of the status columns *)
Module Flags.

(** The quality flag of a numeric cell. *)
Definition quality_flag (c : option Q) : string :=
  match c with
  | None => "NULL"
  | Some q =>
      if Qeq_bool q 0 then "ZERO"
      else if Polars.Qltb q 0 then "INVALID" else "VALID"
  end.

(** What a database row holds for a float cell: a number, or [None] for
    NULL. *)
Definition cell_value (c : option Q) : Py.pyval :=
  match c with
  | Some q => Py.PFloat q
  | None => Py.PNone
  end.

(** The flux status of a numeric cell. *)
Definition flux_status (c : option Q) : string :=
  match c with
  | Some q =>
      if Polars.Qltb q 0 then "SINK"
      else if PolarsExpr.Qgtb q 0 then "SOURCE" else "NEUTRAL"
  | None => "NEUTRAL"
  end.

(** The word the carbon handler prints beside the net flux. *)
Definition handler_label (is_sink : bool) : string :=
  if is_sink then "SINK" else "SOURCE".

End Flags.

(** ** [mcp_stdio_server.py]: the dispatcher and the primary-forest tool *)
Module McpTools.
Import Py McpServer.

Local Open Scope py_scope.

(** The truth value of an object in a condition. *)
Definition truthy (v : pyval) : bool :=
  match v with
  | PNone => false
  | PBool b => b
  | PInt z => negb (Z.eqb z 0)
  | PFloat q => negb (Qeq_bool q 0)
  | PStr s => negb (String.eqb s EmptyString)
  | PList l | PTuple l => negb (Nat.eqb (List.length l) 0)
  | PDict d => negb (Nat.eqb (List.length d) 0)
  end.

Definition primary_forest_sql : string :=
  "
        SELECT country, year, primary_forest_loss_ha, is_tropical, loss_status
        FROM fact_primary_forest
        WHERE country = ? AND year = ? AND threshold = 30
    ".

Definition tropical_sql : string :=
  "SELECT DISTINCT country FROM fact_primary_forest WHERE country = ?".

Definition primary_forest_context : string :=
  "Primary forests are old-growth, undisturbed forests with high biodiversity and carbon storage".

(** The parameters are those of [McpServer.Handler]. *)
Section Tools.

Variable database : string -> list pyval -> list row.
Variable climategpt : string -> list row -> string -> string.
Variable str_of : pyval -> string.
Variable format_thousands : pyval -> string.
Variable bullet : string.

Definition not_tropical_message (country : pyval) : string :=
  ("No primary forest data for " ++ str_of country ++ "." ++ nl ++ nl)
  ++ (str_of country
      ++ " may not be a tropical country. Primary forest data is only available for tropical countries."
      ++ nl ++ nl)
  ++ "Use list_tropical_countries to see which countries have primary forest data.".

Definition no_year_message (country year : pyval) : string :=
  "No data found for " ++ str_of country ++ " in " ++ str_of year ++ "." ++ nl ++ nl
  ++ "Primary forest data is available from 2002-2024. Try a different year.".

(** [handle_query_primary_forest] *)
Definition handle_query_primary_forest (args : row) : handler (list TextContent) :=
  country <- getitem args "country" ;;
  latest <- get_latest_year database ;;
  let year := get args "year" latest in
  results <- execute_query database primary_forest_sql [country; year] ;;
  match results with
  | [] =>
      tropical_check <- execute_query database tropical_sql [country] ;;
      match tropical_check with
      | [] => ret [mkTextContent "text" (not_tropical_message country)]
      | _ => ret [mkTextContent "text" (no_year_message country year)]
      end
  | first :: _ =>
      let response :=
        "**Primary Forest Loss: " ++ str_of country ++ " (" ++ str_of year ++ ")**"
        ++ nl ++ nl in
      loss <- getitem first "primary_forest_loss_ha" ;;
      let response :=
        response ++ (bullet ++ " Primary Forest Loss: "
                     ++ format_number str_of format_thousands loss ++ " hectares" ++ nl) in
      status <- getitem first "loss_status" ;;
      let response := response ++ (bullet ++ " Status: " ++ str_of status ++ nl) in
      is_tropical <- getitem first "is_tropical" ;;
      let response :=
        response ++ (bullet ++ " Tropical Country: "
                     ++ (if truthy is_tropical then "Yes" else "No") ++ nl) in
      let climate_analysis :=
        climategpt
          ("Primary (virgin) forest loss in " ++ str_of country ++ " during "
           ++ str_of year)
          results primary_forest_context in
      let response :=
        match climate_analysis with
        | EmptyString => response
        | _ => response ++ (nl ++ "**Climate Impact:**" ++ nl ++ climate_analysis)
        end in
      ret [mkTextContent "text" (add_source_attribution response)]
  end.

End Tools.

End McpTools.

(** ** [mcp_stdio_server.py]: the dispatcher *)
Module McpDispatch.
Import Py McpServer.

(** What awaiting a tool comes to: the tool returns, it raises an
    exception of the class [Exception], or it raises one that is no
    [Exception] ([asyncio.CancelledError], [KeyboardInterrupt],
    [SystemExit]), named here by its class. *)
Inductive outcome (A : Type) : Type :=
| Returns (a : A)
| Raises (e : exn)
| Escapes (class : string).

Arguments Returns {A} a.
Arguments Raises {A} e.
Arguments Escapes {A} class.

(** A tool runs against the log of the statements executed so far. *)
Definition tool : Type :=
  row -> list query -> outcome (list TextContent) * list query.

(** A handler of the embedding, as a tool. *)
Definition of_handler (h : row -> handler (list TextContent)) : tool :=
  fun arguments log =>
    match h arguments log with
    | (Ok texts, log') => (Returns texts, log')
    | (Raise e, log') => (Raises e, log')
    end.

(** The dispatcher is given the twelve tools of the server; [str_of_exn]
    is the built-in [str] on exceptions. *)
Section Dispatcher.

Variable str_of_exn : exn -> string.

Variable handle_query_tree_cover_loss : tool.
Variable handle_query_primary_forest : tool.
Variable handle_query_carbon_data : tool.
Variable handle_analyze_trend : tool.
Variable handle_compare_countries : tool.
Variable handle_rank_countries : tool.
Variable handle_calculate_primary_share : tool.
Variable handle_calculate_carbon_intensity : tool.
Variable handle_compare_thresholds : tool.
Variable handle_aggregate_global : tool.
Variable handle_list_tropical_countries : tool.
Variable handle_get_database_summary : tool.

(** The routing of [call_tool]. *)
Definition route (name : string) : tool :=
  fun arguments =>
    if String.eqb name "query_tree_cover_loss" then handle_query_tree_cover_loss arguments
    else if String.eqb name "query_primary_forest"
    then handle_query_primary_forest arguments
    else if String.eqb name "query_carbon_data" then handle_query_carbon_data arguments
    else if String.eqb name "analyze_trend" then handle_analyze_trend arguments
    else if String.eqb name "compare_countries" then handle_compare_countries arguments
    else if String.eqb name "rank_countries" then handle_rank_countries arguments
    else if String.eqb name "calculate_primary_share"
    then handle_calculate_primary_share arguments
    else if String.eqb name "calculate_carbon_intensity"
    then handle_calculate_carbon_intensity arguments
    else if String.eqb name "compare_thresholds" then handle_compare_thresholds arguments
    else if String.eqb name "aggregate_global" then handle_aggregate_global arguments
    else if String.eqb name "list_tropical_countries"
    then handle_list_tropical_countries arguments
    else if String.eqb name "get_database_summary"
    then handle_get_database_summary arguments
    else fun log => (Returns [mkTextContent "text" ("Unknown tool: " ++ name)], log).

Definition error_message (e : exn) : string :=
  "Error: " ++ str_of_exn e ++ nl ++ nl ++ "Please check your parameters and try again.".

(** [call_tool]: [try: <routing> except Exception as e: <error text>].
    An exception that is no [Exception] is not caught; the statements a
    failed tool has executed stay executed.  The two log lines before the
    routing write the name and the arguments, which are JSON values, and
    have no other effect. *)
Definition call_tool (name : string) : tool :=
  fun arguments log =>
    match route name arguments log with
    | (Returns texts, log') => (Returns texts, log')
    | (Raises e, log') => (Returns [mkTextContent "text" (error_message e)], log')
    | (Escapes class, log') => (Escapes class, log')
    end.

End Dispatcher.

End McpDispatch.

(** ** [mcp_stdio_server.py]: the query executor of the server *)
Module McpQueryExecutor.
Import Py.

(** [QueryExecutor.execute_query]: [engine sql params] is the outcome of
    connecting to the database file, executing the statement and
    fetching all rows ([params] is empty when the statement is executed
    without parameters); any exception is logged and answered with the
    empty list. *)
Definition execute_query (engine : string -> list pyval -> exn + list McpServer.row)
    (sql : string) (params : list pyval) : list McpServer.row :=
  match engine sql params with
  | inr results => results
  | inl _ => []
  end.

End McpQueryExecutor.

(** ** Sample parameters of the tool server *)
Module Samples.
Import Py.

(** [str(e)] for the exceptions met here: the message, and for a
    [KeyError] the quoted key. *)
Definition sample_str_of_exn (e : exn) : string :=
  match e with
  | KeyError key => "'" ++ key ++ "'"
  | ValueError m | TypeError m | PolarsError m | SqliteError m => m
  end.

(** A tool that answers with a fixed text. *)
Definition sample_tool : McpDispatch.tool :=
  fun arguments log => (McpDispatch.Returns [McpServer.mkTextContent "text" "ok"], log).

(** A database file that cannot be opened. *)
Definition sample_broken_engine (sql : string) (params : list pyval)
    : exn + list McpServer.row :=
  inl (SqliteError "unable to open database file").

End Samples.

(** ** [query_executor.py]: table statistics and the health check *)
Module TableStats.
Import Py McpServer.

Local Open Scope py_scope.

(** The exceptions of this code: those of [Py.exn], and the
    [IndexError] of [integrity[0]] on an empty list. *)
Inductive error : Type :=
| Exn (e : exn)
| IndexError (msg : string).

Definition allowed_tables : list string :=
  [ "fact_tree_cover_loss"; "fact_primary_forest"; "fact_carbon"; "dim_location";
    "dim_time" ].

(** The f-string [stats_sql]. *)
Definition stats_sql (table_name : string) : string :=
  nl ++ "            SELECT " ++ nl
  ++ "                COUNT(*) as row_count," ++ nl
  ++ "                COUNT(DISTINCT country) as unique_countries," ++ nl
  ++ "                COUNT(DISTINCT year) as unique_years" ++ nl
  ++ "            FROM " ++ table_name ++ nl
  ++ "        ".

(** The outcome of one run and the list of SQL texts handed to
    [execute_query] so far. *)
Definition run (A : Type) : Type := list string -> (A + error) * list string.

(** The results record of [validate_database]. *)
Record health : Type := mkHealth {
  status : string;
  tables : list (string * row);
  issues : list string
}.

(** [database sql] is what [QueryExecutor.execute_query(sql)] does on
    the database file: it returns the rows or re-raises the exception of
    the engine.  [str_of_error] is the built-in [str] on exceptions. *)
Section Executor.

Variable database : string -> exn + list row.
Variable str_of_error : error -> string.

(** [self.execute_query(sql)] *)
Definition execute_query (sql : string) : run (list row) :=
  fun log =>
    (match database sql with
     | inr results => inl results
     | inl e => inr (Exn e)
     end, append log sql).

(** [QueryExecutor.get_table_stats] *)
Definition get_table_stats (table_name : string) : run row :=
  fun log =>
    if negb (existsb (String.eqb table_name) allowed_tables)
    then (inr (Exn (ValueError ("Invalid table name: " ++ table_name))), log)
    else
      match execute_query (stats_sql table_name) log with
      | (inl (first :: _), log') => (inl first, log')
      | (inl [], log') => (inl [], log')
      | (inr e, log') => (inr e, log')
      end.

(** The body of [for table in [...]] in [validate_database]: the
    results record is updated in place, so what has been recorded stays
    recorded when a later step raises. *)
Fixpoint check_tables (names : list string) (results : health)
    : list string -> (option error * health) * list string :=
  fun log =>
    match names with
    | [] => ((None, results), log)
    | table :: rest =>
        match get_table_stats table log with
        | (inr e, log') => ((Some e, results), log')
        | (inl stats, log') =>
            let results :=
              mkHealth (status results) (append (tables results) (table, stats))
                (issues results) in
            let results :=
              if eq_int (get stats "row_count" (PInt 0)) 0
              then mkHealth "unhealthy" (tables results)
                     (append (issues results) (table ++ " is empty"))
              else results in
            check_tables rest results log'
        end
    end.

(** [integrity[0].get("integrity_check") != "ok"] *)
Definition integrity_failed (first : row) : bool :=
  match dict_get first "integrity_check" with
  | Some (PStr s) => negb (String.eqb s "ok")
  | _ => true
  end.

(** [QueryExecutor.validate_database] *)
Definition validate_database : list string -> health * list string :=
  fun log =>
    let failed (e : error) (results : health) :=
      mkHealth "error" (tables results) (append (issues results) (str_of_error e)) in
    match check_tables ["fact_tree_cover_loss"; "fact_primary_forest"; "fact_carbon"]
            (mkHealth "healthy" [] []) log with
    | ((Some e, results), log') => (failed e results, log')
    | ((None, results), log') =>
        match execute_query "PRAGMA integrity_check" log' with
        | (inr e, log'') => (failed e results, log'')
        | (inl [], log'') =>
            (failed (IndexError "list index out of range") results, log'')
        | (inl (first :: _), log'') =>
            (if integrity_failed first
             then mkHealth "unhealthy" (tables results)
                    (append (issues results) "Database integrity check failed")
             else results, log'')
        end
    end.

End Executor.

End TableStats.

(** ** What the health check has established so far *)
Module Health.
Import Py McpServer TableStats.

(** Every table recorded so far has a row count other than zero. *)
Definition all_populated (results : health) : Prop :=
  forall table stats, In (table, stats) (tables results) ->
    eq_int (get stats "row_count" (PInt 0)) 0 = false.

(** The state of the results record between two steps of
    [validate_database]: still healthy with no issue and only populated
    tables, or unhealthy with at least one issue. *)
Definition consistent (results : health) : Prop :=
  (status results = "healthy" /\ issues results = [] /\ all_populated results)
  \/ (status results = "unhealthy" /\ issues results <> []).

Definition fact_tables : list string :=
  ["fact_tree_cover_loss"; "fact_primary_forest"; "fact_carbon"].

End Health.

(** ** Sample databases of the health check *)
Module HealthSamples.
Import Py.

(** A database whose every statement answers one row, with a row count
    of five and an integrity check that is fine. *)
Definition sample_sound_database (sql : string) : exn + list McpServer.row :=
  inr [[("row_count", PInt 5); ("integrity_check", PStr "ok")]].

Definition sample_str_of_error (e : TableStats.error) : string :=
  match e with
  | TableStats.Exn e => Samples.sample_str_of_exn e
  | TableStats.IndexError m => m
  end.

End HealthSamples.

(** ** [exporter.py]: the labels of the time dimension *)
Module DimTime.
Import Py.

(** [year BETWEEN lo AND hi]; a comparison with NULL is not true. *)
Definition between (year : option Z) (lo hi : Z) : bool :=
  match year with
  | Some y => (Z.leb lo y && Z.leb y hi)%bool
  | None => false
  end.

(** [year <= n] *)
Definition at_most (year : option Z) (n : Z) : bool :=
  match year with
  | Some y => Z.leb y n
  | None => false
  end.

(** The [decade] column of [create_dimension_tables]; a [CASE] without
    [ELSE] is NULL when no branch applies. *)
Definition decade (year : option Z) : option string :=
  if between year 2000 2009 then Some "2000s"
  else if between year 2010 2019 then Some "2010s"
  else if between year 2020 2029 then Some "2020s"
  else None.

(** The [period] column. *)
Definition period (year : option Z) : string :=
  if at_most year 2005 then "Early 2000s"
  else if at_most year 2010 then "Late 2000s"
  else if at_most year 2015 then "Early 2010s"
  else if at_most year 2020 then "Late 2010s"
  else "Early 2020s".

End DimTime.
(* ================================================================== *)
(** * Part II.  Lemmas and theorems                                    *)
(* ================================================================== *)

Import Py.

(** ** The WHERE-clause builder *)

Lemma chars_repeat_char (c : ascii) (n : nat) :
  chars (repeat_char c n) = repeat (String c EmptyString) n.
Proof.
  induction n as [|n IH]; simpl; [reflexivity | now rewrite IH].
Qed.

Lemma all_chars_remove_underscore (s : string) :
  all_chars char_isalnum (remove_char "_" s) = true ->
  forall c, In c (list_ascii_of_string s) -> char_isalnum c = true \/ c = "_"%char.
Proof.
  induction s as [|a s IH]; simpl; intros H c Hin; [contradiction|].
  destruct (Ascii.eqb a "_") eqn:Ea.
  - destruct Hin as [<- | Hin]; [right; now apply Ascii.eqb_eq | now apply IH].
  - simpl in H. apply andb_true_iff in H as [Ha Hs].
    destruct Hin as [<- | Hin]; [now left | now apply IH].
Qed.

Lemma isalnum_all_chars (s : string) :
  isalnum s = true -> all_chars char_isalnum s = true.
Proof.
  destruct s; simpl; [discriminate | trivial].
Qed.

Lemma remove_underscore_empty (s : string) :
  remove_char "_" s = EmptyString
  <-> forall c, In c (list_ascii_of_string s) -> c = "_"%char.
Proof.
  induction s as [|a s IH]; simpl.
  - split; [intros _ c [] | reflexivity].
  - destruct (Ascii.eqb a "_") eqn:Ea.
    + apply Ascii.eqb_eq in Ea. subst a. rewrite IH. split.
      * intros H c [<- | Hc]; [reflexivity | now apply H].
      * intros H c Hc. apply H. now right.
    + split; [discriminate|]. intros H. apply Ascii.eqb_neq in Ea.
      exfalso. apply Ea. apply H. now left.
Qed.

Lemma remove_underscore_not_alnum (s : string) :
  all_chars char_isalnum (remove_char "_" s) = false ->
  exists c, In c (list_ascii_of_string s) /\ char_isalnum c = false /\ c <> "_"%char.
Proof.
  induction s as [|a s IH]; simpl; [discriminate|].
  destruct (Ascii.eqb a "_") eqn:Ea.
  - intros H. destruct (IH H) as (c & Hin & Hc). exists c. split; [now right | exact Hc].
  - simpl. destruct (char_isalnum a) eqn:Hal; simpl.
    + intros H. destruct (IH H) as (c & Hin & Hc). exists c. split; [now right | exact Hc].
    + intros _. exists a. repeat split; [now left | exact Hal|].
      now apply Ascii.eqb_neq.
Qed.

(** The validity test of the code, character by character. *)
Lemma column_ok_false_iff (column : string) :
  QueryExecutor.column_ok column = false <-> Spec.fails_isalnum column.
Proof.
  unfold QueryExecutor.column_ok, Spec.fails_isalnum. split.
  - intros H. destruct (remove_char "_" column) as [|a r] eqn:E.
    + left. now apply remove_underscore_empty.
    + right. apply remove_underscore_not_alnum. now rewrite E.
  - intros [Hall | (c & Hin & Hc & Hu)].
    + apply remove_underscore_empty in Hall. now rewrite Hall.
    + destruct (isalnum (remove_char "_" column)) eqn:E; [|reflexivity].
      apply isalnum_all_chars in E.
      destruct (all_chars_remove_underscore _ E c Hin) as [H | H]; congruence.
Qed.

(** The characters [str.isalnum] accepts below U+0100: the letters, the
    digits and the three fractions. *)
Lemma char_isalnum_classes (c : ascii) :
  char_isalnum c
  = (Spec.is_letter c || Spec.is_digit c || Spec.is_vulgar_fraction c)%bool.
Proof.
  destruct c as [[|] [|] [|] [|] [|] [|] [|] [|]]; reflexivity.
Qed.

Lemma first_rejected_none (conditions : list (string * pyval)) :
  Spec.first_rejected conditions = None <->
  forallb (fun e => QueryExecutor.column_ok (fst e)) conditions = true.
Proof.
  unfold Spec.first_rejected.
  induction conditions as [|[column value] rest IH]; simpl; [tauto|].
  destruct (QueryExecutor.column_ok column); simpl; [exact IH | split; discriminate].
Qed.

Lemma first_rejected_some (conditions : list (string * pyval)) (c : string) :
  Spec.first_rejected conditions = Some c ->
  In c (map fst conditions) /\ QueryExecutor.column_ok c = false.
Proof.
  unfold Spec.first_rejected. intros H. apply find_some in H as [Hin Hc].
  split; [exact Hin | now apply negb_true_iff].
Qed.

Lemma rejected_entry_first_rejected (conditions : list (string * pyval))
    (column : string) (value : pyval) :
  In (column, value) conditions -> QueryExecutor.column_ok column = false ->
  exists c, Spec.first_rejected conditions = Some c.
Proof.
  intros Hin Hc. destruct (Spec.first_rejected conditions) as [c|] eqn:E; [now exists c|].
  apply first_rejected_none in E. rewrite forallb_forall in E.
  specialize (E _ Hin). simpl in E. congruence.
Qed.

(** The loop, whatever the accumulators hold when it starts: it raises
    for the first rejected column, and otherwise extends the accumulators
    by the conditions and the parameters of the entries, in order. *)
Lemma build_where_loop_spec (items : QueryExecutor.conditions_map) :
  forall (where_parts : list string) (params : list pyval),
    QueryExecutor.build_where_loop items where_parts params =
    match Spec.first_rejected items with
    | Some c => Raise (ValueError ("Invalid column name: " ++ c))
    | None => Ok ((where_parts ++ map Spec.entry_sql items)%list,
                  (params ++ flat_map Spec.entry_params items)%list)
    end.
Proof.
  unfold Spec.first_rejected.
  induction items as [|[column value] rest IH]; intros where_parts params; simpl.
  - now rewrite !app_nil_r.
  - destruct (QueryExecutor.column_ok column) eqn:Hc; simpl; [|reflexivity].
    destruct value; rewrite IH; destruct (find _ _); try reflexivity;
      unfold append, extend, QueryExecutor.placeholders, Spec.entry_params; simpl;
      rewrite <- ?app_assoc; simpl; rewrite ?chars_repeat_char; reflexivity.
Qed.

(** C1, as the code has it.  [build_where_clause] returns the pair of
    the empty string and the empty tuple for an empty map.  A column name
    fails the validity test exactly when, underscores apart, it has no
    character or has a character that [str.isalnum] does not accept; the
    characters [str.isalnum] accepts are the letters, the digits and the
    fractions U+00BC, U+00BD and U+00BE, so a name that holds one of the
    fractions passes although it is made of more than letters, digits and
    underscores.  The call raises the invalid-input error [ValueError] as
    soon as some column name fails the test, so that no SQL text is
    produced from such a name; and when every column name passes, the
    clause is [WHERE] followed by the entries' conditions joined by [AND]
    ([column IS NULL] for a null value, [column IN (?,...,?)] with one
    placeholder per element for a list or tuple, [column = ?] for a
    scalar) and the parameters are the entries' values in entry order.
    The map [{"country": "Brazil", "year": 2023}] gives
    ["WHERE country = ? AND year = ?"] with parameters [("Brazil", 2023)].
    Column names are strings over the code points below U+0100. *)
Theorem build_where_clause_correct :
  QueryExecutor.build_where_clause [] = Ok (EmptyString, [])
  /\ (forall column : string,
        QueryExecutor.column_ok column = false <-> Spec.fails_isalnum column)
  /\ (forall c : ascii,
        char_isalnum c
        = (Spec.is_letter c || Spec.is_digit c || Spec.is_vulgar_fraction c)%bool)
  /\ (forall (conditions : QueryExecutor.conditions_map) (column : string) (value : pyval),
        In (column, value) conditions ->
        Spec.fails_isalnum column ->
        exists c,
          In c (map fst conditions)
          /\ Spec.fails_isalnum c
          /\ QueryExecutor.build_where_clause conditions
             = Raise (ValueError ("Invalid column name: " ++ c)))
  /\ (forall conditions : QueryExecutor.conditions_map,
        conditions <> [] ->
        (forall column value, In (column, value) conditions ->
           ~ Spec.fails_isalnum column) ->
        QueryExecutor.build_where_clause conditions
        = Ok ("WHERE " ++ join " AND " (map Spec.entry_sql conditions),
              flat_map Spec.entry_params conditions))
  /\ QueryExecutor.build_where_clause [("country", PStr "Brazil"); ("year", PInt 2023)]
     = Ok ("WHERE country = ? AND year = ?", [PStr "Brazil"; PInt 2023]).
Proof.
  split; [reflexivity|]. split; [exact column_ok_false_iff|].
  split; [exact char_isalnum_classes|]. split; [|split; [|reflexivity]].
  - intros conditions column value Hin Hbad.
    apply column_ok_false_iff in Hbad.
    destruct (rejected_entry_first_rejected _ _ _ Hin Hbad) as [c Hc].
    destruct (first_rejected_some _ _ Hc) as [Hcin Hcok].
    exists c. repeat split; trivial; [now apply column_ok_false_iff|].
    unfold QueryExecutor.build_where_clause.
    destruct conditions as [|e rest]; [contradiction|].
    rewrite build_where_loop_spec, Hc. reflexivity.
  - intros conditions Hne Hok.
    assert (Hall : forallb (fun e => QueryExecutor.column_ok (fst e)) conditions = true).
    { apply forallb_forall. intros [column value] Hin. simpl.
      destruct (QueryExecutor.column_ok column) eqn:E; [reflexivity|].
      exfalso. apply (Hok column value Hin). now apply column_ok_false_iff. }
    apply first_rejected_none in Hall.
    unfold QueryExecutor.build_where_clause.
    destruct conditions as [|e rest]; [congruence|].
    rewrite build_where_loop_spec, Hall. reflexivity.
Qed.

(** The theorem at a column name with a semicolon, and at a map with a
    list-valued entry and a null entry. *)
Lemma build_where_clause_correct_witness :
  (exists c,
      In c (map fst [("a;b", PInt 1)])
      /\ Spec.fails_isalnum c
      /\ QueryExecutor.build_where_clause [("a;b", PInt 1)]
         = Raise (ValueError ("Invalid column name: " ++ c)))
  /\ QueryExecutor.build_where_clause
       [("year", PList [PInt 2020; PInt 2021; PInt 2022]); ("region_1", PNone)]
     = Ok ("WHERE year IN (?,?,?) AND region_1 IS NULL",
           [PInt 2020; PInt 2021; PInt 2022]).
Proof.
  destruct build_where_clause_correct as (_ & Htest & _ & Hreject & Haccept & _).
  split.
  - apply (Hreject [("a;b", PInt 1)] "a;b" (PInt 1)).
    + simpl. left. reflexivity.
    + right. exists ";"%char. repeat split.
      * simpl. right. left. reflexivity.
      * discriminate.
  - apply (Haccept [("year", PList [PInt 2020; PInt 2021; PInt 2022]); ("region_1", PNone)]).
    + discriminate.
    + intros column value [[= <- <-] | [[= <- <-] | []]] Hfails;
        apply Htest in Hfails; discriminate.
Defined.

(** C1, as the claim states it, fails: the column name made of [a] and
    the fraction U+00BD holds a character that is neither a letter, a digit
    nor the underscore, and [build_where_clause] does not raise on it: the
    name is written into the clause. *)
Lemma build_where_clause_accepts_fraction :
  Spec.has_foreign_char Spec.a_half
  /\ QueryExecutor.build_where_clause [(Spec.a_half, PInt 1)]
     = Ok ("WHERE " ++ Spec.a_half ++ " = ?", [PInt 1]).
Proof.
  split; [|reflexivity].
  exists Spec.one_half. repeat split.
  - simpl. right. left. reflexivity.
  - discriminate.
Qed.

(** ** The transaction *)
Section TransactionProofs.

Variable DB : Type.
Variable sqlite_exec : string -> list pyval -> DB -> exn + DB.
Variable sqlite_commit : DB -> option exn.
Variable sqlite_kind : string -> QueryExecutor.statement_kind.

Let connection := QueryExecutor.connection DB.
Let mk := QueryExecutor.mkConnection DB.
Let run_statement := Spec.run_statement DB sqlite_exec sqlite_kind.
Let apply_operations := Spec.apply_operations DB sqlite_exec sqlite_kind.
Let progress := Spec.progress DB sqlite_exec sqlite_kind.
Let ends_transaction := Spec.ends_transaction sqlite_kind.

Lemma cursor_execute_open (sql : string) (params : list pyval) (d w : DB) :
  match sqlite_kind sql with
  | QueryExecutor.Commit | QueryExecutor.Rollback => False
  | _ => True
  end ->
  QueryExecutor.cursor_execute DB sqlite_exec sqlite_commit sqlite_kind sql params
    (mk d (Some w)) =
  match match sqlite_kind sql with
        | QueryExecutor.Begin =>
            inl (SqliteError "cannot start a transaction within a transaction")
        | _ => sqlite_exec sql params w
        end with
  | inl e => (Raise e, mk d (Some w))
  | inr w' => (Ok tt, mk d (Some w'))
  end.
Proof.
  unfold QueryExecutor.cursor_execute, QueryExecutor.begin_transaction.
  destruct (sqlite_kind sql); simpl; try contradiction; intros _; trivial;
    destruct (sqlite_exec sql params w); reflexivity.
Qed.

Lemma execute_operation_open (op : QueryExecutor.operation) (d w : DB) :
  ends_transaction op = false ->
  QueryExecutor.execute_operation DB sqlite_exec sqlite_commit sqlite_kind op
    (mk d (Some w)) =
  match run_statement op w with
  | inl e => (Raise e, mk d (Some w))
  | inr w' => (Ok tt, mk d (Some w'))
  end.
Proof.
  unfold ends_transaction, Spec.ends_transaction, run_statement, Spec.run_statement.
  intros Hkind.
  assert (Hopen : match sqlite_kind (fst op) with
                  | QueryExecutor.Commit | QueryExecutor.Rollback => False
                  | _ => True
                  end)
    by (destruct (sqlite_kind (fst op)); trivial; discriminate).
  destruct op as [sql [[|p ps]|]]; unfold QueryExecutor.execute_operation,
    Spec.params_of; cbn [fst snd] in *; now apply cursor_execute_open.
Qed.

Lemma for_operations_open (operations : list QueryExecutor.operation) :
  forallb (fun op => negb (ends_transaction op)) operations = true ->
  forall d w : DB,
    QueryExecutor.for_operations DB sqlite_exec sqlite_commit sqlite_kind operations
      (mk d (Some w)) =
    (match apply_operations operations w with
     | inl e => Raise e
     | inr _ => Ok tt
     end,
     mk d (Some (progress operations w))).
Proof.
  induction operations as [|op rest IH]; intros Hkinds d w; simpl; [reflexivity|].
  simpl in Hkinds. apply andb_true_iff in Hkinds as [Hop Hrest].
  apply negb_true_iff in Hop.
  unfold seq. rewrite (execute_operation_open op d w Hop).
  unfold apply_operations, progress. cbn [Spec.apply_operations Spec.progress].
  fold run_statement. destruct (run_statement op w) as [e | w']; [reflexivity|].
  now apply IH.
Qed.

Lemma apply_operations_progress (operations : list QueryExecutor.operation) :
  forall w w' : DB, apply_operations operations w = inr w' -> progress operations w = w'.
Proof.
  unfold apply_operations, progress.
  induction operations as [|op rest IH]; intros w w'; simpl.
  - congruence.
  - destruct (Spec.run_statement DB sqlite_exec sqlite_kind op w);
      [discriminate | apply IH].
Qed.

(** C2, as the code has it.  [execute_transaction] is all-or-nothing on
    every list of operations none of which ends the transaction it runs
    in, that is none of which is a [COMMIT] or a [ROLLBACK] statement.
    For every such list and every database: when every operation succeeds
    and the commit goes through, the call returns [True] and the database
    holds the combined effect of the operations; when an operation fails,
    the exception of the first failing operation is re-raised and the
    database is in its state from before the call, the effects of the
    earlier operations being rolled back; a failing commit is re-raised
    the same way.  No other outcome exists. *)
Theorem execute_transaction_all_or_nothing
    (operations : list QueryExecutor.operation) (db : DB) :
  forallb (fun op => negb (ends_transaction op)) operations = true ->
  QueryExecutor.execute_transaction DB sqlite_exec sqlite_commit sqlite_kind
    operations db =
  match apply_operations operations db with
  | inl e => (Raise e, db)
  | inr db' =>
      match sqlite_commit db' with
      | None => (Ok true, db')
      | Some e => (Raise e, db)
      end
  end.
Proof.
  intros Hkinds.
  unfold QueryExecutor.execute_transaction, try_except_reraise, seq,
    QueryExecutor.begin_transaction, QueryExecutor.connect. simpl.
  fold (mk db (Some db)). rewrite (for_operations_open operations Hkinds).
  destruct (apply_operations operations db) as [e | db'] eqn:E; simpl; [reflexivity|].
  rewrite (apply_operations_progress _ _ _ E).
  unfold QueryExecutor.commit. simpl.
  destruct (sqlite_commit db'); reflexivity.
Qed.

End TransactionProofs.

(** The theorem on the sample engine: two insertions are committed
    together, and an insertion followed by a malformed statement leaves
    the table as it was. *)
Lemma execute_transaction_all_or_nothing_witness :
  QueryExecutor.execute_transaction (list Z) Spec.sample_engine Spec.sample_commit
    Spec.sample_kind
    [("INSERT INTO logs (n) VALUES (?)", Some [PInt 1]);
     ("INSERT INTO logs (n) VALUES (?)", Some [PInt 2])] [7]
  = (Ok true, [7; 1; 2])
  /\ QueryExecutor.execute_transaction (list Z) Spec.sample_engine Spec.sample_commit
       Spec.sample_kind
       [("INSERT INTO logs (n) VALUES (?)", Some [PInt 1]);
        ("INSRT INTO logs", None)] [7]
     = (Raise (SqliteError "syntax error"), [7]).
Proof.
  split.
  - exact (execute_transaction_all_or_nothing (list Z) Spec.sample_engine
             Spec.sample_commit Spec.sample_kind
             [("INSERT INTO logs (n) VALUES (?)", Some [PInt 1]);
              ("INSERT INTO logs (n) VALUES (?)", Some [PInt 2])] [7] eq_refl).
  - exact (execute_transaction_all_or_nothing (list Z) Spec.sample_engine
             Spec.sample_commit Spec.sample_kind
             [("INSERT INTO logs (n) VALUES (?)", Some [PInt 1]);
              ("INSRT INTO logs", None)] [7] eq_refl).
Defined.

(** C2, as the claim states it, fails: the operations are handed to the
    engine as they are, so a list can end the transaction itself.  After
    an insertion and a [COMMIT], a malformed statement makes the call
    re-raise with the insertion already committed; and after an insertion
    and a [ROLLBACK], a second insertion is committed alone while the
    call returns [True]. *)
Lemma execute_transaction_commit_inside :
  QueryExecutor.execute_transaction (list Z) Spec.sample_engine Spec.sample_commit
    Spec.sample_kind
    [("INSERT INTO logs (n) VALUES (?)", Some [PInt 1]);
     ("COMMIT", None);
     ("INSRT INTO logs", None)] [7]
  = (Raise (SqliteError "syntax error"), [7; 1])
  /\ QueryExecutor.execute_transaction (list Z) Spec.sample_engine Spec.sample_commit
       Spec.sample_kind
       [("INSERT INTO logs (n) VALUES (?)", Some [PInt 1]);
        ("ROLLBACK", None);
        ("INSERT INTO logs (n) VALUES (?)", Some [PInt 2])] [7]
     = (Ok true, [7; 2]).
Proof.
  split; reflexivity.
Qed.

(** ** The bounding relationship between the fact tables *)

Lemma prefix_app (n s : string) : prefix n (n ++ s) = true.
Proof.
  induction n as [|a n IH]; simpl; [now destruct s|].
  destruct (ascii_dec a a); [exact IH | congruence].
Qed.

Lemma contains_prefix (n hay : string) : prefix n hay = true -> contains n hay = true.
Proof.
  intros H. destruct hay; simpl in *; rewrite H; reflexivity.
Qed.

Lemma contains_app_r (n p hay : string) :
  contains n hay = true -> contains n (p ++ hay) = true.
Proof.
  intros H. induction p as [|a p IH]; simpl; [exact H|].
  rewrite IH. apply orb_true_r.
Qed.

Lemma contains_app_l (n hay s : string) :
  contains n hay = true -> contains n (hay ++ s) = true.
Proof.
  revert n. induction hay as [|a hay IH]; intros n H.
  - destruct n; simpl in H; [|discriminate]. now destruct s.
  - simpl in H. apply orb_true_iff in H as [H | H].
    + apply contains_prefix. clear IH. revert a hay H.
      induction n as [|b n IHn]; intros a hay H; [reflexivity|].
      simpl in *. destruct (ascii_dec b a); [|discriminate].
      destruct hay as [|a' hay]; simpl.
      * destruct n; [now destruct s | discriminate].
      * now apply IHn.
    + simpl. rewrite (IH n H). apply orb_true_r.
Qed.

Lemma Qltb_lt (a b : Q) : Polars.Qltb a b = true <-> (a < b)%Q.
Proof.
  unfold Polars.Qltb. rewrite negb_true_iff. split; intros H.
  - apply Qnot_le_lt. intros Hle. apply Qle_bool_iff in Hle. congruence.
  - destruct (Qle_bool b a) eqn:E; [|reflexivity].
    apply Qle_bool_iff in E. exfalso. exact (Qlt_not_le _ _ H E).
Qed.

Lemma violation_true (j : Validators.joined_row) :
  Polars.is_true (Validators.violation j) = true <->
  exists tl pl : Q,
    Validators.tree_cover_loss_ha j = Some tl
    /\ Validators.primary_forest_loss_ha j = Some pl
    /\ (tl < pl)%Q.
Proof.
  unfold Validators.violation, Validators.gt3.
  destruct (Validators.primary_forest_loss_ha j) as [pl|],
           (Validators.tree_cover_loss_ha j) as [tl|]; simpl.
  - destruct (Polars.Qltb tl pl) eqn:E; simpl.
    + split; [intros _ | trivial]. exists tl, pl. repeat split. now apply Qltb_lt.
    + split; [discriminate|]. intros (tl' & pl' & [= <-] & [= <-] & H).
      apply Qltb_lt in H. congruence.
  - split; [discriminate | intros (? & ? & H & _); discriminate].
  - split; [discriminate | intros (? & ? & _ & H & _); discriminate].
  - split; [discriminate | intros (? & ? & H & _); discriminate].
Qed.

Lemma threshold_is_30_true (t : Validators.tree_cover_row) :
  Polars.is_true (Validators.threshold_is_30 t) = true <-> Validators.tc_threshold t = Some 30.
Proof.
  unfold Validators.threshold_is_30. destruct (Validators.tc_threshold t) as [z|]; simpl.
  - destruct (Z.eqb z 30) eqn:E.
    + apply Z.eqb_eq in E. subst. tauto.
    + apply Z.eqb_neq in E. split; [discriminate | intros [= ->]; congruence].
  - split; discriminate.
Qed.

(** The violating rows are exactly the joined pairs whose primary-forest
    loss is strictly above the tree-cover loss. *)
Lemma violations_exist (tree_cover_df : list Validators.tree_cover_row)
    (primary_forest_df : list Validators.primary_forest_row) :
  (exists j,
      In j (filter (fun j => Polars.is_true (Validators.violation j))
              (Validators.inner_join
                 (filter (fun t => Polars.is_true (Validators.threshold_is_30 t))
                    tree_cover_df)
                 primary_forest_df)))
  <-> exists t p,
        Spec.joined_pair tree_cover_df primary_forest_df t p /\ Spec.primary_exceeds t p.
Proof.
  unfold Validators.inner_join, Spec.joined_pair, Spec.primary_exceeds. split.
  - intros (j & Hj). apply filter_In in Hj as [Hj Hv].
    apply in_flat_map in Hj as (t & Ht & Hj).
    apply filter_In in Ht as [Ht H30]. apply in_map_iff in Hj as (p & <- & Hp).
    apply filter_In in Hp as [Hp Hk]. apply violation_true in Hv. simpl in Hv.
    exists t, p. repeat split; trivial. now apply threshold_is_30_true.
  - intros (t & p & (Ht & Hp & H30 & Hk) & Hex).
    eexists. apply filter_In. split.
    + apply in_flat_map. exists t. split.
      * apply filter_In. split; [exact Ht | now apply threshold_is_30_true].
      * apply in_map_iff. exists p. split; [reflexivity|].
        apply filter_In. split; assumption.
    + apply violation_true. simpl. exact Hex.
Qed.

Lemma length_positive_exists {A : Type} (l : list A) :
  (0 <? List.length l)%nat = true <-> exists a, In a l.
Proof.
  destruct l as [|a l]; simpl; split.
  - discriminate.
  - intros (a & []).
  - intros _. exists a. now left.
  - reflexivity.
Qed.

Lemma severity_error_iff (tree_cover_df : list Validators.tree_cover_row)
    (primary_forest_df : list Validators.primary_forest_row) :
  Validators.severity (Validators.validate_relationships tree_cover_df primary_forest_df)
  = "error"
  <-> exists t p,
        Spec.joined_pair tree_cover_df primary_forest_df t p /\ Spec.primary_exceeds t p.
Proof.
  rewrite <- violations_exist, <- length_positive_exists.
  unfold Validators.validate_relationships.
  destruct (0 <? List.length _)%nat; simpl; split; trivial; discriminate.
Qed.

(** C3, as the code has it.  [validate_relationships] joins the
    tree-cover rows at threshold 30 with the primary-forest rows on
    (country, year).  It returns an error-severity result exactly when
    some joined pair has both losses present and the primary-forest loss
    strictly above the tree-cover loss, by any amount: there is no
    tolerance.  An error-severity result has [passed = False] and a
    message containing "exceeds total forest loss"; every other result
    has [passed = True] and severity "info".  For tree-cover loss 100 and
    primary-forest loss 200 the result is the error
    "Found 1 cases where primary forest loss exceeds total forest loss". *)
Theorem validate_relationships_strict
    (tree_cover_df : list Validators.tree_cover_row)
    (primary_forest_df : list Validators.primary_forest_row) :
  let r := Validators.validate_relationships tree_cover_df primary_forest_df in
  (Validators.severity r = "error"
   <-> exists t p,
         Spec.joined_pair tree_cover_df primary_forest_df t p /\ Spec.primary_exceeds t p)
  /\ (Validators.severity r = "error" ->
      Validators.passed r = false
      /\ contains "exceeds total forest loss" (Validators.message r) = true)
  /\ (Validators.severity r <> "error" ->
      Validators.passed r = true /\ Validators.severity r = "info")
  /\ Validators.validate_relationships Spec.sample_tree_cover Spec.sample_primary_200
     = Validators.mkValidationResult false
         "Found 1 cases where primary forest loss exceeds total forest loss"
         "error" (Some [("violation_count", PInt 1)]).
Proof.
  intros r. split; [apply severity_error_iff|].
  subst r. unfold Validators.validate_relationships.
  destruct (0 <? List.length _)%nat; simpl.
  - split; [|split; [congruence | reflexivity]].
    intros _. split; [reflexivity|].
    apply contains_app_r. reflexivity.
  - split; [discriminate|]. split; [tauto | reflexivity].
Qed.

(** The theorem at the frames with tree-cover loss 100 and primary-forest
    loss 200: the pair is joined, it exceeds, and the result is an error. *)
Lemma validate_relationships_strict_witness :
  (exists t p,
      Spec.joined_pair Spec.sample_tree_cover Spec.sample_primary_200 t p
      /\ Spec.primary_exceeds t p)
  /\ Validators.passed
       (Validators.validate_relationships Spec.sample_tree_cover Spec.sample_primary_200)
     = false
  /\ contains "exceeds total forest loss"
       (Validators.message
          (Validators.validate_relationships Spec.sample_tree_cover Spec.sample_primary_200))
     = true.
Proof.
  destruct (validate_relationships_strict Spec.sample_tree_cover Spec.sample_primary_200)
    as (Hiff & Herr & _).
  split.
  - apply Hiff. reflexivity.
  - apply Herr. reflexivity.
Defined.

(** C3, as the claim states it, fails: a primary-forest loss of 150 ha
    against a tree-cover loss of 100 ha exceeds it by 50 ha, which is at
    most 100 ha, and the result is an error all the same. *)
Lemma validate_relationships_no_tolerance :
  (forall t p,
      Spec.joined_pair Spec.sample_tree_cover Spec.sample_primary_150 t p ->
      exists tl pl : Q,
        Validators.tc_tree_cover_loss_ha t = Some tl
        /\ Validators.pf_primary_forest_loss_ha p = Some pl
        /\ (pl - tl <= 100)%Q)
  /\ Validators.severity
       (Validators.validate_relationships Spec.sample_tree_cover Spec.sample_primary_150)
     = "error".
Proof.
  split; [|reflexivity].
  intros t p (Ht & Hp & _).
  destruct Ht as [<- | []]. destruct Hp as [<- | []].
  exists (100 # 1), (150 # 1). repeat split. discriminate.
Qed.

(** ** Frames and columns *)

Lemma has_column_get (name : string) (df : Polars.DataFrame) :
  Polars.has_column name df = true <-> exists s, Polars.get_column name df = Some s.
Proof.
  unfold Polars.has_column, Polars.columns.
  induction df as [|[n s0] rest IH]; simpl.
  - split; [discriminate | intros (s & H); discriminate].
  - destruct (String.eqb name n); simpl; [|exact IH].
    split; [intros _; now exists s0 | reflexivity].
Qed.

Lemma has_column_false_get (name : string) (df : Polars.DataFrame) :
  Polars.has_column name df = false <-> Polars.get_column name df = None.
Proof.
  split; intros H.
  - destruct (Polars.get_column name df) as [s|] eqn:E; [|reflexivity].
    assert (Polars.has_column name df = true) by (apply has_column_get; now exists s).
    congruence.
  - destruct (Polars.has_column name df) eqn:E; [|reflexivity].
    apply has_column_get in E as (s & E). congruence.
Qed.

Lemma get_with_column (c col : string) (s : Polars.series) (df : Polars.DataFrame) :
  Polars.get_column c (Polars.with_column col s df) =
  if String.eqb c col then Some s else Polars.get_column c df.
Proof.
  induction df as [|[n s0] rest IH]; simpl.
  - destruct (String.eqb c col); reflexivity.
  - destruct (String.eqb col n) eqn:E; simpl.
    + apply String.eqb_eq in E. subst n. destruct (String.eqb c col); reflexivity.
    + destruct (String.eqb c n) eqn:Ec; [|exact IH].
      apply String.eqb_eq in Ec. subst n.
      rewrite String.eqb_sym, E. reflexivity.
Qed.

Lemma columns_with_column (col : string) (s : Polars.series) (df : Polars.DataFrame) :
  Polars.has_column col df = true ->
  Polars.columns (Polars.with_column col s df) = Polars.columns df.
Proof.
  unfold Polars.has_column, Polars.columns.
  induction df as [|[n s0] rest IH]; simpl; [discriminate|].
  destruct (String.eqb col n); simpl; [reflexivity|].
  intros H. now rewrite IH.
Qed.

(** ** Negative values *)

Lemma fix_series_idempotent (s : Polars.series) :
  Spec.fix_series (Spec.fix_series s) = Spec.fix_series s.
Proof.
  destruct s as [vals | vals | vals]; simpl; [| |reflexivity]; f_equal;
    rewrite map_map; apply map_ext; intros [v|]; simpl; trivial.
  - destruct (Z.ltb v 0) eqn:E; simpl; [reflexivity | now rewrite E].
  - destruct (Polars.Qltb v 0) eqn:E; simpl; [reflexivity | now rewrite E].
Qed.

Lemma fix_series_string (s : Polars.series) (vals : list (option string)) :
  Spec.fix_series s = Polars.StrSeries vals -> s = Polars.StrSeries vals.
Proof.
  destruct s; simpl; congruence.
Qed.

Lemma null_where_int (vals : list (option Z)) :
  Polars.when_then_otherwise (map (option_map (fun z => Z.ltb z 0)) vals)
    (map (fun _ => None) vals) vals
  = map Spec.fix_cell_int vals.
Proof.
  unfold Polars.when_then_otherwise.
  induction vals as [|[z|] vals IH]; simpl; [reflexivity| |]; rewrite IH; [|reflexivity].
  destruct (Z.ltb z 0); reflexivity.
Qed.

Lemma null_where_float (vals : list (option Q)) :
  Polars.when_then_otherwise
    (map (option_map (fun q => Polars.Qltb q (inject_Z 0))) vals)
    (map (fun _ => None) vals) vals
  = map Spec.fix_cell_float vals.
Proof.
  unfold Polars.when_then_otherwise.
  induction vals as [|[q|] vals IH]; simpl; [reflexivity| |]; rewrite IH; [|reflexivity].
  change (inject_Z 0) with 0%Q. destruct (Polars.Qltb q 0); reflexivity.
Qed.

Lemma null_where_fix (s : Polars.series) (negative : Polars.mask) :
  Polars.lt_lit s 0 = Ok negative -> Polars.null_where negative s = Spec.fix_series s.
Proof.
  destruct s as [vals | vals | vals]; simpl; intros [= <-]; f_equal.
  - apply null_where_int.
  - apply null_where_float.
Qed.

Lemma no_negative_int (vals : list (option Z)) :
  Polars.filter_height
    (Polars.mask_and (map (option_map (fun z => Z.ltb z 0)) vals)
       (map (fun c => Some (negb (Polars.is_null c))) vals)) = O ->
  map Spec.fix_cell_int vals = vals.
Proof.
  unfold Polars.filter_height, Polars.mask_and.
  induction vals as [|[z|] vals IH]; simpl; [reflexivity| |].
  - destruct (Z.ltb z 0); simpl; [discriminate|]. intros H. now rewrite IH.
  - intros H. now rewrite IH.
Qed.

Lemma no_negative_float (vals : list (option Q)) :
  Polars.filter_height
    (Polars.mask_and (map (option_map (fun q => Polars.Qltb q (inject_Z 0))) vals)
       (map (fun c => Some (negb (Polars.is_null c))) vals)) = O ->
  map Spec.fix_cell_float vals = vals.
Proof.
  unfold Polars.filter_height, Polars.mask_and.
  induction vals as [|[q|] vals IH]; simpl; [reflexivity| |].
  - change (inject_Z 0) with 0%Q.
    destruct (Polars.Qltb q 0); simpl; [discriminate|]. intros H. now rewrite IH.
  - intros H. now rewrite IH.
Qed.

Lemma no_negative_fix (s : Polars.series) (negative : Polars.mask) :
  Polars.lt_lit s 0 = Ok negative ->
  Polars.filter_height (Polars.mask_and negative (Polars.is_not_null s)) = O ->
  Spec.fix_series s = s.
Proof.
  destruct s as [vals | vals | vals]; simpl; intros [= <-] H; f_equal.
  - now apply no_negative_int.
  - now apply no_negative_float.
Qed.

Lemma lt_lit_raises (s : Polars.series) (e : exn) :
  Polars.lt_lit s 0 = Raise e -> exists vals, s = Polars.StrSeries vals.
Proof.
  destruct s as [vals | vals | vals]; simpl; try discriminate. intros _. now exists vals.
Qed.

Lemma repaired_nil (df : Polars.DataFrame) : Spec.repaired [] df df.
Proof.
  split; [reflexivity | intros c; reflexivity].
Qed.

Lemma repaired_cons_skip (col : string) (rest : list string) (df df' : Polars.DataFrame) :
  Polars.get_column col df = None \/ Spec.may_be_negative col = true ->
  Spec.repaired rest df df' -> Spec.repaired (col :: rest) df df'.
Proof.
  intros Hskip [Hcols Hget]. split; [exact Hcols|].
  intros c. rewrite Hget. unfold Spec.targeted. simpl.
  destruct (String.eqb c col) eqn:E; simpl; [|reflexivity].
  apply String.eqb_eq in E. subst c.
  destruct Hskip as [Hnone | Hneg].
  - rewrite Hnone. simpl. now destruct (_ && _)%bool, (negb _).
  - rewrite Hneg. simpl. now rewrite andb_false_r.
Qed.

Lemma repaired_cons_fix (col : string) (rest : list string) (s : Polars.series)
    (df df1 df' : Polars.DataFrame) :
  Polars.get_column col df = Some s ->
  Spec.may_be_negative col = false ->
  Polars.columns df1 = Polars.columns df ->
  (forall c, Polars.get_column c df1 =
             if String.eqb c col then Some (Spec.fix_series s) else Polars.get_column c df) ->
  Spec.repaired rest df1 df' -> Spec.repaired (col :: rest) df df'.
Proof.
  intros Hs Hneg Hcols1 Hget1 [Hcols Hget]. split; [congruence|].
  intros c. rewrite Hget, Hget1. unfold Spec.targeted. simpl.
  destruct (String.eqb c col) eqn:E; simpl; [|reflexivity].
  apply String.eqb_eq in E. subst c. rewrite Hneg, Hs. simpl.
  rewrite fix_series_idempotent. now destruct (existsb _ _).
Qed.

Lemma blocked_cons (col : string) (rest : list string) (df : Polars.DataFrame) :
  Spec.blocked rest df -> Spec.blocked (col :: rest) df.
Proof.
  intros (c & vals & Hin & Hneg & Hget). exists c, vals. repeat split; trivial. now right.
Qed.

Lemma blocked_cons_fix (col : string) (rest : list string) (s : Polars.series)
    (df df1 : Polars.DataFrame) :
  Polars.get_column col df = Some s ->
  (forall c, Polars.get_column c df1 =
             if String.eqb c col then Some (Spec.fix_series s) else Polars.get_column c df) ->
  Spec.blocked rest df1 -> Spec.blocked (col :: rest) df.
Proof.
  intros Hs Hget1 (c & vals & Hin & Hneg & Hget).
  exists c, vals. repeat split; trivial; [now right|].
  rewrite Hget1 in Hget. destruct (String.eqb c col) eqn:E; [|exact Hget].
  apply String.eqb_eq in E. subst c. injection Hget as Hget.
  apply fix_series_string in Hget. congruence.
Qed.

(** The loop, from any frame and any count: it ends with the targeted
    columns repaired, or it raises because a targeted column holds
    strings. *)
Lemma fix_negative_loop_spec (columns : list string) :
  forall (df : Polars.DataFrame) (negative_count : Z),
    match DataCleaner.fix_negative_loop columns df negative_count with
    | Ok (df', _) => Spec.repaired columns df df'
    | Raise _ => Spec.blocked columns df
    end.
Proof.
  induction columns as [|col rest IH]; intros df n; simpl; [apply repaired_nil|].
  destruct (Polars.has_column col df) eqn:Hhas; simpl.
  - fold (Spec.may_be_negative col).
    destruct (Spec.may_be_negative col) eqn:Hneg.
    + specialize (IH df n). destruct (DataCleaner.fix_negative_loop rest df n) as [[df' n']|e].
      * apply repaired_cons_skip; auto.
      * now apply blocked_cons.
    + apply has_column_get in Hhas as (s & Hs). rewrite Hs.
      destruct (Polars.lt_lit s 0) as [negative|e] eqn:Hlt; simpl.
      * destruct (0 <? Polars.filter_height _)%nat eqn:Hcount.
        -- rewrite (null_where_fix _ _ Hlt).
           match goal with |- context [DataCleaner.fix_negative_loop rest ?d ?m] =>
             specialize (IH d m); destruct (DataCleaner.fix_negative_loop rest d m)
               as [[df' n']|e'] end.
           ++ apply (repaired_cons_fix col rest s df
                       (Polars.with_column col (Spec.fix_series s) df) df' Hs Hneg);
                [| |exact IH].
              ** apply columns_with_column. apply has_column_get. now exists s.
              ** intros c. apply get_with_column.
           ++ apply (blocked_cons_fix col rest s df
                       (Polars.with_column col (Spec.fix_series s) df) Hs); [|exact IH].
              intros c. apply get_with_column.
        -- apply Nat.ltb_ge in Hcount. apply Nat.le_0_r in Hcount.
           pose proof (no_negative_fix _ _ Hlt Hcount) as Hfix.
           specialize (IH df n).
           destruct (DataCleaner.fix_negative_loop rest df n) as [[df' n']|e'].
           ++ apply (repaired_cons_fix col rest s df df df' Hs Hneg eq_refl); [|exact IH].
              intros c. destruct (String.eqb c col) eqn:E; [|reflexivity].
              apply String.eqb_eq in E. subst c. now rewrite Hfix.
           ++ apply (blocked_cons_fix col rest s df df Hs); [|exact IH].
              intros c. destruct (String.eqb c col) eqn:E; [|reflexivity].
              apply String.eqb_eq in E. subst c. now rewrite Hfix.
      * destruct (lt_lit_raises _ _ Hlt) as (vals & ->).
        exists col, vals. repeat split; trivial. now left.
  - apply has_column_false_get in Hhas.
    specialize (IH df n). destruct (DataCleaner.fix_negative_loop rest df n) as [[df' n']|e].
    + apply repaired_cons_skip; auto.
    + now apply blocked_cons.
Qed.

(** C4.  [fix_negative_values], for every frame and every list of
    column names.  When it returns, the frame has the same columns, and
    each column is as follows: a column that is named, present and whose
    name contains neither [net_flux] nor [removals] has every negative
    non-null value replaced by null and every other cell, null or not,
    unchanged; every other column, in particular every column whose name
    contains [net_flux] or [removals], is unchanged.  It returns on every
    frame whose repaired columns are numeric and raises only when a
    column to repair holds strings.  On the frame of the unit test the
    value -50 becomes null in [tree_cover_loss_ha] and is preserved in
    [carbon_net_flux_annual_avg]. *)
Theorem fix_negative_values_spec
    (self : DataCleaner.cleaning_stats) (df : Polars.DataFrame) (columns : list string) :
  match DataCleaner.fix_negative_values self df columns with
  | Ok (df', _) => Spec.repaired columns df df'
  | Raise _ => Spec.blocked columns df
  end
  /\ (forall col, Spec.may_be_negative col = true -> Spec.targeted columns col = false)
  /\ DataCleaner.fix_negative_values DataCleaner.init_stats Spec.sample_negative_frame
       ["tree_cover_loss_ha"; "carbon_net_flux_annual_avg"]
     = Ok ([ ("tree_cover_loss_ha", Polars.IntSeries [Some 100; None; Some 200]);
             ("carbon_net_flux_annual_avg",
              Polars.IntSeries [Some 100; Some (-50); Some 200]) ],
           DataCleaner.mkStats 0 1 0 0).
Proof.
  split; [|split; [|reflexivity]].
  - unfold DataCleaner.fix_negative_values, bind.
    pose proof (fix_negative_loop_spec columns df 0) as H.
    destruct (DataCleaner.fix_negative_loop columns df 0) as [[df' n]|e]; exact H.
  - intros col H. unfold Spec.targeted. rewrite H. apply andb_false_r.
Qed.

(** The theorem at a column whose name contains [removals]. *)
Lemma fix_negative_values_spec_witness :
  Spec.may_be_negative "carbon_removals_annual_avg" = true
  /\ Spec.targeted ["carbon_removals_annual_avg"] "carbon_removals_annual_avg" = false.
Proof.
  split; [reflexivity|].
  destruct (fix_negative_values_spec DataCleaner.init_stats Spec.sample_negative_frame
              ["carbon_removals_annual_avg"]) as (_ & Hexempt & _).
  apply Hexempt. reflexivity.
Defined.

(** ** Country names *)

(** The sequential replacements on one name. *)
Lemma apply_mappings_map (mappings : list (string * string)) :
  forall vals : list (option string),
    DataCleaner.apply_mappings mappings vals =
    map (option_map (fun name =>
           fold_left (fun s entry => if String.eqb s (fst entry) then snd entry else s)
             mappings name)) vals.
Proof.
  induction mappings as [|[old_name new_name] rest IH]; intros vals; simpl.
  - rewrite <- (map_id vals) at 1. apply map_ext. now intros [v|].
  - rewrite IH, map_map. apply map_ext. now intros [v|].
Qed.

Lemma fold_not_key (mappings : list (string * string)) (name : string) :
  existsb (fun entry => String.eqb name (fst entry)) mappings = false ->
  fold_left (fun s entry => if String.eqb s (fst entry) then snd entry else s)
    mappings name = name.
Proof.
  induction mappings as [|[k t] rest IH]; simpl; [reflexivity|].
  intros H. apply orb_false_iff in H as [Hk Hrest]. rewrite Hk. now apply IH.
Qed.

(** When no standard name of the table is itself an alias, the
    sequential replacements amount to one lookup. *)
Lemma fold_is_lookup (mappings : list (string * string)) (name : string) :
  forallb (fun entry =>
             negb (existsb (fun e => String.eqb (snd entry) (fst e)) mappings))
          mappings = true ->
  fold_left (fun s entry => if String.eqb s (fst entry) then snd entry else s)
    mappings name
  = match find (fun entry => String.eqb name (fst entry)) mappings with
    | Some entry => snd entry
    | None => name
    end.
Proof.
  induction mappings as [|[k t] rest IH]; simpl; [reflexivity|].
  intros H. apply andb_true_iff in H as [Ht Hrest].
  apply negb_true_iff, orb_false_iff in Ht as [_ Ht].
  assert (Hrest' : forallb (fun entry =>
             negb (existsb (fun e => String.eqb (snd entry) (fst e)) rest)) rest = true).
  { rewrite forallb_forall in *. intros e He. specialize (Hrest e He).
    apply negb_true_iff in Hrest. simpl in Hrest.
    apply orb_false_iff in Hrest as [_ Hrest]. now rewrite Hrest. }
  destruct (String.eqb name k); [now apply fold_not_key | now apply IH].
Qed.

Lemma apply_mappings_alias (vals : list (option string)) :
  map (option_map Polars.strip_chars)
    (DataCleaner.apply_mappings DataCleaner.country_mappings vals)
  = map Spec.normalize_cell vals.
Proof.
  rewrite apply_mappings_map, map_map. apply map_ext. intros [name|]; [|reflexivity].
  unfold Spec.normalize_cell, Spec.alias. cbn [option_map].
  rewrite fold_is_lookup by reflexivity. reflexivity.
Qed.

Lemma alias_cases (name : string) :
  Spec.alias name = name \/ In (Spec.alias name) (map snd DataCleaner.country_mappings).
Proof.
  unfold Spec.alias.
  destruct (find _ DataCleaner.country_mappings) as [entry|] eqn:E; [right | now left].
  apply find_some in E as [Hin _]. now apply in_map.
Qed.

(** Every standard name of the table is trimmed and is no alias. *)
Lemma standard_names_stable (name : string) :
  In name (map snd DataCleaner.country_mappings) ->
  Polars.strip_chars name = name /\ Spec.alias name = name.
Proof.
  intros H.
  assert (Hall : forallb (fun t => String.eqb (Polars.strip_chars t) t
                                   && String.eqb (Spec.alias t) t)%bool
                   (map snd DataCleaner.country_mappings) = true) by reflexivity.
  rewrite forallb_forall in Hall. specialize (Hall name H).
  apply andb_true_iff in Hall as [H1 H2]. split; now apply String.eqb_eq.
Qed.

Lemma rstrip_idempotent (s : string) : Polars.rstrip (Polars.rstrip s) = Polars.rstrip s.
Proof.
  induction s as [|a s IH]; [reflexivity|].
  cbn [Polars.rstrip]. destruct (Polars.rstrip s) as [|b kept] eqn:E.
  - destruct (Polars.is_whitespace a) eqn:Ha; [reflexivity|].
    cbn [Polars.rstrip]. now rewrite Ha.
  - cbn [Polars.rstrip]. cbn [Polars.rstrip] in IH. now rewrite IH.
Qed.

Lemma lstrip_head (s : string) :
  Polars.lstrip s = EmptyString
  \/ exists a r, Polars.lstrip s = String a r /\ Polars.is_whitespace a = false.
Proof.
  induction s as [|a s IH]; [now left|]. simpl.
  destruct (Polars.is_whitespace a) eqn:Ha; [exact IH|]. right. now exists a, s.
Qed.

Lemma strip_chars_idempotent (s : string) :
  Polars.strip_chars (Polars.strip_chars s) = Polars.strip_chars s.
Proof.
  unfold Polars.strip_chars.
  assert (H : Polars.lstrip (Polars.rstrip (Polars.lstrip s))
              = Polars.rstrip (Polars.lstrip s)).
  { destruct (lstrip_head s) as [-> | (a & r & -> & Ha)]; [reflexivity|].
    cbn [Polars.rstrip]. destruct (Polars.rstrip r); rewrite ?Ha; simpl; now rewrite Ha. }
  rewrite H. apply rstrip_idempotent.
Qed.

Lemma alias_of_non_alias (name : string) :
  Spec.is_alias name = false -> Spec.alias name = name.
Proof.
  unfold Spec.is_alias, Spec.alias. intros H.
  destruct (find _ DataCleaner.country_mappings) as [entry|] eqn:E; [|reflexivity].
  apply find_some in E as [Hin Heq].
  assert (Hex : existsb (fun entry => String.eqb name (fst entry))
                  DataCleaner.country_mappings = true)
    by (apply existsb_exists; now exists entry).
  congruence.
Qed.

Lemma alias_of_alias (name : string) :
  Spec.is_alias name = true -> In (Spec.alias name) (map snd DataCleaner.country_mappings).
Proof.
  intros H. unfold Spec.is_alias in H. apply existsb_exists in H as (entry & Hin & Hkey).
  unfold Spec.alias.
  destruct (find _ DataCleaner.country_mappings) as [found|] eqn:E.
  - apply find_some in E as [Hfound _]. now apply in_map.
  - exfalso. apply (find_none _ _ E) in Hin. congruence.
Qed.

(** No standard name of the table is an alias. *)
Lemma standard_names_no_alias (name : string) :
  In name (map snd DataCleaner.country_mappings) -> Spec.is_alias name = false.
Proof.
  intros H.
  assert (Hall : forallb (fun t => negb (Spec.is_alias t))
                   (map snd DataCleaner.country_mappings) = true) by reflexivity.
  rewrite forallb_forall in Hall. specialize (Hall name H).
  now apply negb_true_iff.
Qed.

(** One name: normalising twice gives what normalising once gives,
    except on an alias between white space. *)
Lemma normalize_twice (name : string) :
  Spec.normalize_cell (Spec.normalize_cell (Some name)) = Spec.normalize_cell (Some name)
  <-> Spec.padded_alias name = false.
Proof.
  unfold Spec.normalize_cell, Spec.padded_alias. cbn [option_map].
  destruct (Spec.is_alias name) eqn:Hname; cbn [negb andb].
  - split; [reflexivity|]. intros _. f_equal.
    destruct (standard_names_stable _ (alias_of_alias _ Hname)) as [Hs Ha].
    now rewrite Hs, Ha, Hs.
  - rewrite (alias_of_non_alias _ Hname).
    destruct (Spec.is_alias (Polars.strip_chars name)) eqn:Htrim.
    + split; [|discriminate]. intros [= H]. exfalso.
      pose proof (alias_of_alias _ Htrim) as Hstd.
      destruct (standard_names_stable _ Hstd) as [Hs _]. rewrite Hs in H.
      apply standard_names_no_alias in Hstd. rewrite H in Hstd. congruence.
    + split; [reflexivity|]. intros _. f_equal.
      rewrite (alias_of_non_alias _ Htrim). apply strip_chars_idempotent.
Qed.

Lemma normalize_cells_twice (vals : list (option string)) :
  map Spec.normalize_cell (map Spec.normalize_cell vals) = map Spec.normalize_cell vals
  <-> Spec.no_padded_alias vals.
Proof.
  rewrite map_map, map_ext_in_iff. unfold Spec.no_padded_alias. split.
  - intros H name Hin. apply normalize_twice. now apply (H (Some name)).
  - intros H [name|] Hin; [|reflexivity]. apply normalize_twice. now apply H.
Qed.

Lemma trimmed_no_padded_alias (vals : list (option string)) :
  Spec.trimmed vals -> Spec.no_padded_alias vals.
Proof.
  intros Htrim name Hin. unfold Spec.padded_alias. rewrite (Htrim name Hin).
  now destruct (Spec.is_alias name).
Qed.

Lemma with_column_twice (col : string) (s1 s2 : Polars.series) (df : Polars.DataFrame) :
  Polars.with_column col s2 (Polars.with_column col s1 df) = Polars.with_column col s2 df.
Proof.
  induction df as [|[n s0] rest IH]; simpl.
  - now rewrite String.eqb_refl.
  - destruct (String.eqb col n) eqn:E; simpl; rewrite E; [reflexivity | now rewrite IH].
Qed.

(** What one call returns on a frame with a string country column. *)
Lemma clean_country_names_result (self : DataCleaner.cleaning_stats)
    (df : Polars.DataFrame) (vals : list (option string)) :
  Polars.get_column "country" df = Some (Polars.StrSeries vals) ->
  exists stats,
    DataCleaner.clean_country_names self df
    = Ok (Polars.with_column "country"
            (Polars.StrSeries (map Spec.normalize_cell vals)) df, stats).
Proof.
  intros Hget. unfold DataCleaner.clean_country_names.
  assert (Hhas : Polars.has_column "country" df = true)
    by (apply has_column_get; eauto).
  rewrite Hhas, Hget. simpl negb. cbv iota.
  rewrite apply_mappings_alias. eexists. reflexivity.
Qed.

(** C5, as the code has it.  On a frame with a string [country] column,
    [clean_country_names] replaces every country cell by its
    normalisation: the alias table is looked up by exact match, then the
    surrounding white space is trimmed.  A second application returns the
    frame of the first exactly when no country value is an alias between
    white space, that is a value that is no alias itself and becomes one
    by trimming: the operation is idempotent on every other frame, padded
    names that are no aliases and frames of trimmed values included.  The
    values "USA", "US" and "United States of America" are all normalised
    to "United States". *)
Theorem clean_country_names_idempotent_iff_no_padded_alias
    (self : DataCleaner.cleaning_stats) (df : Polars.DataFrame)
    (vals : list (option string)) :
  Polars.get_column "country" df = Some (Polars.StrSeries vals) ->
  (exists stats,
      DataCleaner.clean_country_names self df
      = Ok (Polars.with_column "country"
              (Polars.StrSeries (map Spec.normalize_cell vals)) df, stats))
  /\ (exists df1 stats1 df2 stats2,
        DataCleaner.clean_country_names self df = Ok (df1, stats1)
        /\ DataCleaner.clean_country_names stats1 df1 = Ok (df2, stats2)
        /\ (df2 = df1 <-> Spec.no_padded_alias vals))
  /\ (Spec.trimmed vals -> Spec.no_padded_alias vals)
  /\ Spec.normalize_cell (Some "USA") = Some "United States"
  /\ Spec.normalize_cell (Some "US") = Some "United States"
  /\ Spec.normalize_cell (Some "United States of America") = Some "United States".
Proof.
  intros Hget. split; [now apply clean_country_names_result|].
  split; [|split; [apply trimmed_no_padded_alias | repeat split; reflexivity]].
  destruct (clean_country_names_result self df vals Hget) as (stats1 & H1).
  set (df1 := Polars.with_column "country"
                (Polars.StrSeries (map Spec.normalize_cell vals)) df) in *.
  assert (Hget1 : Polars.get_column "country" df1
                  = Some (Polars.StrSeries (map Spec.normalize_cell vals))).
  { unfold df1. rewrite get_with_column. reflexivity. }
  destruct (clean_country_names_result stats1 df1 _ Hget1) as (stats2 & H2).
  exists df1, stats1. eexists. exists stats2.
  split; [exact H1|]. split; [exact H2|].
  rewrite <- normalize_cells_twice. unfold df1. rewrite with_column_twice. split.
  - intros H.
    assert (Hcol : Polars.get_column "country"
                     (Polars.with_column "country"
                        (Polars.StrSeries
                           (map Spec.normalize_cell (map Spec.normalize_cell vals))) df)
                   = Polars.get_column "country"
                       (Polars.with_column "country"
                          (Polars.StrSeries (map Spec.normalize_cell vals)) df))
      by now rewrite H.
    rewrite !get_with_column in Hcol. simpl in Hcol. congruence.
  - intros ->. reflexivity.
Qed.

(** The theorem at a frame with a padded name that is no alias, an
    alias and a null: a second application changes nothing. *)
Lemma clean_country_names_idempotent_iff_no_padded_alias_witness :
  DataCleaner.clean_country_names DataCleaner.init_stats Spec.sample_padded_names
  = Ok ([("country", Polars.StrSeries [Some "Canada"; Some "United States"; None])],
        DataCleaner.init_stats)
  /\ DataCleaner.clean_country_names DataCleaner.init_stats
       [("country", Polars.StrSeries [Some "Canada"; Some "United States"; None])]
     = Ok ([("country", Polars.StrSeries [Some "Canada"; Some "United States"; None])],
           DataCleaner.init_stats)
  /\ Spec.no_padded_alias [Some "  Canada  "; Some "USA"; None].
Proof.
  destruct (clean_country_names_idempotent_iff_no_padded_alias DataCleaner.init_stats
              Spec.sample_padded_names [Some "  Canada  "; Some "USA"; None] eq_refl)
    as (_ & (df1 & stats1 & df2 & stats2 & H1 & H2 & Hiff) & _).
  repeat split; try reflexivity.
  intros name [H | [H | [H | []]]]; try discriminate; injection H as <-; reflexivity.
Defined.

(** C5, as the claim states it, fails: on the country value " USA " the
    first application only trims, because the padded value is no alias,
    and the second application then replaces "USA" by "United States". *)
Lemma clean_country_names_not_idempotent :
  DataCleaner.clean_country_names DataCleaner.init_stats Spec.sample_padded_alias
  = Ok ([("country", Polars.StrSeries [Some "USA"])], DataCleaner.init_stats)
  /\ DataCleaner.clean_country_names DataCleaner.init_stats
       [("country", Polars.StrSeries [Some "USA"])]
     = Ok ([("country", Polars.StrSeries [Some "United States"])], DataCleaner.init_stats)
  /\ [("country", Polars.StrSeries [Some "United States"])]
     <> [("country", Polars.StrSeries [Some "USA"])].
Proof.
  repeat split; try reflexivity. discriminate.
Qed.

(** ** Thresholds *)

(** [min] with a key returns the first of the candidates whose key is
    least, for any key order that is total and transitive. *)
Section MinByProofs.

Variables A K : Type.
Variable le : K -> K -> Prop.
Variable ltb : K -> K -> bool.
Hypothesis le_trans : forall a b c, le a b -> le b c -> le a c.
Hypothesis le_total : forall a b, le a b \/ le b a.
Hypothesis ltb_true : forall a b, ltb a b = true -> ~ le b a.
Hypothesis ltb_false : forall a b, ltb a b = false -> le b a.

Variable key : A -> option K.

Let lek := Spec.le_key le.

Lemma le_key_trans (a b c : option K) : lek a b -> lek b c -> lek a c.
Proof.
  destruct a, b, c; simpl; trivial; try contradiction. apply le_trans.
Qed.

Lemma le_key_total (a b : option K) : lek a b \/ lek b a.
Proof.
  destruct a, b; simpl; auto.
Qed.

Lemma key_lt_true (a b : option K) : DataCleaner.key_lt ltb a b = true -> ~ lek b a.
Proof.
  destruct a, b; simpl; try discriminate; [apply ltb_true | tauto].
Qed.

Lemma key_lt_true_le (a b : option K) : DataCleaner.key_lt ltb a b = true -> lek a b.
Proof.
  intros H. apply key_lt_true in H. destruct (le_key_total a b); tauto.
Qed.

Lemma key_lt_false (a b : option K) : DataCleaner.key_lt ltb a b = false -> lek b a.
Proof.
  destruct a, b; simpl; trivial; [apply ltb_false | discriminate].
Qed.

(** The result is a candidate whose key no candidate goes below. *)
Lemma min_from_least (rest : list A) :
  forall best : A,
    let r := DataCleaner.min_from ltb key best rest in
    In r (best :: rest)
    /\ lek (key r) (key best)
    /\ forall v, In v rest -> lek (key r) (key v).
Proof.
  induction rest as [|v rest IH]; intros best; simpl.
  - repeat split; auto.
    + destruct (le_key_total (key best) (key best)); assumption.
    + intros v [].
  - destruct (DataCleaner.key_lt ltb (key v) (key best)) eqn:E.
    + destruct (IH v) as (Hin & Hle & Hall). repeat split.
      * right. exact Hin.
      * apply le_key_trans with (key v); [exact Hle | now apply key_lt_true_le].
      * intros w [<- | Hw]; [exact Hle | now apply Hall].
    + destruct (IH best) as (Hin & Hle & Hall). repeat split.
      * destruct Hin as [Hin | Hin]; [now left | right; now right].
      * exact Hle.
      * intros w [<- | Hw]; [|now apply Hall].
        apply le_key_trans with (key best); [exact Hle | now apply key_lt_false].
Qed.

(** The candidates listed before the result have a strictly greater
    key. *)
Lemma min_from_first (rest : list A) :
  forall best : A,
    let r := DataCleaner.min_from ltb key best rest in
    exists before after : list A,
      best :: rest = (before ++ r :: after)%list
      /\ forall v, In v before -> ~ lek (key v) (key r).
Proof.
  induction rest as [|v rest IH]; intros best; simpl.
  - exists [], []. split; [reflexivity | intros v []].
  - destruct (DataCleaner.key_lt ltb (key v) (key best)) eqn:E.
    + destruct (IH v) as (before & after & Heq & Hbefore).
      exists (best :: before), after. split; [simpl; f_equal; exact Heq|].
      intros w [<- | Hw]; [|now apply Hbefore].
      intros Hc. apply key_lt_true in E. apply E.
      apply le_key_trans with (key (DataCleaner.min_from ltb key v rest)); [exact Hc|].
      destruct (min_from_least rest v) as (_ & Hle & _). exact Hle.
    + destruct (IH best) as (before & after & Heq & Hbefore).
      destruct before as [|b before]; simpl in Heq.
      * injection Heq as Hr Hrest. exists [], (v :: after). split.
        -- simpl. f_equal; [exact Hr | f_equal; exact Hrest].
        -- intros w [].
      * injection Heq as Hb Hrest. subst b.
        exists (best :: v :: before), after. split; [simpl; do 2 f_equal; exact Hrest|].
        intros w [<- | [<- | Hw]].
        -- apply Hbefore. now left.
        -- intros Hc. apply (Hbefore best); [now left|].
           apply le_key_trans with (key v); [now apply key_lt_false | exact Hc].
        -- apply Hbefore. now right.
Qed.

End MinByProofs.

Lemma sorted_after (before after : list Z) (r : Z) :
  StronglySorted Z.le (before ++ r :: after) -> forall v, In v after -> r <= v.
Proof.
  induction before as [|b before IH]; simpl; intros H v Hv.
  - apply StronglySorted_inv in H as [_ H]. rewrite Forall_forall in H. now apply H.
  - apply StronglySorted_inv in H as [H _]. now apply IH.
Qed.

Lemma valid_thresholds_sorted : StronglySorted Z.le DataCleaner.valid_thresholds.
Proof.
  unfold DataCleaner.valid_thresholds.
  repeat (constructor; [|repeat constructor; lia]). constructor.
Qed.

(** The function mapped over the threshold column, on a value: the
    result is a canonical value, no canonical value is nearer, and among
    the canonical values at the same distance it is the lowest. *)
Lemma snap_int_nearest (x : Z) :
  let r := DataCleaner.snap_int (Some x) in
  In r DataCleaner.valid_thresholds
  /\ forall v, In v DataCleaner.valid_thresholds ->
       Z.abs (r - x) <= Z.abs (v - x)
       /\ (Z.abs (v - x) = Z.abs (r - x) -> r <= v).
Proof.
  set (key := fun v : Z => Some (Z.abs (v - x))).
  assert (Htrans : forall a b c : Z, a <= b -> b <= c -> a <= c) by (intros; lia).
  assert (Htotal : forall a b : Z, a <= b \/ b <= a) by (intros; lia).
  assert (Htrue : forall a b : Z, Z.ltb a b = true -> ~ b <= a)
    by (intros a b H; apply Z.ltb_lt in H; lia).
  assert (Hfalse : forall a b : Z, Z.ltb a b = false -> b <= a)
    by (intros a b H; apply Z.ltb_ge in H; lia).
  pose proof (min_from_least Z Z Z.le Z.ltb Htrans Htotal Htrue Hfalse key
                [10; 15; 20; 25; 30; 50; 75] 0) as Hleast.
  pose proof (min_from_first Z Z Z.le Z.ltb Htrans Htotal Htrue Hfalse key
                [10; 15; 20; 25; 30; 50; 75] 0) as Hfirst.
  change (DataCleaner.min_from Z.ltb key 0 [10; 15; 20; 25; 30; 50; 75])
    with (DataCleaner.snap_int (Some x)) in Hleast, Hfirst.
  cbv zeta in Hleast, Hfirst. intros r. fold r in Hleast, Hfirst.
  destruct Hleast as (Hin & Hbest & Hall).
  destruct Hfirst as (before & after & Heq & Hbefore).
  split; [exact Hin|]. intros v Hv.
  assert (Hle : Z.abs (r - x) <= Z.abs (v - x)).
  { destruct Hv as [<- | Hv]; [exact Hbest | exact (Hall v Hv)]. }
  split; [exact Hle|]. intros Htie.
  change (0 :: [10; 15; 20; 25; 30; 50; 75]) with DataCleaner.valid_thresholds in Heq.
  assert (Hv' : In v (before ++ r :: after)) by (rewrite <- Heq; exact Hv).
  apply in_app_or in Hv' as [Hv' | [Hv' | Hv']].
  - exfalso. apply (Hbefore v Hv'). simpl. lia.
  - lia.
  - apply (sorted_after before after r); [|exact Hv'].
    rewrite <- Heq. apply valid_thresholds_sorted.
Qed.


Lemma snap_column_int (vals : list (option Z)) :
  Polars.when_then_otherwise
    (Polars.mask_not (DataCleaner.is_in_int vals DataCleaner.valid_thresholds))
    (Polars.map_elements DataCleaner.snap_int vals) vals
  = map Spec.snap_cell vals.
Proof.
  unfold Polars.when_then_otherwise, Polars.mask_not, DataCleaner.is_in_int,
    Polars.map_elements, Spec.snap_cell, Spec.canonical.
  generalize DataCleaner.valid_thresholds as l. intros l.
  induction vals as [|[x|] vals IH]; simpl; [reflexivity| |]; rewrite IH; [|reflexivity].
  destruct (existsb _ l); reflexivity.
Qed.

Lemma snap_column_float (vals : list (option Q)) :
  Polars.when_then_otherwise
    (Polars.mask_not (DataCleaner.is_in_float vals DataCleaner.valid_thresholds))
    (map (option_map inject_Z) (Polars.map_elements DataCleaner.snap_float vals)) vals
  = map Spec.snap_cell_float vals.
Proof.
  unfold Polars.when_then_otherwise, Polars.mask_not, DataCleaner.is_in_float,
    Polars.map_elements, Spec.snap_cell_float, Spec.canonical_float.
  generalize DataCleaner.valid_thresholds as l. intros l.
  induction vals as [|[x|] vals IH]; simpl; [reflexivity| |]; rewrite IH; [|reflexivity].
  destruct (existsb _ l); reflexivity.
Qed.

Lemma no_invalid_int (vals : list (option Z)) :
  Polars.filter_height
    (Polars.mask_not (DataCleaner.is_in_int vals DataCleaner.valid_thresholds)) = O ->
  map Spec.snap_cell vals = vals.
Proof.
  unfold Polars.filter_height, Polars.mask_not, DataCleaner.is_in_int,
    Spec.snap_cell, Spec.canonical.
  generalize DataCleaner.valid_thresholds as l. intros l.
  induction vals as [|[x|] vals IH]; simpl; [reflexivity| |].
  - destruct (existsb _ l); simpl; [|discriminate]. intros H. now rewrite IH.
  - intros H. now rewrite IH.
Qed.

Lemma no_invalid_float (vals : list (option Q)) :
  Polars.filter_height
    (Polars.mask_not (DataCleaner.is_in_float vals DataCleaner.valid_thresholds)) = O ->
  map Spec.snap_cell_float vals = vals.
Proof.
  unfold Polars.filter_height, Polars.mask_not, DataCleaner.is_in_float,
    Spec.snap_cell_float, Spec.canonical_float.
  generalize DataCleaner.valid_thresholds as l. intros l.
  induction vals as [|[x|] vals IH]; simpl; [reflexivity| |].
  - destruct (existsb _ l); simpl; [|discriminate]. intros H. now rewrite IH.
  - intros H. now rewrite IH.
Qed.

Lemma with_column_same (col : string) (s : Polars.series) (df : Polars.DataFrame) :
  Polars.get_column col df = Some s -> Polars.with_column col s df = df.
Proof.
  induction df as [|[n s0] rest IH]; simpl; [discriminate|].
  destruct (String.eqb col n); [now intros [= ->] | intros H; now rewrite IH].
Qed.

Lemma validate_thresholds_result (df : Polars.DataFrame) (s : Polars.series) :
  Polars.get_column "threshold" df = Some s ->
  Spec.is_numeric_series s ->
  DataCleaner.validate_thresholds df
  = Ok (Polars.with_column "threshold" (Spec.snap_series s) df).
Proof.
  intros Hget Hnum. unfold DataCleaner.validate_thresholds.
  assert (Hhas : Polars.has_column "threshold" df = true)
    by (apply has_column_get; eauto).
  rewrite Hhas, Hget. simpl negb. cbv iota.
  destruct s as [vals | vals | vals]; [| |contradiction]; cbv zeta.
  - destruct (0 <? Polars.filter_height _)%nat eqn:Hcount.
    + now rewrite snap_column_int.
    + apply Nat.ltb_ge in Hcount. apply Nat.le_0_r in Hcount.
      simpl. rewrite (no_invalid_int _ Hcount). now rewrite with_column_same.
  - destruct (0 <? Polars.filter_height _)%nat eqn:Hcount.
    + now rewrite snap_column_float.
    + apply Nat.ltb_ge in Hcount. apply Nat.le_0_r in Hcount.
      simpl. rewrite (no_invalid_float _ Hcount). now rewrite with_column_same.
Qed.




(** ** Frames without the target column *)

Lemma fix_negative_loop_skips_absent (columns : list string) :
  forall (df : Polars.DataFrame) (negative_count : Z),
    DataCleaner.fix_negative_loop columns df negative_count
    = DataCleaner.fix_negative_loop
        (filter (fun c => existsb (String.eqb c) (Polars.columns df)) columns)
        df negative_count.
Proof.
  induction columns as [|col rest IH]; intros df n; [reflexivity|].
  cbn [filter]. fold (Polars.has_column col df).
  destruct (Polars.has_column col df) eqn:Hhas.
  - cbn [DataCleaner.fix_negative_loop]. rewrite Hhas. cbn [negb].
    destruct (_ || _)%bool; [apply IH|].
    destruct (Polars.get_column col df) as [s|]; [|apply IH].
    destruct (Polars.lt_lit s 0) as [negative|e]; [|reflexivity].
    cbn [bind]. destruct (0 <? _)%nat; [|apply IH].
    rewrite IH. now rewrite columns_with_column.
  - cbn [DataCleaner.fix_negative_loop]. rewrite Hhas. cbn [negb]. apply IH.
Qed.

Lemma fix_negative_loop_all_absent (columns : list string) (df : Polars.DataFrame)
    (negative_count : Z) :
  (forall c, In c columns -> Polars.has_column c df = false) ->
  DataCleaner.fix_negative_loop columns df negative_count = Ok (df, negative_count).
Proof.
  induction columns as [|col rest IH]; intros H; [reflexivity|].
  cbn [DataCleaner.fix_negative_loop]. rewrite (H col (or_introl eq_refl)). cbn [negb].
  apply IH. intros c Hc. apply H. now right.
Qed.

(** C10.  The column-targeted operations of [DataCleaner] are total on
    frames that lack the target column.  For every frame,
    [clean_country_names] without a [country] column,
    [validate_thresholds] without a [threshold] column and
    [validate_years] without a [year] column return the frame unchanged
    and do not raise.  [fix_negative_values] skips every named column
    that the frame lacks: the call equals the call on the named columns
    that are present, and when none of them is present it returns the
    frame unchanged with a count of zero. *)
Theorem cleaners_total_without_target_column
    (self : DataCleaner.cleaning_stats) (df : Polars.DataFrame) :
  (Polars.has_column "country" df = false ->
   DataCleaner.clean_country_names self df = Ok (df, self))
  /\ (Polars.has_column "threshold" df = false ->
      DataCleaner.validate_thresholds df = Ok df)
  /\ (forall min_year max_year : Z,
        Polars.has_column "year" df = false ->
        DataCleaner.validate_years df min_year max_year = Ok df)
  /\ (forall columns : list string,
        DataCleaner.fix_negative_values self df columns
        = DataCleaner.fix_negative_values self df
            (filter (fun c => Polars.has_column c df) columns))
  /\ (forall columns : list string,
        (forall c, In c columns -> Polars.has_column c df = false) ->
        DataCleaner.fix_negative_values self df columns
        = Ok (df, DataCleaner.mkStats (DataCleaner.countries_standardized self) 0
                    (DataCleaner.impossible_values_capped self)
                    (DataCleaner.duplicates_removed self))).
Proof.
  repeat split.
  - intros H. unfold DataCleaner.clean_country_names. now rewrite H.
  - intros H. unfold DataCleaner.validate_thresholds. now rewrite H.
  - intros min_year max_year H. unfold DataCleaner.validate_years. now rewrite H.
  - intros columns. unfold DataCleaner.fix_negative_values.
    now rewrite fix_negative_loop_skips_absent.
  - intros columns H. unfold DataCleaner.fix_negative_values.
    now rewrite fix_negative_loop_all_absent.
Qed.

(** The theorem at a frame that has none of the target columns. *)
Lemma cleaners_total_without_target_column_witness :
  DataCleaner.clean_country_names DataCleaner.init_stats
    [("iso", Polars.StrSeries [Some "BRA"; None])]
  = Ok ([("iso", Polars.StrSeries [Some "BRA"; None])], DataCleaner.init_stats)
  /\ DataCleaner.validate_thresholds [("iso", Polars.StrSeries [Some "BRA"; None])]
     = Ok [("iso", Polars.StrSeries [Some "BRA"; None])]
  /\ DataCleaner.validate_years [("iso", Polars.StrSeries [Some "BRA"; None])] 2001 2024
     = Ok [("iso", Polars.StrSeries [Some "BRA"; None])]
  /\ DataCleaner.fix_negative_values DataCleaner.init_stats
       [("iso", Polars.StrSeries [Some "BRA"; None])]
       ["tree_cover_loss_ha"; "extent_2000_ha"]
     = Ok ([("iso", Polars.StrSeries [Some "BRA"; None])], DataCleaner.init_stats).
Proof.
  destruct (cleaners_total_without_target_column DataCleaner.init_stats
              [("iso", Polars.StrSeries [Some "BRA"; None])])
    as (Hcountry & Hthreshold & Hyear & _ & Hfix).
  split; [now apply Hcountry|]. split; [now apply Hthreshold|].
  split; [now apply Hyear|].
  apply (Hfix ["tree_cover_loss_ha"; "extent_2000_ha"]).
  intros c [<- | [<- | []]]; reflexivity.
Defined.

(** ** The two completeness metrics *)

Lemma get_column_of_entry (df : Polars.DataFrame) (name : string) (s : Polars.series) :
  NoDup (Polars.columns df) -> In (name, s) df -> Polars.get_column name df = Some s.
Proof.
  unfold Polars.columns.
  induction df as [|[n s0] rest IH]; simpl; intros Hnd Hin; [contradiction|].
  apply NoDup_cons_iff in Hnd as [Hnotin Hnd].
  destruct Hin as [[= -> ->] | Hin].
  - now rewrite String.eqb_refl.
  - destruct (String.eqb name n) eqn:E; [|now apply IH].
    apply String.eqb_eq in E. subst n. exfalso. apply Hnotin.
    change name with (fst (name, s)). now apply in_map.
Qed.

Lemma sum_null_counts_entries (df sub : Polars.DataFrame) :
  NoDup (Polars.columns df) -> (forall p, In p sub -> In p df) ->
  Loaders.sum_null_counts df (map fst sub)
  = list_sum (map Polars.null_count (map snd sub)).
Proof.
  intros Hnd. induction sub as [|[n s] sub IH]; intros Hsub; simpl; [reflexivity|].
  rewrite (get_column_of_entry df n s Hnd) by (apply Hsub; now left).
  rewrite IH; [reflexivity|]. intros p Hp. apply Hsub. now right.
Qed.

Lemma numeric_names_entries (df sub : Polars.DataFrame) :
  NoDup (Polars.columns df) -> (forall p, In p sub -> In p df) ->
  filter (fun col => match Polars.get_column col df with
                     | Some s => Validators.is_numeric s
                     | None => false
                     end) (map fst sub)
  = map fst (filter (fun p => Validators.is_numeric (snd p)) sub).
Proof.
  intros Hnd. induction sub as [|[n s] sub IH]; intros Hsub; simpl; [reflexivity|].
  rewrite (get_column_of_entry df n s Hnd) by (apply Hsub; now left).
  rewrite IH by (intros p Hp; apply Hsub; now right).
  destruct (Validators.is_numeric s); reflexivity.
Qed.

Lemma cells_uniform (h : nat) (l : list Polars.series) :
  (forall s, In s l -> Polars.series_len s = h) ->
  Spec.cells l = (h * List.length l)%nat.
Proof.
  unfold Spec.cells. induction l as [|s l IH]; intros H; simpl; [lia|].
  rewrite (H s (or_introl eq_refl)), IH; [lia|]. intros s' Hs'. apply H. now right.
Qed.

Lemma count_nulls_le {A : Type} (vals : list (option A)) :
  (Polars.count_nulls vals <= List.length vals)%nat.
Proof.
  unfold Polars.count_nulls. induction vals as [|[v|] vals IH]; simpl; lia.
Qed.

Lemma null_count_le (s : Polars.series) : (Polars.null_count s <= Polars.series_len s)%nat.
Proof.
  destruct s; simpl; apply count_nulls_le.
Qed.

Lemma non_null_cells_sub (l : list Polars.series) :
  (Spec.non_null_cells l + list_sum (map Polars.null_count l) = Spec.cells l)%nat.
Proof.
  unfold Spec.non_null_cells, Spec.cells.
  induction l as [|s l IH]; simpl; [reflexivity|].
  pose proof (null_count_le s). lia.
Qed.

Lemma complement_fraction (nulls non_null total : nat) :
  (non_null + nulls = total)%nat -> total <> O ->
  (1 - Loaders.Q_of_nat nulls / Loaders.Q_of_nat total
   == Loaders.Q_of_nat non_null / Loaders.Q_of_nat total)%Q.
Proof.
  intros Hsum Hpos. unfold Loaders.Q_of_nat.
  assert (Hq : ~ (inject_Z (Z.of_nat total) == 0)%Q).
  { unfold Qeq. simpl. lia. }
  assert (Ht : (inject_Z (Z.of_nat total)
                == inject_Z (Z.of_nat non_null) + inject_Z (Z.of_nat nulls))%Q).
  { rewrite <- inject_Z_plus, <- Nat2Z.inj_add, Hsum. reflexivity. }
  rewrite Ht in Hq |- *. field. exact Hq.
Qed.

Lemma map_snd_filter_numeric (df : Polars.DataFrame) :
  map snd (filter (fun p => Validators.is_numeric (snd p)) df) = Spec.numeric_columns df.
Proof.
  unfold Spec.numeric_columns.
  induction df as [|[n s] df IH]; simpl; [reflexivity|].
  destruct (Validators.is_numeric s); simpl; now rewrite IH.
Qed.

Lemma total_cells_all (df : Polars.DataFrame) :
  Spec.well_formed df ->
  (Polars.height df * List.length (Polars.columns df))%nat = Spec.cells (Spec.all_columns df).
Proof.
  intros [_ Hlen]. unfold Polars.columns, Spec.all_columns.
  rewrite (cells_uniform (Polars.height df)).
  - now rewrite !length_map.
  - intros s Hs. apply in_map_iff in Hs as ([n s'] & <- & Hin). exact (Hlen n s' Hin).
Qed.

Lemma total_cells_numeric (df : Polars.DataFrame) :
  Spec.well_formed df ->
  (Polars.height df
   * List.length (map fst (filter (fun p => Validators.is_numeric (snd p)) df)))%nat
  = Spec.cells (Spec.numeric_columns df).
Proof.
  intros [_ Hlen]. rewrite <- map_snd_filter_numeric.
  rewrite (cells_uniform (Polars.height df)).
  - now rewrite !length_map.
  - intros s Hs. apply in_map_iff in Hs as ([n s'] & <- & Hin).
    apply filter_In in Hin as [Hin _]. exact (Hlen n s' Hin).
Qed.

Lemma loaders_completeness (df : Polars.DataFrame) :
  Spec.well_formed df ->
  (Spec.cells (Spec.all_columns df) <> O ->
   (Loaders.check_data_completeness df == Spec.non_null_fraction (Spec.all_columns df))%Q)
  /\ (Spec.cells (Spec.all_columns df) = O ->
      (Loaders.check_data_completeness df == 0)%Q).
Proof.
  intros Hwf. unfold Loaders.check_data_completeness. cbv zeta.
  rewrite (total_cells_all df Hwf). split; intros Hcells.
  - apply Nat.eqb_neq in Hcells as Hb. rewrite Hb.
    unfold Polars.columns.
    rewrite (sum_null_counts_entries df df (proj1 Hwf) (fun p H => H)).
    apply complement_fraction; [apply non_null_cells_sub | exact Hcells].
  - rewrite Hcells. reflexivity.
Qed.

Lemma validators_completeness (df : Polars.DataFrame) :
  Spec.well_formed df ->
  (Spec.cells (Spec.numeric_columns df) <> O ->
   (Validators.check_data_completeness df
    == Spec.non_null_fraction (Spec.numeric_columns df))%Q)
  /\ (Spec.cells (Spec.all_columns df) <> O -> Spec.cells (Spec.numeric_columns df) = O ->
      (Validators.check_data_completeness df == 1)%Q)
  /\ (Spec.cells (Spec.all_columns df) = O ->
      (Validators.check_data_completeness df == 0)%Q).
Proof.
  intros Hwf. unfold Validators.check_data_completeness. cbv zeta.
  pose proof (total_cells_all df Hwf) as Htotal.
  pose proof (numeric_names_entries df df (proj1 Hwf) (fun p H => H)) as Hnames.
  unfold Polars.columns in Htotal |- *.
  rewrite Htotal, !Hnames, (total_cells_numeric df Hwf).
  assert (Hall : Spec.cells (Spec.numeric_columns df) <> O ->
                 Spec.cells (Spec.all_columns df) <> O).
  { rewrite <- (total_cells_all df Hwf), <- (total_cells_numeric df Hwf).
    unfold Polars.columns. destruct df as [|[n s] df]; simpl; [lia|].
    destruct (Polars.series_len s); simpl; lia. }
  split; [|split].
  - intros Hnum. specialize (Hall Hnum).
    apply Nat.eqb_neq in Hall as ->. apply Nat.eqb_neq in Hnum as Hb. rewrite Hb.
    rewrite (sum_null_counts_entries df _ (proj1 Hwf))
      by (intros p Hp; now apply filter_In in Hp).
    rewrite map_snd_filter_numeric.
    apply complement_fraction; [apply non_null_cells_sub | exact Hnum].
  - intros Hcells Hnum. apply Nat.eqb_neq in Hcells as ->. rewrite Hnum. reflexivity.
  - intros Hcells. rewrite Hcells. reflexivity.
Qed.

(** C9.  The two [check_data_completeness] operations are not
    equivalent.  On every well-formed frame with at least one cell the
    ingestion-stage version (loaders) returns the fraction of non-null
    cells over all columns, and the post-transform version (validators)
    returns the fraction of non-null cells over the integer and float
    columns only (1 when there is no such column); both return 0 on a
    frame without cells.  There is a frame on which they differ: a table
    with a null in its only non-numeric column and no null in its numeric
    column gets 3/4 from the first and 1 from the second. *)
Theorem completeness_metrics_differ :
  (forall df : Polars.DataFrame,
      Spec.well_formed df ->
      (Spec.cells (Spec.all_columns df) <> O ->
       (Loaders.check_data_completeness df
        == Spec.non_null_fraction (Spec.all_columns df))%Q)
      /\ (Spec.cells (Spec.numeric_columns df) <> O ->
          (Validators.check_data_completeness df
           == Spec.non_null_fraction (Spec.numeric_columns df))%Q)
      /\ (Spec.cells (Spec.all_columns df) <> O ->
          Spec.cells (Spec.numeric_columns df) = O ->
          (Validators.check_data_completeness df == 1)%Q)
      /\ (Spec.cells (Spec.all_columns df) = O ->
          (Loaders.check_data_completeness df == 0)%Q
          /\ (Validators.check_data_completeness df == 0)%Q))
  /\ (exists df : Polars.DataFrame,
         Spec.well_formed df
         /\ ~ (Loaders.check_data_completeness df
               == Validators.check_data_completeness df)%Q)
  /\ (Loaders.check_data_completeness Spec.sample_null_in_text == 3 # 4)%Q
  /\ (Validators.check_data_completeness Spec.sample_null_in_text == 1)%Q.
Proof.
  split; [|split; [|split; reflexivity]].
  - intros df Hwf.
    destruct (loaders_completeness df Hwf) as (Hl1 & Hl0).
    destruct (validators_completeness df Hwf) as (Hv1 & Hv2 & Hv0).
    repeat split; auto.
  - exists Spec.sample_null_in_text. split.
    + split.
      * repeat constructor; simpl; intuition discriminate.
      * intros name s [[= <- <-] | [[= <- <-] | []]]; reflexivity.
    + intros H. vm_compute in H. discriminate.
Qed.

(** The theorem at the sample table: 3 of its 4 cells are non-null, and
    both cells of its numeric column are. *)
Lemma completeness_metrics_differ_witness :
  (Loaders.check_data_completeness Spec.sample_null_in_text
   == Spec.non_null_fraction (Spec.all_columns Spec.sample_null_in_text))%Q
  /\ (Validators.check_data_completeness Spec.sample_null_in_text
      == Spec.non_null_fraction (Spec.numeric_columns Spec.sample_null_in_text))%Q.
Proof.
  destruct completeness_metrics_differ as (Hall & _).
  assert (Hwf : Spec.well_formed Spec.sample_null_in_text).
  { split.
    - repeat constructor; simpl; intuition discriminate.
    - intros name s [[= <- <-] | [[= <- <-] | []]]; reflexivity. }
  destruct (Hall Spec.sample_null_in_text Hwf) as (Hl & Hv & _).
  split; [apply Hl | apply Hv]; discriminate.
Defined.

(** ** The primary-forest percentage view *)

Lemma sql_round2_bounds (x : Q) :
  (0 <= x)%Q -> (x <= 100)%Q ->
  (0 <= Database.sql_round2 x)%Q /\ (Database.sql_round2 x <= 100)%Q.
Proof.
  intros H0 H100. unfold Database.sql_round2.
  apply Qle_bool_iff in H0 as Hb. rewrite Hb.
  set (n := Qfloor (x * 100 + (1 # 2))).
  assert (Hlo : (0 <= n)%Z).
  { change 0%Z with (Qfloor 0). apply Qfloor_resp_le. lra. }
  assert (Hhi : (n <= 10000)%Z).
  { change 10000%Z with (Qfloor (10000 + (1 # 2))). apply Qfloor_resp_le. lra. }
  split.
  - apply Qle_shift_div_l; [reflexivity|].
    rewrite Qmult_0_l. change 0%Q with (inject_Z 0). now rewrite <- Zle_Qle.
  - apply Qle_shift_div_r; [reflexivity|].
    change (100 * 100)%Q with (inject_Z 10000). now rewrite <- Zle_Qle.
Qed.

Lemma ratio_bounds (pl tl : Q) :
  (0 < tl)%Q -> (0 <= pl)%Q -> (pl <= tl)%Q ->
  (0 <= pl / tl * 100)%Q /\ (pl / tl * 100 <= 100)%Q.
Proof.
  intros Ht H0 Hle.
  assert (H1 : (0 <= pl / tl)%Q).
  { apply Qle_shift_div_l; [exact Ht|]. now rewrite Qmult_0_l. }
  assert (H2 : (pl / tl <= 1)%Q).
  { apply Qle_shift_div_r; [exact Ht|]. now rewrite Qmult_1_l. }
  split; lra.
Qed.

Lemma percentage_expr_some (t_loss p_loss : option Q) (v : Q) :
  Database.primary_percentage_expr t_loss p_loss = Some v ->
  exists tl pl : Q,
    t_loss = Some tl /\ p_loss = Some pl /\ (0 < tl)%Q
    /\ v = Database.sql_round2 (pl / tl * 100).
Proof.
  unfold Database.primary_percentage_expr.
  destruct t_loss as [tl|]; [|discriminate].
  destruct (Polars.Qltb 0 tl) eqn:E; [|discriminate].
  destruct p_loss as [pl|]; [|discriminate].
  intros [= <-]. exists tl, pl. repeat split. now apply Qltb_lt.
Qed.

(** Both definitions of the view compute the percentage column by the
    same expression over the same joined rows. *)
Lemma view_rows (db : Database.database) (row : Database.view_row) :
  In row (Database.v_primary_forest_percentage db)
  \/ In row (Database.schema_v_primary_forest_percentage db) ->
  Database.primary_percentage row
  = Database.primary_percentage_expr (Database.v_tree_cover_loss_ha row)
      (Database.v_primary_forest_loss_ha row).
Proof.
  unfold Database.v_primary_forest_percentage, Database.schema_v_primary_forest_percentage.
  intros [H | H]; apply in_map_iff in H as ([t p] & <- & _); reflexivity.
Qed.

(** The export path stores the frames as they are: its reachable states
    are exactly the databases whose tables satisfy the key constraints. *)
Lemma exported_iff (db : Database.database) :
  Database.exported db <->
  Database.tree_cover_constraints (Database.fact_tree_cover_loss db) = true
  /\ Database.primary_forest_constraints (Database.fact_primary_forest db) = true.
Proof.
  unfold Database.exported, Database.export_all_tables, seq,
    Database.export_tree_cover, Database.export_primary_forest.
  split.
  - intros (tc & pf & db0 & counts & H).
    destruct (Database.tree_cover_constraints tc) eqn:Etc; [|discriminate].
    simpl in H. destruct (Database.primary_forest_constraints pf) eqn:Epf; [|discriminate].
    simpl in H. injection H as _ <-. simpl. now split.
  - intros [Htc Hpf].
    exists (Database.fact_tree_cover_loss db), (Database.fact_primary_forest db), db.
    rewrite Htc. simpl. rewrite Hpf. simpl. destruct db. eexists. reflexivity.
Qed.

(** C7, as the code has it.  In every database state, and under both
    definitions of [v_primary_forest_percentage], a non-null
    [primary_percentage] of a view row is
    [ROUND(primary_forest_loss_ha / tree_cover_loss_ha * 100, 2)] of that
    row, with both losses present and [tree_cover_loss_ha > 0]; it lies in
    the closed interval [0, 100] whenever the row has
    [0 <= primary_forest_loss_ha <= tree_cover_loss_ha].  The export path
    does not establish that condition: the states it reaches are exactly
    those whose tables satisfy the key constraints, whatever the losses. *)
Theorem view_percentage_bounded_when_primary_bounded
    (db : Database.database) (row : Database.view_row) (v : Q) :
  In row (Database.v_primary_forest_percentage db)
  \/ In row (Database.schema_v_primary_forest_percentage db) ->
  Database.primary_percentage row = Some v ->
  (exists tl pl : Q,
      Database.v_tree_cover_loss_ha row = Some tl
      /\ Database.v_primary_forest_loss_ha row = Some pl
      /\ (0 < tl)%Q
      /\ v = Database.sql_round2 (pl / tl * 100)
      /\ ((0 <= pl)%Q -> (pl <= tl)%Q -> (0 <= v)%Q /\ (v <= 100)%Q))
  /\ (Database.exported db <->
      Database.tree_cover_constraints (Database.fact_tree_cover_loss db) = true
      /\ Database.primary_forest_constraints (Database.fact_primary_forest db) = true).
Proof.
  intros Hin Hv. split; [|apply exported_iff].
  rewrite (view_rows db row Hin) in Hv.
  destruct (percentage_expr_some _ _ _ Hv) as (tl & pl & Ht & Hp & Hpos & ->).
  exists tl, pl. repeat split; trivial;
    destruct (ratio_bounds pl tl Hpos H H0) as [Hlo Hhi];
    now apply sql_round2_bounds.
Qed.

(** The theorem at a database with tree-cover loss 100 and
    primary-forest loss 50 for the same country and year: the percentage
    of the view row lies in [0, 100]. *)
Lemma view_percentage_bounded_when_primary_bounded_witness :
  (0 <= Database.sql_round2 ((50 # 1) / (100 # 1) * 100))%Q
  /\ (Database.sql_round2 ((50 # 1) / (100 # 1) * 100) <= 100)%Q.
Proof.
  destruct (view_percentage_bounded_when_primary_bounded
              (Database.mkDatabase Spec.sample_tree_cover
                 [Validators.mkPrimaryForest (Some "Brazil") (Some 2022) (Some (50 # 1))])
              (Database.mkViewRow (Some "Brazil") (Some 2022) (Some (100 # 1))
                 (Some (50 # 1))
                 (Some (Database.sql_round2 ((50 # 1) / (100 # 1) * 100)))
                 (Some "Both"))
              (Database.sql_round2 ((50 # 1) / (100 # 1) * 100)))
    as ((tl & pl & Ht & Hp & _ & _ & Hbound) & _).
  - left. simpl. left. reflexivity.
  - reflexivity.
  - simpl in Ht, Hp. injection Ht as <-. injection Hp as <-.
    apply Hbound; discriminate.
Defined.

(** C7, as the claim states it, fails: the database with tree-cover
    loss 100 and primary-forest loss 200 for the same country and year is
    reached by the export path, and its view row has the percentage 200. *)
Lemma view_percentage_above_100 :
  Database.export_all_tables Spec.sample_tree_cover Spec.sample_primary_200
    (Database.mkDatabase [] [])
  = (Ok [("fact_tree_cover_loss", 1%nat); ("fact_primary_forest", 1%nat)],
     Spec.sample_database)
  /\ exists (row : Database.view_row) (v : Q),
       In row (Database.v_primary_forest_percentage Spec.sample_database)
       /\ In row (map (fun r => Database.mkViewRow (Database.v_country r)
                                  (Database.v_year r) (Database.v_tree_cover_loss_ha r)
                                  (Database.v_primary_forest_loss_ha r)
                                  (Database.primary_percentage r) (Some "Both"))
                    (Database.schema_v_primary_forest_percentage Spec.sample_database))
       /\ Database.primary_percentage row = Some v
       /\ (v == 200)%Q
       /\ ~ (v <= 100)%Q.
Proof.
  split; [reflexivity|].
  eexists. eexists. split; [left; reflexivity|].
  split; [left; reflexivity|]. split; [reflexivity|].
  split; [reflexivity|]. intros H. vm_compute in H. apply H. reflexivity.
Qed.

(** ** The carbon-data tool handler *)

Lemma contains_self (n : string) : contains n n = true.
Proof.
  apply contains_prefix. induction n as [|a n IH]; simpl; [reflexivity|].
  destruct (ascii_dec a a); [exact IH | congruence].
Qed.

Lemma contains_app_end (n p : string) : contains n (p ++ n) = true.
Proof.
  apply contains_app_r. apply contains_self.
Qed.

Section HandlerProofs.

Variable database : string -> list pyval -> list McpServer.row.
Variable climategpt : string -> list McpServer.row -> string -> string.
Variable str_of : pyval -> string.
Variable format_thousands : pyval -> string.
Variable bullet : string.

Let handle := McpServer.handle_query_carbon_data database climategpt str_of
                format_thousands bullet.
Let latest_year := McpServer.get_latest_year database.

Lemma get_latest_year_log (log : list McpServer.query) :
  snd (latest_year log) = append log (McpServer.latest_year_sql, []).
Proof.
  unfold latest_year, McpServer.get_latest_year, seq, McpServer.execute_query.
  destruct (database McpServer.latest_year_sql []) as [|first rest]; [reflexivity|].
  unfold McpServer.getitem. destruct (McpServer.dict_get first "max_year"); reflexivity.
Qed.

Lemma lt_zero_sign (v : pyval) (b : bool) (log : list McpServer.query) :
  Spec.sign_of v = Some b -> McpServer.lt_zero v log = (Ok b, log).
Proof.
  destruct v; simpl; try discriminate; now intros [= <-].
Qed.

Lemma getitem_present (d : McpServer.row) (key : string) (log : list McpServer.query) :
  McpServer.dict_get d key <> None ->
  exists v, McpServer.getitem d key log = (Ok v, log).
Proof.
  unfold McpServer.getitem. destruct (McpServer.dict_get d key) as [v|]; [|congruence].
  intros _. now exists v.
Qed.

Lemma handler_start (latest : pyval) :
  fst (latest_year []) = Ok latest ->
  latest_year [] = (Ok latest, [(McpServer.latest_year_sql, [])]).
Proof.
  intros H. pose proof (get_latest_year_log []) as Hlog.
  destruct (latest_year []) as [r log]. simpl in *. now subst.
Qed.

Lemma seq_keeps_log {A B : Type} (m : McpServer.handler A)
    (k : A -> McpServer.handler B) :
  (forall log, snd (m log) = log) -> (forall a log, snd (k a log) = log) ->
  forall log, snd (seq m k log) = log.
Proof.
  intros Hm Hk log. unfold seq. specialize (Hm log).
  destruct (m log) as [[a|e] log']; simpl in *; subst; [apply Hk | reflexivity].
Qed.

Lemma getitem_keeps_log (d : McpServer.row) (key : string) (log : list McpServer.query) :
  snd (McpServer.getitem d key log) = log.
Proof.
  unfold McpServer.getitem. destruct (McpServer.dict_get d key); reflexivity.
Qed.

Lemma lt_zero_keeps_log (v : pyval) (log : list McpServer.query) :
  snd (McpServer.lt_zero v log) = log.
Proof.
  destruct v; reflexivity.
Qed.

(** C8, as the code has it.  The handler reads [country], then
    evaluates [get_latest_year()] as the default of [year], which always
    sends the statement [SELECT MAX(year) ...] to the database, and only
    then looks at [threshold].  For an invocation that carries a country:
    when the threshold is not in {30, 50, 75} the handler returns, without
    raising, the guidance message telling the caller to use 30, 50, or 75,
    and the latest-year statement is the only statement executed, the
    carbon lookup is not; when the threshold is in {30, 50, 75} the
    handler executes, after the latest-year statement, the single lookup
    by (country, year, threshold), answers with the no-data message when
    no row comes back, and for a row whose net flux is a number reports
    SINK when the net flux is negative and SOURCE otherwise. *)
Theorem handle_query_carbon_data_spec (args : McpServer.row) (country latest : pyval) :
  McpServer.dict_get args "country" = Some country ->
  fst (latest_year []) = Ok latest ->
  let year := McpServer.get args "year" latest in
  let threshold := McpServer.get args "threshold" (PInt 30) in
  let lookup := (McpServer.carbon_sql, [country; year; threshold]) in
  (McpServer.in_ints threshold [30; 50; 75] = false ->
   handle args []
   = (Ok [McpServer.mkTextContent "text" (McpServer.guidance_message str_of threshold)],
      [(McpServer.latest_year_sql, [])])
   /\ contains "Please use 30, 50, or 75." (McpServer.guidance_message str_of threshold)
      = true)
  /\ (McpServer.in_ints threshold [30; 50; 75] = true ->
      snd (handle args []) = [(McpServer.latest_year_sql, []); lookup]
      /\ (database (fst lookup) (snd lookup) = [] ->
          fst (handle args [])
          = Ok [McpServer.mkTextContent "text"
                  (McpServer.no_data_message str_of bullet country year threshold)])
      /\ (forall (first : McpServer.row) (rest : list McpServer.row) (is_sink : bool),
            database (fst lookup) (snd lookup) = first :: rest ->
            Spec.carbon_row first ->
            Spec.sign_of (McpServer.get first "carbon_net_flux_annual_avg" (PInt 0))
            = Some is_sink ->
            exists t,
              fst (handle args []) = Ok [McpServer.mkTextContent "text" t]
              /\ contains
                   (McpServer.net_flux_line str_of format_thousands bullet
                      (McpServer.get first "carbon_net_flux_annual_avg" (PInt 0)) is_sink)
                   t = true
              /\ contains (if is_sink then "(SINK)" else "(SOURCE)")
                   (McpServer.net_flux_line str_of format_thousands bullet
                      (McpServer.get first "carbon_net_flux_annual_avg" (PInt 0)) is_sink)
                 = true)).
Proof.
  intros Hc Hl year threshold lookup.
  pose proof (handler_start latest Hl) as Hstart.
  eassert (Heq : handle args [] = _).
  { unfold handle, McpServer.handle_query_carbon_data.
    unfold seq at 1. unfold McpServer.getitem at 1. rewrite Hc. unfold ret at 1.
    unfold seq at 1. fold latest_year. rewrite Hstart.
    fold year. fold threshold. reflexivity. }
  split; intros Hin.
  - rewrite Heq, Hin. cbn [negb]. split; [reflexivity|].
    unfold McpServer.guidance_message. do 5 apply contains_app_r. reflexivity.
  - eassert (Heq2 : handle args [] = _).
    { rewrite Heq, Hin. cbn [negb].
      unfold seq at 1. unfold McpServer.execute_query at 1.
      change (append [(McpServer.latest_year_sql, @nil pyval)]
                (McpServer.carbon_sql, [country; year; threshold]))
        with [(McpServer.latest_year_sql, @nil pyval); lookup].
      reflexivity. }
    rewrite Heq2. clear Heq Heq2. cbn [fst snd lookup].
    split; [|split].
    + destruct (database McpServer.carbon_sql [country; year; threshold]) as [|first rest];
        [reflexivity|].
      repeat (apply seq_keeps_log;
              [intros; apply lt_zero_keeps_log || apply getitem_keeps_log | intros]).
      reflexivity.
    + intros ->. reflexivity.
    + intros first rest is_sink -> Hrow Hsign.
      unfold seq at 1. rewrite (lt_zero_sign _ _ _ Hsign).
      destruct (getitem_present first "carbon_emissions_mg_co2e"
                  [(McpServer.latest_year_sql, @nil pyval); lookup]) as (emissions & He);
        [apply Hrow; simpl; tauto|].
      destruct (getitem_present first "carbon_emissions_annual_avg"
                  [(McpServer.latest_year_sql, @nil pyval); lookup]) as (annual & Ha);
        [apply Hrow; simpl; tauto|].
      destruct (getitem_present first "carbon_removals_annual_avg"
                  [(McpServer.latest_year_sql, @nil pyval); lookup]) as (removals & Hr);
        [apply Hrow; simpl; tauto|].
      destruct (getitem_present first "carbon_density_mg_c_ha"
                  [(McpServer.latest_year_sql, @nil pyval); lookup]) as (density & Hd);
        [apply Hrow; simpl; tauto|].
      destruct (getitem_present first "carbon_flux_status"
                  [(McpServer.latest_year_sql, @nil pyval); lookup]) as (status & Hs);
        [apply Hrow; simpl; tauto|].
      unfold lookup in *.
      unfold seq at 1. rewrite He. unfold seq at 1. rewrite Ha.
      unfold seq at 1. rewrite Hr. unfold seq at 1. rewrite Hd.
      unfold seq at 1. rewrite Hs. unfold ret. cbn [fst].
      eexists. split; [reflexivity|]. split.
      * unfold McpServer.add_source_attribution. apply contains_app_l.
        destruct (climategpt _ _ _).
        -- do 2 apply contains_app_l. apply contains_app_end.
        -- do 3 apply contains_app_l. apply contains_app_end.
      * unfold McpServer.net_flux_line. do 3 apply contains_app_r.
        destruct is_sink; reflexivity.
Qed.

End HandlerProofs.

(** The theorem at a call for Brazil with the threshold 10. *)
Lemma handle_query_carbon_data_spec_witness :
  McpServer.handle_query_carbon_data Spec.sample_database_answers Spec.sample_no_analysis
    Spec.sample_str Spec.sample_str "-" Spec.sample_args_threshold_10 []
  = (Ok [McpServer.mkTextContent "text"
           (McpServer.guidance_message Spec.sample_str (PInt 10))],
     [(McpServer.latest_year_sql, [])])
  /\ contains "Please use 30, 50, or 75."
       (McpServer.guidance_message Spec.sample_str (PInt 10)) = true.
Proof.
  apply (handle_query_carbon_data_spec Spec.sample_database_answers
           Spec.sample_no_analysis Spec.sample_str Spec.sample_str "-"
           Spec.sample_args_threshold_10 (PStr "Brazil") (PInt 2023)).
  - reflexivity.
  - reflexivity.
  - reflexivity.
Defined.

(** C8, as the claim states it, fails: a call with the threshold 10
    gets the guidance message, but not without a database query, for the
    latest-year statement has been executed by then. *)
Lemma handle_query_carbon_data_queries_database :
  fst (McpServer.handle_query_carbon_data Spec.sample_database_answers
         Spec.sample_no_analysis Spec.sample_str Spec.sample_str "-"
         Spec.sample_args_threshold_10 [])
  = Ok [McpServer.mkTextContent "text"
          (McpServer.guidance_message Spec.sample_str (PInt 10))]
  /\ snd (McpServer.handle_query_carbon_data Spec.sample_database_answers
            Spec.sample_no_analysis Spec.sample_str Spec.sample_str "-"
            Spec.sample_args_threshold_10 [])
     = [(McpServer.latest_year_sql, [])]
  /\ snd (McpServer.handle_query_carbon_data Spec.sample_database_answers
            Spec.sample_no_analysis Spec.sample_str Spec.sample_str "-"
            Spec.sample_args_threshold_10 [])
     <> [].
Proof.
  split; [reflexivity|]. split; [reflexivity | discriminate].
Qed.

(* ================================================================== *)
(** * Further properties of the embedded code                          *)
(* ================================================================== *)

(** ** The WHERE-clause builder: placeholders and characters *)

Lemma count_char_app (c : ascii) (a b : string) :
  Props.count_char c (a ++ b) = (Props.count_char c a + Props.count_char c b)%nat.
Proof.
  induction a as [|x a IH]; simpl; [reflexivity | rewrite IH; lia].
Qed.

Lemma all_chars_app (p : ascii -> bool) (a b : string) :
  all_chars p (a ++ b) = (all_chars p a && all_chars p b)%bool.
Proof.
  induction a as [|x a IH]; simpl; [reflexivity | now rewrite IH, andb_assoc].
Qed.

Lemma column_ok_chars (column : string) (c : ascii) :
  QueryExecutor.column_ok column = true -> In c (list_ascii_of_string column) ->
  char_isalnum c = true \/ c = "_"%char.
Proof.
  intros H. apply all_chars_remove_underscore. now apply isalnum_all_chars.
Qed.

Lemma all_chars_forall (p : ascii -> bool) (s : string) :
  all_chars p s = true <-> forall c, In c (list_ascii_of_string s) -> p c = true.
Proof.
  induction s as [|a s IH]; simpl.
  - split; [intros _ c [] | reflexivity].
  - rewrite andb_true_iff, IH. split.
    + intros [Ha Hs] c [<- | Hc]; auto.
    + intros H. split; [apply H; now left | intros c Hc; apply H; now right].
Qed.

Lemma column_ok_clause_chars (column : string) :
  QueryExecutor.column_ok column = true -> all_chars Props.clause_char column = true.
Proof.
  intros H. apply all_chars_forall. intros c Hc.
  destruct (column_ok_chars column c H Hc) as [Ha | ->]; [|reflexivity].
  unfold Props.clause_char. now rewrite Ha.
Qed.

Lemma column_ok_no_placeholder (column : string) :
  QueryExecutor.column_ok column = true -> Props.count_char "?" column = O.
Proof.
  intros H.
  assert (Hall : forall c, In c (list_ascii_of_string column) -> c <> "?"%char).
  { intros c Hc ->. destruct (column_ok_chars column _ H Hc); discriminate. }
  clear H. induction column as [|a s IH]; simpl; [reflexivity|].
  destruct (Ascii.eqb a "?") eqn:E.
  - apply Ascii.eqb_eq in E. exfalso. apply (Hall a); [now left | exact E].
  - apply IH. intros c Hc. apply Hall. now right.
Qed.

Lemma count_char_join (c : ascii) (sep : string) (parts : list string) :
  Props.count_char c sep = O ->
  Props.count_char c (join sep parts) = list_sum (map (Props.count_char c) parts).
Proof.
  intros Hsep. induction parts as [|x rest IH]; [reflexivity|].
  destruct rest as [|y rest].
  - simpl. lia.
  - change (join sep (x :: y :: rest)) with (x ++ sep ++ join sep (y :: rest)).
    rewrite !count_char_app, IH, Hsep. simpl. lia.
Qed.

Lemma all_chars_join (p : ascii -> bool) (sep : string) (parts : list string) :
  all_chars p sep = true ->
  (forall x, In x parts -> all_chars p x = true) ->
  all_chars p (join sep parts) = true.
Proof.
  intros Hsep. induction parts as [|x rest IH]; intros H; [reflexivity|].
  destruct rest as [|y rest].
  - apply H. now left.
  - change (join sep (x :: y :: rest)) with (x ++ sep ++ join sep (y :: rest)).
    rewrite !all_chars_app, Hsep, (H x (or_introl eq_refl)). simpl.
    apply IH. intros z Hz. apply H. now right.
Qed.

Lemma entry_sql_placeholders (column : string) (value : pyval) :
  QueryExecutor.column_ok column = true ->
  Props.count_char "?" (Spec.entry_sql (column, value))
  = List.length (Spec.entry_params (column, value)).
Proof.
  intros Hok. pose proof (column_ok_no_placeholder column Hok) as Hc.
  assert (Hrep : forall n, list_sum (map (Props.count_char "?") (repeat "?" n)) = n).
  { induction n as [|n IH]; simpl; [reflexivity | now rewrite IH]. }
  unfold Spec.entry_sql, Spec.entry_params.
  destruct value; cbn [snd]; rewrite ?count_char_app, ?Hc; try reflexivity;
    rewrite count_char_join by reflexivity; rewrite Hrep; simpl; lia.
Qed.

Lemma entry_sql_clause_chars (column : string) (value : pyval) :
  QueryExecutor.column_ok column = true ->
  all_chars Props.clause_char (Spec.entry_sql (column, value)) = true.
Proof.
  intros Hok. pose proof (column_ok_clause_chars column Hok) as Hc.
  assert (Hrep : forall n, all_chars Props.clause_char (join "," (repeat "?" n)) = true).
  { intros n. apply all_chars_join; [reflexivity|].
    intros x Hx. apply repeat_spec in Hx. now subst. }
  unfold Spec.entry_sql.
  destruct value; rewrite ?all_chars_app, ?Hc, ?Hrep; reflexivity.
Qed.

(** What a successful call returns, in terms of the entries. *)
Lemma build_where_clause_ok (conditions : QueryExecutor.conditions_map)
    (clause : string) (params : list pyval) :
  QueryExecutor.build_where_clause conditions = Ok (clause, params) ->
  forallb (fun e => QueryExecutor.column_ok (fst e)) conditions = true
  /\ params = flat_map Spec.entry_params conditions
  /\ clause = match conditions with
              | [] => EmptyString
              | _ => "WHERE " ++ join " AND " (map Spec.entry_sql conditions)
              end.
Proof.
  unfold QueryExecutor.build_where_clause.
  destruct conditions as [|e rest]; [intros [= <- <-]; now repeat split|].
  rewrite build_where_loop_spec.
  destruct (Spec.first_rejected (e :: rest)) as [c|] eqn:E; [discriminate|].
  intros [= <- <-]. split; [now apply first_rejected_none | now split].
Qed.

(** X1.  In every clause that [build_where_clause] returns, the number
    of [?] placeholders equals the number of parameters returned with
    it, so the pair can always be handed to a parameterised execution. *)
Theorem build_where_clause_placeholders_match_params
    (conditions : QueryExecutor.conditions_map) (clause : string) (params : list pyval) :
  QueryExecutor.build_where_clause conditions = Ok (clause, params) ->
  Props.count_char "?" clause = List.length params.
Proof.
  intros H. destruct (build_where_clause_ok _ _ _ H) as (Hok & -> & ->).
  rewrite forallb_forall in Hok.
  assert (Hsum : list_sum (map (Props.count_char "?") (map Spec.entry_sql conditions))
                 = List.length (flat_map Spec.entry_params conditions)).
  { clear H. induction conditions as [|[column value] rest IH]; [reflexivity|].
    cbn [map flat_map]. rewrite length_app.
    change (list_sum (?a :: ?l)) with (a + list_sum l)%nat.
    rewrite IH by (intros e He; apply Hok; now right).
    rewrite (entry_sql_placeholders column value (Hok (column, value) (or_introl eq_refl))).
    reflexivity. }
  destruct conditions as [|e rest]; [reflexivity|].
  rewrite count_char_app, count_char_join by reflexivity. rewrite Hsum. reflexivity.
Qed.

(** The theorem at a map with a list, a null and a scalar. *)
Lemma build_where_clause_placeholders_match_params_witness :
  Props.count_char "?" "WHERE year IN (?,?) AND region IS NULL AND country = ?" = 3%nat.
Proof.
  exact (build_where_clause_placeholders_match_params
           [("year", PList [PInt 2020; PInt 2021]); ("region", PNone);
            ("country", PStr "Peru")]
           "WHERE year IN (?,?) AND region IS NULL AND country = ?"
           [PInt 2020; PInt 2021; PStr "Peru"] eq_refl).
Defined.

Lemma clause_char_not_special (c : ascii) :
  Props.clause_char c = true -> ~ In c Props.sql_special.
Proof.
  intros H Hin. unfold Props.sql_special in Hin. simpl in Hin.
  repeat (destruct Hin as [<- | Hin]; [discriminate|]). exact Hin.
Qed.

(** X2.  Every character of a clause that [build_where_clause] returns
    is a character that [str.isalnum] accepts (a letter, a digit or one
    of the fractions U+00BC, U+00BD and U+00BE), an underscore, a space
    or one of [( ) , ? =].  Hence, whatever the
    condition map holds, no quote, semicolon, comment marker, backslash
    or line break reaches the SQL text, and the values travel only as
    parameters.  Strings are over the code points below U+0100. *)
Theorem build_where_clause_clause_characters
    (conditions : QueryExecutor.conditions_map) (clause : string) (params : list pyval) :
  QueryExecutor.build_where_clause conditions = Ok (clause, params) ->
  all_chars Props.clause_char clause = true
  /\ (forall c, In c (list_ascii_of_string clause) ->
        (Spec.is_letter c || Spec.is_digit c || Spec.is_vulgar_fraction c
         || existsb (Ascii.eqb c) ["_"; " "; "("; ")"; ","; "?"; "="]%char)%bool = true)
  /\ (forall c, In c (list_ascii_of_string clause) -> ~ In c Props.sql_special).
Proof.
  intros H.
  assert (Hall : all_chars Props.clause_char clause = true).
  { destruct (build_where_clause_ok _ _ _ H) as (Hok & _ & ->).
    rewrite forallb_forall in Hok.
    destruct conditions as [|e rest]; [reflexivity|].
    rewrite all_chars_app. simpl (all_chars Props.clause_char "WHERE "). cbn [andb].
    apply all_chars_join; [reflexivity|].
    intros x Hx. apply in_map_iff in Hx as ([column value] & <- & He).
    apply entry_sql_clause_chars. exact (Hok _ He). }
  split; [exact Hall|]. split.
  - intros c Hc. rewrite <- char_isalnum_classes.
    exact (proj1 (all_chars_forall _ _) Hall c Hc).
  - intros c Hc. apply clause_char_not_special.
    exact (proj1 (all_chars_forall _ _) Hall c Hc).
Qed.

(** The theorem at a map whose value carries SQL text: the text stays
    in the parameters. *)
Lemma build_where_clause_clause_characters_witness :
  all_chars Props.clause_char "WHERE country = ?" = true
  /\ (forall c, In c (list_ascii_of_string "WHERE country = ?") ->
        (Spec.is_letter c || Spec.is_digit c || Spec.is_vulgar_fraction c
         || existsb (Ascii.eqb c) ["_"; " "; "("; ")"; ","; "?"; "="]%char)%bool = true)
  /\ (forall c, In c (list_ascii_of_string "WHERE country = ?") ->
        ~ In c Props.sql_special).
Proof.
  exact (build_where_clause_clause_characters
           [("country", PStr "x'; DROP TABLE fact_carbon; --")]
           "WHERE country = ?"
           [PStr "x'; DROP TABLE fact_carbon; --"] eq_refl).
Defined.

(** ** Year filtering *)

Lemma get_filter_rows (name : string) (m : Polars.mask) (df : Polars.DataFrame) :
  Polars.get_column name (Polars.filter_rows m df)
  = option_map (Polars.series_filter m) (Polars.get_column name df).
Proof.
  unfold Polars.filter_rows.
  induction df as [|[n s] rest IH]; simpl; [reflexivity|].
  destruct (String.eqb name n); [reflexivity | exact IH].
Qed.

Lemma has_column_filter_rows (name : string) (m : Polars.mask) (df : Polars.DataFrame) :
  Polars.has_column name (Polars.filter_rows m df) = Polars.has_column name df.
Proof.
  unfold Polars.has_column, Polars.columns, Polars.filter_rows.
  rewrite map_map. f_equal. apply map_ext. now intros [n s].
Qed.

Lemma year_mask_keep (min_year max_year : Z) (vals : list (option Z)) :
  Polars.keep
    (Polars.mask_and (map (option_map (fun z => Z.geb z min_year)) vals)
       (map (option_map (fun z => Z.leb z max_year)) vals)) vals
  = filter (Props.year_in_range min_year max_year) vals.
Proof.
  unfold Polars.mask_and.
  induction vals as [|[y|] vals IH]; simpl; [reflexivity| |exact IH].
  rewrite IH, Z.geb_leb.
  destruct (Z.leb min_year y), (Z.leb y max_year); reflexivity.
Qed.

Lemma length_keep_le {A : Type} (m : Polars.mask) (l : list A) :
  (List.length (Polars.keep m l) <= List.length (filter Polars.is_true m))%nat.
Proof.
  revert l. induction m as [|b m IH]; intros [|x l]; simpl; try lia.
  specialize (IH l). destruct (Polars.is_true b); simpl; lia.
Qed.

Lemma length_keep_full {A : Type} (m : Polars.mask) (l : list A) :
  List.length m = List.length l ->
  List.length (Polars.keep m l) = List.length (filter Polars.is_true m).
Proof.
  revert l. induction m as [|b m IH]; intros [|x l]; simpl; try discriminate; trivial.
  intros [= H]. specialize (IH l H). destruct (Polars.is_true b); simpl; lia.
Qed.

Lemma keep_all_true {A : Type} (m : Polars.mask) (l : list A) :
  (forall b, In b m -> Polars.is_true b = true) ->
  (List.length l <= List.length m)%nat ->
  Polars.keep m l = l.
Proof.
  revert l. induction m as [|b m IH]; intros [|x l] Hall Hlen; simpl in *; trivial; [lia|].
  rewrite (Hall b (or_introl eq_refl)), IH; [reflexivity| |lia].
  intros b' Hb'. apply Hall. now right.
Qed.

Lemma year_mask_all_true (min_year max_year : Z) (vals : list (option Z)) :
  forall b,
    In b (Polars.mask_and
            (map (option_map (fun z => Z.geb z min_year))
               (filter (Props.year_in_range min_year max_year) vals))
            (map (option_map (fun z => Z.leb z max_year))
               (filter (Props.year_in_range min_year max_year) vals))) ->
    Polars.is_true b = true.
Proof.
  unfold Polars.mask_and.
  induction vals as [|[y|] vals IH]; simpl; intros b Hb; try contradiction; auto.
  destruct (Z.leb min_year y) eqn:E1, (Z.leb y max_year) eqn:E2; simpl in *; auto.
  destruct Hb as [<- | Hb]; [|now apply IH].
  rewrite Z.geb_leb, E1, E2. reflexivity.
Qed.

Lemma mask_and_length (m1 m2 : Polars.mask) :
  List.length m1 = List.length m2 ->
  List.length (Polars.mask_and m1 m2) = List.length m1.
Proof.
  unfold Polars.mask_and. revert m2.
  induction m1 as [|a m1 IH]; intros [|b m2]; simpl; try discriminate; trivial.
  intros [= H]. now rewrite IH.
Qed.

Lemma validate_years_int (df : Polars.DataFrame) (years : list (option Z))
    (min_year max_year : Z) :
  Polars.get_column "year" df = Some (Polars.IntSeries years) ->
  DataCleaner.validate_years df min_year max_year
  = Ok (Polars.filter_rows
          (Polars.mask_and (map (option_map (fun z => Z.geb z min_year)) years)
             (map (option_map (fun z => Z.leb z max_year)) years)) df).
Proof.
  intros Hget. unfold DataCleaner.validate_years.
  assert (Hhas : Polars.has_column "year" df = true) by (apply has_column_get; eauto).
  rewrite Hhas, Hget. reflexivity.
Qed.

(** X3.  On a frame with an integer [year] column, [validate_years]
    returns a frame with the same columns whose [year] column is the
    original one restricted, in order, to the cells that are present and
    within [min_year, max_year]; rows with a missing year are dropped
    too.  Filtering again with the same bounds changes nothing. *)
Theorem validate_years_keeps_range (df : Polars.DataFrame) (years : list (option Z))
    (min_year max_year : Z) :
  Polars.get_column "year" df = Some (Polars.IntSeries years) ->
  exists df',
    DataCleaner.validate_years df min_year max_year = Ok df'
    /\ Polars.columns df' = Polars.columns df
    /\ Polars.get_column "year" df'
       = Some (Polars.IntSeries (filter (Props.year_in_range min_year max_year) years))
    /\ (forall c, In c (filter (Props.year_in_range min_year max_year) years) ->
          exists y, c = Some y /\ min_year <= y <= max_year)
    /\ DataCleaner.validate_years df' min_year max_year = Ok df'.
Proof.
  intros Hget. rewrite (validate_years_int df years min_year max_year Hget).
  set (m := Polars.mask_and (map (option_map (fun z => Z.geb z min_year)) years)
              (map (option_map (fun z => Z.leb z max_year)) years)).
  assert (Hyear : Polars.get_column "year" (Polars.filter_rows m df)
                  = Some (Polars.IntSeries
                            (filter (Props.year_in_range min_year max_year) years))).
  { rewrite get_filter_rows, Hget. simpl. unfold m. now rewrite year_mask_keep. }
  exists (Polars.filter_rows m df). split; [reflexivity|]. split; [|split; [exact Hyear|split]].
  - unfold Polars.columns, Polars.filter_rows. rewrite map_map. apply map_ext.
    now intros [n s].
  - intros c Hc. apply filter_In in Hc as [_ Hc]. destruct c as [y|]; [|discriminate].
    exists y. split; [reflexivity|]. simpl in Hc. lia.
  - rewrite (validate_years_int _ _ min_year max_year Hyear). f_equal.
    set (ys := filter (Props.year_in_range min_year max_year) years) in *.
    set (m' := Polars.mask_and (map (option_map (fun z => Z.geb z min_year)) ys)
                 (map (option_map (fun z => Z.leb z max_year)) ys)).
    assert (Hlen : List.length m' = List.length (filter Polars.is_true m)).
    { unfold m'. rewrite mask_and_length by now rewrite !length_map.
      rewrite length_map. unfold ys. rewrite <- year_mask_keep. fold m.
      apply length_keep_full. unfold m.
      rewrite mask_and_length by now rewrite !length_map. now rewrite length_map. }
    assert (Htrue : forall b, In b m' -> Polars.is_true b = true)
      by (apply year_mask_all_true).
    unfold Polars.filter_rows at 1 2. rewrite map_map. apply map_ext. intros [n s].
    f_equal. destruct s as [l | l | l]; simpl; f_equal;
      (apply keep_all_true; [exact Htrue | rewrite Hlen; apply length_keep_le]).
Qed.

(** The theorem at a frame whose years are 1999, 2001, missing and 2024. *)
Lemma validate_years_keeps_range_witness :
  exists df',
    DataCleaner.validate_years
      [("country", Polars.StrSeries [Some "Peru"; Some "Peru"; Some "Chad"; None]);
       ("year", Polars.IntSeries [Some 1999; Some 2001; None; Some 2024])] 2001 2024
    = Ok df'
    /\ Polars.get_column "year" df' = Some (Polars.IntSeries [Some 2001; Some 2024])
    /\ Polars.get_column "country" df' = Some (Polars.StrSeries [Some "Peru"; None]).
Proof.
  destruct (validate_years_keeps_range
              [("country", Polars.StrSeries [Some "Peru"; Some "Peru"; Some "Chad"; None]);
               ("year", Polars.IntSeries [Some 1999; Some 2001; None; Some 2024])]
              [Some 1999; Some 2001; None; Some 2024] 2001 2024 eq_refl)
    as (df' & Hrun & _ & Hyear & _).
  exists df'. split; [exact Hrun|]. split; [exact Hyear|].
  injection Hrun as <-. reflexivity.
Defined.

(** ** Thresholds after snapping *)

Lemma canonical_in (x : Z) : In x DataCleaner.valid_thresholds -> Spec.canonical x = true.
Proof.
  intros H. unfold Spec.canonical. apply existsb_exists. exists x.
  split; [exact H | apply Z.eqb_refl].
Qed.

Lemma snap_cell_canonical (c : option Z) (x : Z) :
  Spec.snap_cell c = Some x -> Spec.canonical x = true.
Proof.
  destruct c as [y|]; simpl; [|discriminate].
  destruct (Spec.canonical y) eqn:E; intros [= <-]; [exact E|].
  apply canonical_in. apply snap_int_nearest.
Qed.

Lemma snap_cell_idempotent (c : option Z) :
  Spec.snap_cell (Spec.snap_cell c) = Spec.snap_cell c.
Proof.
  destruct (Spec.snap_cell c) as [x|] eqn:E; [|reflexivity].
  simpl. now rewrite (snap_cell_canonical c x E).
Qed.

(** X4.  After [validate_thresholds] on a frame with an integer
    [threshold] column, every threshold that is present belongs to the
    canonical set, the missing ones are still missing at the same rows,
    and a second application returns the same frame. *)
Theorem validate_thresholds_canonical_and_idempotent
    (df : Polars.DataFrame) (vals : list (option Z)) :
  Polars.get_column "threshold" df = Some (Polars.IntSeries vals) ->
  exists (df' : Polars.DataFrame) (vals' : list (option Z)),
    DataCleaner.validate_thresholds df = Ok df'
    /\ Polars.get_column "threshold" df' = Some (Polars.IntSeries vals')
    /\ List.length vals' = List.length vals
    /\ (forall x, In (Some x) vals' -> In x DataCleaner.valid_thresholds)
    /\ map Polars.is_null vals' = map Polars.is_null vals
    /\ DataCleaner.validate_thresholds df' = Ok df'.
Proof.
  intros Hget.
  pose proof (validate_thresholds_result df _ Hget I) as Hrun. simpl in Hrun.
  set (df' := Polars.with_column "threshold"
                (Polars.IntSeries (map Spec.snap_cell vals)) df) in *.
  assert (Hget' : Polars.get_column "threshold" df'
                  = Some (Polars.IntSeries (map Spec.snap_cell vals))).
  { unfold df'. now rewrite get_with_column. }
  exists df', (map Spec.snap_cell vals).
  split; [exact Hrun|]. split; [exact Hget'|]. split; [apply length_map|].
  split; [|split].
  - intros x Hx. apply in_map_iff in Hx as (c & Hc & _).
    apply snap_cell_canonical in Hc. unfold Spec.canonical in Hc.
    apply existsb_exists in Hc as (v & Hv & Heq). apply Z.eqb_eq in Heq. now subst.
  - rewrite map_map. apply map_ext. intros [x|]; simpl; [|reflexivity].
    now destruct (Spec.canonical x).
  - rewrite (validate_thresholds_result df' _ Hget' I). simpl. f_equal.
    rewrite map_map. unfold df'. rewrite with_column_twice. do 2 f_equal.
    apply map_ext. apply snap_cell_idempotent.
Qed.

(** The theorem at a frame with the thresholds 30, 12, missing and 80. *)
Lemma validate_thresholds_canonical_and_idempotent_witness :
  exists (df' : Polars.DataFrame) (vals' : list (option Z)),
    DataCleaner.validate_thresholds
      [("threshold", Polars.IntSeries [Some 30; Some 12; None; Some 80])] = Ok df'
    /\ Polars.get_column "threshold" df' = Some (Polars.IntSeries vals')
    /\ (forall x, In (Some x) vals' -> In x DataCleaner.valid_thresholds)
    /\ DataCleaner.validate_thresholds df' = Ok df'.
Proof.
  destruct (validate_thresholds_canonical_and_idempotent
              [("threshold", Polars.IntSeries [Some 30; Some 12; None; Some 80])]
              [Some 30; Some 12; None; Some 80] eq_refl)
    as (df' & vals' & H1 & H2 & _ & H3 & _ & H4).
  exists df', vals'. repeat split; assumption.
Defined.

(** ** Negative values: repairing, then checking *)

Lemma fix_negative_loop_not_blocked (columns : list string) :
  forall (df : Polars.DataFrame) (n : Z) (r : Polars.DataFrame * Z),
    DataCleaner.fix_negative_loop columns df n = Ok r -> ~ Spec.blocked columns df.
Proof.
  induction columns as [|col rest IH]; intros df n r H (c & vals & Hin & Hneg & Hget);
    [contradiction|].
  cbn [DataCleaner.fix_negative_loop] in H.
  destruct (Polars.has_column col df) eqn:Hhas; cbn [negb] in H.
  - fold (Spec.may_be_negative col) in H.
    destruct (Spec.may_be_negative col) eqn:Hexempt.
    + apply (IH df n r H). destruct Hin as [<- | Hin]; [congruence|].
      now exists c, vals.
    + apply has_column_get in Hhas as (s & Hs). rewrite Hs in H.
      destruct (Polars.lt_lit s 0) as [negative|e] eqn:Hlt; [|discriminate].
      cbn [bind] in H.
      assert (Hnum : forall v, s <> Polars.StrSeries v)
        by (intros v ->; discriminate).
      destruct (0 <? Polars.filter_height _)%nat eqn:Hcount.
      * apply (IH _ _ r H). destruct Hin as [<- | Hin].
        -- rewrite Hs in Hget. injection Hget as ->. exfalso. exact (Hnum vals eq_refl).
        -- exists c, vals. repeat split; trivial. rewrite get_with_column.
           destruct (String.eqb c col) eqn:E; [|exact Hget].
           apply String.eqb_eq in E. subst c. rewrite Hs in Hget. injection Hget as ->.
           exfalso. exact (Hnum vals eq_refl).
      * apply (IH df n r H). destruct Hin as [<- | Hin].
        -- rewrite Hs in Hget. injection Hget as ->. exfalso. exact (Hnum vals eq_refl).
        -- now exists c, vals.
  - apply (IH df n r H). destruct Hin as [<- | Hin].
    + apply has_column_false_get in Hhas. congruence.
    + now exists c, vals.
Qed.

Lemma fixed_series_no_negative (s : Polars.series) :
  (forall v, s <> Polars.StrSeries v) ->
  exists negative,
    Polars.lt_lit (Spec.fix_series s) 0 = Ok negative
    /\ Polars.filter_height
         (Polars.mask_and negative (Polars.is_not_null (Spec.fix_series s))) = O.
Proof.
  intros Hnum. destruct s as [vals | vals | vals]; [| |exfalso; exact (Hnum vals eq_refl)];
    clear Hnum; simpl; eexists; (split; [reflexivity|]);
    unfold Polars.filter_height, Polars.mask_and; rewrite !map_map.
  - induction vals as [|[z|] vals IH]; simpl; trivial.
    destruct (Z.ltb z 0) eqn:E; simpl; rewrite ?E; simpl; exact IH.
  - change (inject_Z 0) with 0%Q.
    induction vals as [|[q|] vals IH]; simpl; trivial.
    destruct (Polars.Qltb q 0) eqn:E; simpl; rewrite ?E; simpl; exact IH.
Qed.

Lemma check_negative_loop_clean (columns : list string) (df : Polars.DataFrame) :
  (forall c s, In c columns -> Spec.may_be_negative c = false ->
     Polars.get_column c df = Some s ->
     exists s0, s = Spec.fix_series s0 /\ forall v, s0 <> Polars.StrSeries v) ->
  forall acc, ValidatorChecks.check_negative_loop columns df acc = Ok acc.
Proof.
  induction columns as [|col rest IH]; intros H acc; [reflexivity|].
  cbn [ValidatorChecks.check_negative_loop].
  assert (Hrest : forall acc', ValidatorChecks.check_negative_loop rest df acc' = Ok acc').
  { apply IH. intros c s Hc. apply H. now right. }
  destruct (Polars.has_column col df); cbn [negb]; [|apply Hrest].
  fold (Spec.may_be_negative col).
  destruct (Spec.may_be_negative col) eqn:Hexempt; [apply Hrest|].
  destruct (Polars.get_column col df) as [s|] eqn:Hs; [|apply Hrest].
  destruct (H col s (or_introl eq_refl) Hexempt Hs) as (s0 & -> & Hnum).
  destruct (fixed_series_no_negative s0 Hnum) as (negative & Hlt & Hcount).
  rewrite Hlt. cbn [bind]. rewrite Hcount. apply Hrest.
Qed.

Lemma check_after_fix
    (self : DataCleaner.cleaning_stats) (df df' : Polars.DataFrame)
    (stats : DataCleaner.cleaning_stats) (columns : list string) :
  DataCleaner.fix_negative_values self df columns = Ok (df', stats) ->
  ValidatorChecks.check_negative_values df' columns = Ok [].
Proof.
  unfold DataCleaner.fix_negative_values, bind. intros H.
  destruct (DataCleaner.fix_negative_loop columns df 0) as [[d n]|e] eqn:Hloop;
    [|discriminate].
  injection H as -> _.
  pose proof (fix_negative_loop_spec columns df 0) as Hspec. rewrite Hloop in Hspec.
  pose proof (fix_negative_loop_not_blocked columns df 0 _ Hloop) as Hnb.
  destruct Hspec as [_ Hget].
  apply check_negative_loop_clean. intros c s Hc Hexempt Hs.
  rewrite Hget in Hs. unfold Spec.targeted in Hs. rewrite Hexempt in Hs.
  assert (Hin : existsb (String.eqb c) columns = true).
  { apply existsb_exists. exists c. split; [exact Hc | apply String.eqb_refl]. }
  rewrite Hin in Hs. simpl in Hs.
  destruct (Polars.get_column c df) as [s0|] eqn:Hs0; [|discriminate].
  injection Hs as <-. exists s0. split; [reflexivity|].
  intros v ->. apply Hnb. now exists c, v.
Qed.

(** X5.  [check_negative_values] finds nothing to report after
    [fix_negative_values]: whenever the cleaner returns a frame for a
    list of columns, the validator's check of the same columns on that
    frame returns the empty list. *)
Theorem no_negative_values_after_fix
    (self : DataCleaner.cleaning_stats) (df df' : Polars.DataFrame)
    (stats : DataCleaner.cleaning_stats) (columns : list string) :
  DataCleaner.fix_negative_values self df columns = Ok (df', stats) ->
  ValidatorChecks.check_negative_values df' columns = Ok [].
Proof.
  exact (check_after_fix self df df' stats columns).
Qed.

(** The theorem at the frame of the cleaner's unit test. *)
Lemma no_negative_values_after_fix_witness :
  ValidatorChecks.check_negative_values
    [ ("tree_cover_loss_ha", Polars.IntSeries [Some 100; None; Some 200]);
      ("carbon_net_flux_annual_avg", Polars.IntSeries [Some 100; Some (-50); Some 200]) ]
    ["tree_cover_loss_ha"; "carbon_net_flux_annual_avg"]
  = Ok [].
Proof.
  exact (no_negative_values_after_fix DataCleaner.init_stats Spec.sample_negative_frame
           _ _ ["tree_cover_loss_ha"; "carbon_net_flux_annual_avg"] eq_refl).
Defined.

(** ** Complete cases *)

Lemma below_refl (m : Polars.mask) : below m m.
Proof.
  induction m as [|b m IH]; simpl; auto.
Qed.

Lemma below_trans (m1 m2 m3 : Polars.mask) : below m1 m2 -> below m2 m3 -> below m1 m3.
Proof.
  revert m2 m3. induction m1 as [|a m1 IH]; intros [|b m2] [|c m3]; simpl; try tauto.
  intros [H1 H2] [H3 H4]. split; [auto | eauto].
Qed.

Lemma is_true_and3 (a b : option bool) :
  Polars.is_true (Polars.and3 a b) = (Polars.is_true a && Polars.is_true b)%bool.
Proof.
  destruct a as [[|]|], b as [[|]|]; reflexivity.
Qed.

Lemma below_and_l (m1 m2 : Polars.mask) : below (Polars.mask_and m1 m2) m1.
Proof.
  unfold Polars.mask_and. revert m2.
  induction m1 as [|a m1 IH]; intros [|b m2]; simpl; auto.
  split; [|apply IH]. rewrite is_true_and3. now intros [H _]%andb_prop.
Qed.

Lemma below_and_r (m1 m2 : Polars.mask) : below (Polars.mask_and m1 m2) m2.
Proof.
  unfold Polars.mask_and. revert m2.
  induction m1 as [|a m1 IH]; intros [|b m2]; simpl; auto.
  split; [|apply IH]. rewrite is_true_and3. now intros [_ H]%andb_prop.
Qed.

Lemma below_fold_init (rest : list Polars.mask) (m : Polars.mask) :
  below (fold_left Polars.mask_and rest m) m.
Proof.
  revert m. induction rest as [|r rest IH]; intros m; simpl; [apply below_refl|].
  eapply below_trans; [apply IH | apply below_and_l].
Qed.

Lemma below_fold_member (rest : list Polars.mask) (m r : Polars.mask) :
  In r rest -> below (fold_left Polars.mask_and rest m) r.
Proof.
  revert m. induction rest as [|r0 rest IH]; intros m Hin; simpl; [contradiction|].
  destruct Hin as [-> | Hin]; [|now apply IH].
  eapply below_trans; [apply below_fold_init | apply below_and_r].
Qed.

Lemma below_all_horizontal (masks : list Polars.mask) (m : Polars.mask) :
  In m masks -> below (PolarsExpr.all_horizontal masks) m.
Proof.
  destruct masks as [|m0 rest]; [contradiction|]. simpl.
  intros [<- | Hin]; [apply below_fold_init | now apply below_fold_member].
Qed.

Lemma keep_no_nulls {A : Type} (m : Polars.mask) (vals : list (option A)) :
  below m (map (fun c => Some (negb (Polars.is_null c))) vals) ->
  Polars.count_nulls (Polars.keep m vals) = O.
Proof.
  unfold Polars.count_nulls. revert vals.
  induction m as [|b m IH]; intros [|v vals]; simpl; trivial; try tauto.
  intros [Hb Hrest]. destruct (Polars.is_true b); simpl; [|now apply IH].
  destruct v as [x|]; simpl in *; [now apply IH|].
  specialize (Hb eq_refl). discriminate.
Qed.

Lemma series_filter_no_nulls (m : Polars.mask) (s : Polars.series) :
  below m (Polars.is_not_null s) ->
  Polars.null_count (Polars.series_filter m s) = O.
Proof.
  destruct s; simpl; apply keep_no_nulls.
Qed.

Lemma not_null_masks_member (columns : list string) (df : Polars.DataFrame)
    (masks : list Polars.mask) :
  PolarsExpr.not_null_masks columns df = Ok masks ->
  forall c, In c columns ->
    exists s, Polars.get_column c df = Some s /\ In (Polars.is_not_null s) masks.
Proof.
  revert masks. induction columns as [|c0 rest IH]; intros masks H c Hin; [contradiction|].
  simpl in H. destruct (Polars.get_column c0 df) as [s0|] eqn:Hs0; [|discriminate].
  destruct (PolarsExpr.not_null_masks rest df) as [ms|e]; [|discriminate].
  simpl in H. injection H as <-.
  destruct Hin as [<- | Hin].
  - exists s0. split; [exact Hs0 | now left].
  - destruct (IH ms eq_refl c Hin) as (s & Hs & Hm). exists s. split; [exact Hs | now right].
Qed.

Lemma get_column_in (c : string) (df : Polars.DataFrame) (s : Polars.series) :
  Polars.get_column c df = Some s -> In (c, s) df.
Proof.
  induction df as [|[n s0] rest IH]; simpl; [discriminate|].
  destruct (String.eqb c n) eqn:E.
  - apply String.eqb_eq in E. subst n. intros [= ->]. now left.
  - intros H. right. now apply IH.
Qed.

Lemma columns_filter_rows (m : Polars.mask) (df : Polars.DataFrame) :
  Polars.columns (Polars.filter_rows m df) = Polars.columns df.
Proof.
  unfold Polars.columns, Polars.filter_rows. rewrite map_map.
  apply map_ext. now intros [n s].
Qed.

(** The frame returned by [get_complete_cases] is [filter_rows m df] for
    a mask below the non-null mask of every inspected column. *)
Lemma get_complete_cases_mask (df df' : Polars.DataFrame) (columns : option (list string)) :
  CleanerChecks.get_complete_cases df columns = Ok df' ->
  exists m,
    df' = Polars.filter_rows m df
    /\ forall c s, In c (Cells.checked_columns df columns) ->
         Polars.get_column c df = Some s -> below m (Polars.is_not_null s).
Proof.
  assert (Hdrop : forall d, CleanerChecks.get_complete_cases df None = Ok d \/
                            CleanerChecks.get_complete_cases df (Some []) = Ok d ->
            exists m, d = Polars.filter_rows m df
              /\ forall c s, In c (Polars.columns df) ->
                   Polars.get_column c df = Some s -> below m (Polars.is_not_null s)).
  { intros d Hd. assert (Hd' : d = PolarsExpr.drop_nulls df)
      by (destruct Hd as [Hd | Hd]; simpl in Hd; congruence).
    subst d. eexists. split; [reflexivity|].
    intros c s _ Hs. apply below_all_horizontal.
    apply get_column_in in Hs. apply in_map_iff. now exists (c, s). }
  destruct columns as [[|c0 rest]|]; intros H.
  - apply Hdrop. now right.
  - unfold CleanerChecks.get_complete_cases in H.
    destruct (PolarsExpr.not_null_masks (c0 :: rest) df) as [masks|e] eqn:Hm; [|discriminate].
    simpl in H. injection H as <-. eexists. split; [reflexivity|].
    intros c s Hin Hs. apply below_all_horizontal.
    destruct (not_null_masks_member _ _ _ Hm c Hin) as (s1 & Hs1 & Hin1). congruence.
  - apply Hdrop. now left.
Qed.

Lemma get_complete_cases_result
    (df df' : Polars.DataFrame) (columns : option (list string)) :
  CleanerChecks.get_complete_cases df columns = Ok df' ->
  Polars.columns df' = Polars.columns df
  /\ forall c, In c (Cells.checked_columns df columns) -> Cells.complete_in df' c.
Proof.
  intros H. destruct (get_complete_cases_mask _ _ _ H) as (m & -> & Hm).
  split; [apply columns_filter_rows|].
  intros c Hc s' Hs'. rewrite get_filter_rows in Hs'.
  destruct (Polars.get_column c df) as [s|] eqn:Hs; [|discriminate].
  injection Hs' as <-. apply series_filter_no_nulls. now apply (Hm c).
Qed.

(** X6.  [get_complete_cases] returns a frame with the columns of the
    input and without a null in any inspected column: the listed
    columns, or every column when no list (or an empty one) is given. *)
Theorem get_complete_cases_complete
    (df df' : Polars.DataFrame) (columns : option (list string)) :
  CleanerChecks.get_complete_cases df columns = Ok df' ->
  Polars.columns df' = Polars.columns df
  /\ forall c, In c (Cells.checked_columns df columns) -> Cells.complete_in df' c.
Proof.
  exact (get_complete_cases_result df df' columns).
Qed.

(** The theorem on a frame with a null in each of two rows. *)
Lemma get_complete_cases_complete_witness :
  Polars.columns
    [ ("country", Polars.StrSeries [Some "Chad"]);
      ("year", Polars.IntSeries [Some 2003]) ]
  = Polars.columns
      [ ("country", Polars.StrSeries [Some "Brazil"; None; Some "Chad"]);
        ("year", Polars.IntSeries [None; Some 2002; Some 2003]) ]
  /\ forall c,
       In c (Cells.checked_columns
               [ ("country", Polars.StrSeries [Some "Brazil"; None; Some "Chad"]);
                 ("year", Polars.IntSeries [None; Some 2002; Some 2003]) ] None) ->
       Cells.complete_in
         [ ("country", Polars.StrSeries [Some "Chad"]);
           ("year", Polars.IntSeries [Some 2003]) ] c.
Proof.
  exact (get_complete_cases_complete
           [ ("country", Polars.StrSeries [Some "Brazil"; None; Some "Chad"]);
             ("year", Polars.IntSeries [None; Some 2002; Some 2003]) ]
           _ None eq_refl).
Defined.

Lemma is_not_null_length (s : Polars.series) :
  List.length (Polars.is_not_null s) = Polars.series_len s.
Proof.
  destruct s; simpl; apply length_map.
Qed.

Lemma not_null_all_true {A : Type} (vals : list (option A)) :
  Polars.count_nulls vals = O ->
  map (fun c => Some (negb (Polars.is_null c))) vals = all_true (List.length vals).
Proof.
  unfold Polars.count_nulls, all_true.
  induction vals as [|[x|] vals IH]; simpl; intros H; [reflexivity| |discriminate].
  now rewrite IH.
Qed.

Lemma is_not_null_complete (s : Polars.series) :
  Polars.null_count s = O -> Polars.is_not_null s = all_true (Polars.series_len s).
Proof.
  destruct s; simpl; apply not_null_all_true.
Qed.

Lemma mask_and_all_true (n : nat) : Polars.mask_and (all_true n) (all_true n) = all_true n.
Proof.
  unfold Polars.mask_and, all_true. induction n as [|n IH]; simpl; [reflexivity|].
  now rewrite IH.
Qed.

Lemma fold_all_true (n k : nat) :
  fold_left Polars.mask_and (repeat (all_true n) k) (all_true n) = all_true n.
Proof.
  induction k as [|k IH]; simpl; [reflexivity|]. now rewrite mask_and_all_true.
Qed.

Lemma all_horizontal_all_true (n k : nat) :
  PolarsExpr.all_horizontal (repeat (all_true n) (S k)) = all_true n.
Proof.
  simpl. apply fold_all_true.
Qed.

Lemma keep_all_true_mask {A : Type} (n : nat) (l : list A) :
  (List.length l <= n)%nat -> Polars.keep (all_true n) l = l.
Proof.
  intros H. apply keep_all_true.
  - intros b Hb. apply repeat_spec in Hb. now subst b.
  - unfold all_true. now rewrite repeat_length.
Qed.

Lemma series_filter_all_true (n : nat) (s : Polars.series) :
  (Polars.series_len s <= n)%nat -> Polars.series_filter (all_true n) s = s.
Proof.
  destruct s; simpl; intros H; now rewrite keep_all_true_mask.
Qed.

Lemma filter_rows_all_true (n : nat) (df : Polars.DataFrame) :
  (forall c s, In (c, s) df -> Polars.series_len s = n) ->
  Polars.filter_rows (all_true n) df = df.
Proof.
  unfold Polars.filter_rows. induction df as [|[c s] rest IH]; intros H; simpl; [reflexivity|].
  rewrite series_filter_all_true, IH; trivial.
  - intros c' s' Hin. apply (H c'). now right.
  - rewrite (H c s (or_introl eq_refl)). lia.
Qed.

Lemma not_null_masks_all_true (columns : list string) (df : Polars.DataFrame) (n : nat) :
  (forall c, In c columns ->
     exists s, Polars.get_column c df = Some s
               /\ Polars.null_count s = O /\ Polars.series_len s = n) ->
  PolarsExpr.not_null_masks columns df = Ok (repeat (all_true n) (List.length columns)).
Proof.
  induction columns as [|c rest IH]; intros H; simpl; [reflexivity|].
  destruct (H c (or_introl eq_refl)) as (s & -> & Hnull & Hlen).
  rewrite IH by (intros c' Hc'; apply H; now right).
  simpl. now rewrite (is_not_null_complete s Hnull), Hlen.
Qed.

Lemma series_filter_length (m : Polars.mask) (s : Polars.series) :
  List.length m = Polars.series_len s ->
  Polars.series_len (Polars.series_filter m s) = Polars.filter_height m.
Proof.
  unfold Polars.filter_height. destruct s; simpl; apply length_keep_full.
Qed.

Lemma fold_mask_and_length (rest : list Polars.mask) (m : Polars.mask) (n : nat) :
  List.length m = n -> (forall r, In r rest -> List.length r = n) ->
  List.length (fold_left Polars.mask_and rest m) = n.
Proof.
  revert m. induction rest as [|r rest IH]; intros m Hm Hrest; simpl; [exact Hm|].
  apply IH.
  - rewrite mask_and_length; [exact Hm|]. rewrite Hm. symmetry. apply Hrest. now left.
  - intros r' Hr'. apply Hrest. now right.
Qed.

Lemma not_null_masks_length (columns : list string) (df : Polars.DataFrame)
    (masks : list Polars.mask) (n : nat) :
  (forall c s, In (c, s) df -> Polars.series_len s = n) ->
  PolarsExpr.not_null_masks columns df = Ok masks ->
  List.length masks = List.length columns /\ forall m, In m masks -> List.length m = n.
Proof.
  intros Hun. revert masks.
  induction columns as [|c rest IH]; intros masks H; simpl in H.
  - injection H as <-. split; [reflexivity | contradiction].
  - destruct (Polars.get_column c df) as [s|] eqn:Hs; [|discriminate].
    destruct (PolarsExpr.not_null_masks rest df) as [ms|e]; [|discriminate].
    simpl in H. injection H as <-. destruct (IH ms eq_refl) as [Hlen Hall].
    split; [simpl; now rewrite Hlen|].
    intros m [<- | Hin]; [|now apply Hall].
    rewrite is_not_null_length. apply (Hun c). now apply get_column_in.
Qed.

(** On a frame whose columns have one length and whose inspected columns
    hold no null, [get_complete_cases] returns the frame itself. *)
Lemma get_complete_cases_fixed (df : Polars.DataFrame) (columns : option (list string))
    (n : nat) :
  NoDup (Polars.columns df) ->
  (forall c s, In (c, s) df -> Polars.series_len s = n) ->
  (forall c, In c (Cells.checked_columns df columns) -> Polars.has_column c df = true) ->
  (forall c, In c (Cells.checked_columns df columns) -> Cells.complete_in df c) ->
  CleanerChecks.get_complete_cases df columns = Ok df.
Proof.
  intros Hnd Hun Hhas Hcomplete.
  assert (Hdrop : Cells.checked_columns df columns = Polars.columns df ->
                  Ok (PolarsExpr.drop_nulls df) = Ok df).
  { intros Heq. f_equal. unfold PolarsExpr.drop_nulls.
    destruct df as [|[c0 s0] rest] eqn:Hdf; [reflexivity|]. rewrite <- Hdf in *.
    assert (Hmasks : map (fun '(_, s) => Polars.is_not_null s) df
                     = repeat (all_true n) (List.length df)).
    { rewrite Heq in Hcomplete. clear Hdf Hhas Heq.
      assert (Hall : forall c s, In (c, s) df ->
                Polars.null_count s = O /\ Polars.series_len s = n).
      { intros c s Hin. split; [|now apply (Hun c)].
        apply (Hcomplete c).
        - unfold Polars.columns. apply in_map_iff. now exists (c, s).
        - now apply get_column_of_entry. }
      clear Hcomplete Hun Hnd.
      induction df as [|[c s] rest' IH]; simpl; [reflexivity|].
      destruct (Hall c s (or_introl eq_refl)) as [Hnull Hlen].
      rewrite (is_not_null_complete s Hnull), Hlen. f_equal.
      apply IH. intros c' s' Hin. apply (Hall c'). now right. }
    rewrite Hmasks. rewrite Hdf at 1. cbn [List.length].
    rewrite all_horizontal_all_true. now apply filter_rows_all_true. }
  destruct columns as [[|c0 rest]|]; [now apply Hdrop | | now apply Hdrop].
  unfold CleanerChecks.get_complete_cases.
  rewrite (not_null_masks_all_true (c0 :: rest) df n).
  - cbn [bind List.length]. rewrite all_horizontal_all_true.
    now rewrite filter_rows_all_true.
  - intros c Hc. specialize (Hhas c Hc). apply has_column_get in Hhas as (s & Hs).
    exists s. repeat split; trivial.
    + now apply (Hcomplete c Hc).
    + apply (Hun c). now apply get_column_in.
Qed.

Lemma all_horizontal_length (masks : list Polars.mask) (n : nat) :
  masks <> [] -> (forall m, In m masks -> List.length m = n) ->
  List.length (PolarsExpr.all_horizontal masks) = n.
Proof.
  destruct masks as [|m rest]; [congruence|]. intros _ H. simpl.
  apply fold_mask_and_length; [apply H; now left | intros r Hr; apply H; now right].
Qed.

Lemma filter_rows_uniform (m : Polars.mask) (df : Polars.DataFrame) (n : nat) :
  List.length m = n ->
  (forall c s, In (c, s) df -> Polars.series_len s = n) ->
  forall c s, In (c, s) (Polars.filter_rows m df) ->
    Polars.series_len s = Polars.filter_height m.
Proof.
  intros Hm Hun c s Hin. unfold Polars.filter_rows in Hin.
  apply in_map_iff in Hin as ([c' s'] & [= <- <-] & Hin).
  apply series_filter_length. rewrite Hm. symmetry. now apply (Hun c').
Qed.

(** X7.  On a well-formed frame [get_complete_cases] is idempotent:
    applying it to its own result, with the same columns, returns that
    result unchanged. *)
Theorem get_complete_cases_idempotent
    (df df' : Polars.DataFrame) (columns : option (list string)) :
  Spec.well_formed df ->
  CleanerChecks.get_complete_cases df columns = Ok df' ->
  CleanerChecks.get_complete_cases df' columns = Ok df'.
Proof.
  intros [Hnd Hun] H.
  pose proof (get_complete_cases_result df df' columns H) as [Hcols Hcomplete].
  assert (Hchecked : Cells.checked_columns df' columns = Cells.checked_columns df columns).
  { destruct columns as [[|c rest]|]; simpl; trivial. }
  assert (Hmask : exists m, df' = Polars.filter_rows m df
                            /\ (df = [] \/ List.length m = Polars.height df)
                            /\ forall c, In c (Cells.checked_columns df columns) ->
                                 Polars.has_column c df = true).
  { assert (Hdrop : Cells.checked_columns df columns = Polars.columns df ->
              exists m, PolarsExpr.drop_nulls df = Polars.filter_rows m df
                /\ (df = [] \/ List.length m = Polars.height df)
                /\ forall c, In c (Cells.checked_columns df columns) ->
                     Polars.has_column c df = true).
    { intros Heq. eexists. split; [reflexivity|]. split.
      - assert (Hcases : df = [] \/ df <> []) by (destruct df; [now left | now right]).
        destruct Hcases as [Hnil | Hcons]; [now left | right].
        apply all_horizontal_length.
        + intros Hmap. apply map_eq_nil in Hmap. contradiction.
        + intros m Hm. apply in_map_iff in Hm as ([c s] & <- & Hin).
          rewrite is_not_null_length. now apply (Hun c).
      - rewrite Heq. intros c Hc. unfold Polars.has_column. apply existsb_exists.
        exists c. split; [exact Hc | apply String.eqb_refl]. }
    destruct columns as [[|c0 rest]|].
    - destruct (Hdrop eq_refl) as (m & Hm). exists m.
      simpl in H. injection H as <-. exact Hm.
    - unfold CleanerChecks.get_complete_cases in H.
      destruct (PolarsExpr.not_null_masks (c0 :: rest) df) as [masks|e] eqn:Hm;
        [|discriminate].
      simpl in H. injection H as <-. eexists. split; [reflexivity|]. split.
      + right.
        destruct (not_null_masks_length _ _ _ (Polars.height df) Hun Hm) as [Hlen Hall].
        apply all_horizontal_length; [|exact Hall].
        destruct masks; [discriminate | discriminate].
      + intros c Hc. destruct (not_null_masks_member _ _ _ Hm c Hc) as (s & Hs & _).
        apply has_column_get. now exists s.
    - destruct (Hdrop eq_refl) as (m & Hm). exists m.
      simpl in H. injection H as <-. exact Hm. }
  destruct Hmask as (m & -> & Hlen & Hhas).
  destruct Hlen as [-> | Hlen].
  { destruct columns as [[|c rest]|]; try reflexivity.
    specialize (Hhas c (or_introl eq_refl)). discriminate. }
  apply (get_complete_cases_fixed _ _ (Polars.filter_height m)).
  - now rewrite columns_filter_rows.
  - now apply (filter_rows_uniform m df (Polars.height df)).
  - rewrite Hchecked. intros c Hc. rewrite has_column_filter_rows. now apply Hhas.
  - rewrite Hchecked. exact Hcomplete.
Qed.

(** The theorem on a frame with a null in each of two rows. *)
Lemma get_complete_cases_idempotent_witness :
  CleanerChecks.get_complete_cases
    [ ("country", Polars.StrSeries [Some "Chad"]);
      ("year", Polars.IntSeries [Some 2003]) ]
    (Some ["year"; "country"])
  = Ok [ ("country", Polars.StrSeries [Some "Chad"]);
         ("year", Polars.IntSeries [Some 2003]) ].
Proof.
  refine (get_complete_cases_idempotent
            [ ("country", Polars.StrSeries [Some "Brazil"; None; Some "Chad"]);
              ("year", Polars.IntSeries [None; Some 2002; Some 2003]) ]
            _ (Some ["year"; "country"]) _ eq_refl).
  split.
  - repeat constructor; simpl; intuition discriminate.
  - intros name s [[= <- <-] | [[= <- <-] | []]]; reflexivity.
Defined.

(** ** Capping impossible values *)

Lemma Zgtb_Qgtb (a b : Z) : Z.gtb a b = PolarsExpr.Qgtb (inject_Z a) (inject_Z b).
Proof.
  unfold PolarsExpr.Qgtb, Polars.Qltb, Qle_bool. simpl. rewrite !Z.mul_1_r.
  rewrite Z.gtb_ltb. apply Z.ltb_antisym.
Qed.

Lemma Qgtb_gt (a b : Q) : PolarsExpr.Qgtb a b = true <-> (b < a)%Q.
Proof.
  apply Qltb_lt.
Qed.

Lemma Qgtb_irrefl (a : Q) : PolarsExpr.Qgtb a a = false.
Proof.
  destruct (PolarsExpr.Qgtb a a) eqn:E; [|reflexivity].
  apply Qgtb_gt in E. exfalso. exact (Qlt_irrefl _ E).
Qed.

Lemma zip_cmp_to_float (x y : list (option Z)) :
  Polars.zip_with (PolarsExpr.cmp3 Z.gtb) x y
  = Polars.zip_with (PolarsExpr.cmp3 PolarsExpr.Qgtb)
      (PolarsExpr.to_float x) (PolarsExpr.to_float y).
Proof.
  revert y. induction x as [|a x IH]; intros [|b y]; simpl; trivial.
  rewrite IH. f_equal. destruct a, b; simpl; trivial. now rewrite Zgtb_Qgtb.
Qed.

Lemma gt_col_numeric (l e : Polars.series) :
  Validators.is_numeric l = true -> Validators.is_numeric e = true ->
  PolarsExpr.gt_col l e
  = Ok (Polars.zip_with (PolarsExpr.cmp3 PolarsExpr.Qgtb) (Cells.as_Q l) (Cells.as_Q e)).
Proof.
  destruct l, e; simpl; try discriminate; intros _ _; trivial.
  now rewrite zip_cmp_to_float.
Qed.

Lemma gt_lit_numeric (s : Polars.series) (n : Z) :
  Validators.is_numeric s = true ->
  PolarsExpr.gt_lit s n
  = Ok (map (option_map (fun q => PolarsExpr.Qgtb q (inject_Z n))) (Cells.as_Q s)).
Proof.
  destruct s; simpl; try discriminate; intros _; trivial.
  unfold PolarsExpr.to_float. rewrite map_map. f_equal.
  apply map_ext. intros [z|]; simpl; trivial. now rewrite Zgtb_Qgtb.
Qed.

Lemma is_not_null_numeric (s : Polars.series) :
  Validators.is_numeric s = true ->
  Polars.is_not_null s = map (fun c => Some (negb (Polars.is_null c))) (Cells.as_Q s).
Proof.
  destruct s; simpl; try discriminate; intros _; trivial.
  unfold PolarsExpr.to_float. rewrite map_map. apply map_ext. now intros [z|].
Qed.

Lemma exceeds_mask_fused (l e : list (option Q)) :
  Polars.mask_and
    (Polars.mask_and (Polars.zip_with (PolarsExpr.cmp3 PolarsExpr.Qgtb) l e)
       (map (option_map (fun q => PolarsExpr.Qgtb q (inject_Z 0))) e))
    (map (fun c => Some (negb (Polars.is_null c))) l)
  = Capping.exceeds_mask l e.
Proof.
  unfold Polars.mask_and, Capping.exceeds_mask.
  revert e. induction l as [|a l IH]; intros [|b e]; simpl; trivial.
  now rewrite IH.
Qed.

Lemma map_when_then_otherwise {A B : Type} (f : option A -> option B)
    (m : Polars.mask) (t o : list (option A)) :
  map f (Polars.when_then_otherwise m t o)
  = Polars.when_then_otherwise m (map f t) (map f o).
Proof.
  unfold Polars.when_then_otherwise.
  revert t o. induction m as [|b m IH]; intros [|tv t] [|ov o]; simpl; trivial.
  rewrite IH. now destruct (Polars.is_true b).
Qed.

Lemma when_then_col_numeric (m : Polars.mask) (t o : Polars.series) :
  Validators.is_numeric t = true -> Validators.is_numeric o = true ->
  exists s,
    PolarsExpr.when_then_col m t o = Ok s
    /\ Validators.is_numeric s = true
    /\ Cells.as_Q s = Polars.when_then_otherwise m (Cells.as_Q t) (Cells.as_Q o).
Proof.
  destruct t, o; simpl; try discriminate; intros _ _; eexists; repeat split.
  unfold PolarsExpr.to_float. apply map_when_then_otherwise.
Qed.

Lemma when_then_100_numeric (m : Polars.mask) (o : Polars.series) :
  Validators.is_numeric o = true ->
  exists s,
    PolarsExpr.when_then_100 m o = Ok s
    /\ Validators.is_numeric s = true
    /\ Cells.as_Q s
       = Polars.when_then_otherwise m (map (fun _ => Some 100%Q) (Cells.as_Q o))
           (Cells.as_Q o).
Proof.
  destruct o; simpl; try discriminate; intros _; eexists; repeat split.
  unfold PolarsExpr.to_float. now rewrite map_map.
Qed.

Lemma exceeds_bit_capped (a e : option Q) :
  Polars.is_true
    (Capping.exceeds_bit (if Polars.is_true (Capping.exceeds_bit a e) then e else a) e)
  = false.
Proof.
  destruct (Polars.is_true (Capping.exceeds_bit a e)) eqn:E; [|exact E].
  destruct e as [y|]; [|destruct a; discriminate].
  unfold Capping.exceeds_bit. simpl. now rewrite Qgtb_irrefl.
Qed.

Lemma exceeds_mask_capped (l e : list (option Q)) :
  Polars.filter_height
    (Capping.exceeds_mask
       (Polars.when_then_otherwise (Capping.exceeds_mask l e) e l) e) = O.
Proof.
  unfold Polars.filter_height, Capping.exceeds_mask, Polars.when_then_otherwise.
  revert e. induction l as [|a l IH]; intros [|b e]; simpl; trivial.
  rewrite exceeds_bit_capped. apply IH.
Qed.

Lemma filter_height_cons (b : option bool) (m : Polars.mask) :
  Polars.filter_height (b :: m) = O ->
  Polars.is_true b = false /\ Polars.filter_height m = O.
Proof.
  unfold Polars.filter_height. simpl. destruct (Polars.is_true b); simpl; [discriminate|].
  now split.
Qed.

Lemma exceeds_mask_none (l e : list (option Q)) :
  Polars.filter_height (Capping.exceeds_mask l e) = O ->
  forall i a b,
    nth_error l i = Some (Some a) -> nth_error e i = Some (Some b) ->
    (0 < b)%Q -> (a <= b)%Q.
Proof.
  unfold Capping.exceeds_mask.
  revert e. induction l as [|x l IH]; intros [|y e] H [|i] a b Hl He Hpos;
    simpl in *; try discriminate.
  - injection Hl as ->. injection He as ->.
    apply filter_height_cons in H as [Hbit _].
    apply Qnot_lt_le. intros Hlt.
    unfold Capping.exceeds_bit in Hbit. simpl in Hbit.
    apply Qgtb_gt in Hlt. apply Qgtb_gt in Hpos. rewrite Hlt, Hpos in Hbit. discriminate.
  - apply filter_height_cons in H as [_ H]. exact (IH e H i a b Hl He Hpos).
Qed.

Lemma rate_mask_capped (r : list (option Q)) :
  Polars.filter_height
    (Capping.rate_mask
       (Polars.when_then_otherwise (Capping.rate_mask r)
          (map (fun _ => Some 100%Q) r) r)) = O.
Proof.
  unfold Polars.filter_height, Capping.rate_mask, Polars.when_then_otherwise.
  induction r as [|[q|] r IH]; simpl; trivial.
  destruct (PolarsExpr.Qgtb q 100) eqn:E; simpl; [exact IH | now rewrite E].
Qed.

Lemma rate_mask_none (r : list (option Q)) :
  Polars.filter_height (Capping.rate_mask r) = O ->
  forall i a, nth_error r i = Some (Some a) -> (a <= 100)%Q.
Proof.
  unfold Capping.rate_mask.
  induction r as [|x r IH]; intros H [|i] a Hr; simpl in *; try discriminate.
  - injection Hr as ->. apply filter_height_cons in H as [Hbit _]. simpl in Hbit.
    apply Qnot_lt_le. intros Hlt. apply Qgtb_gt in Hlt. rewrite Hlt in Hbit. discriminate.
  - apply filter_height_cons in H as [_ H]. exact (IH H i a Hr).
Qed.

Lemma cell_at_nth (s : Polars.series) (i : nat) (a : Q) :
  Cells.cell_at s i = Some a -> nth_error (Cells.as_Q s) i = Some (Some a).
Proof.
  unfold Cells.cell_at. destruct (nth_error (Cells.as_Q s) i) as [c|]; [|discriminate].
  now intros ->.
Qed.

Lemma gt_lit_ok_numeric (s : Polars.series) (n : Z) (m : Polars.mask) :
  PolarsExpr.gt_lit s n = Ok m -> Validators.is_numeric s = true.
Proof.
  destruct s; simpl; trivial; discriminate.
Qed.

Lemma gt_col_ok_numeric (l e : Polars.series) (m : Polars.mask) :
  PolarsExpr.gt_col l e = Ok m -> Validators.is_numeric e = true ->
  Validators.is_numeric l = true.
Proof.
  destruct l, e; simpl; trivial; discriminate.
Qed.

Lemma cap_loss_at_extent_spec (df df1 : Polars.DataFrame) (n n1 : Z) :
  CleanerChecks.cap_loss_at_extent df n = Ok (df1, n1) ->
  Capping.loss_settled df1
  /\ (n <= n1)%Z
  /\ (n1 = n -> df1 = df)
  /\ forall c, String.eqb c "tree_cover_loss_ha" = false ->
       Polars.get_column c df1 = Polars.get_column c df.
Proof.
  unfold CleanerChecks.cap_loss_at_extent, Capping.loss_settled.
  destruct (Polars.has_column "tree_cover_loss_ha" df
            && Polars.has_column "extent_2000_ha" df)%bool eqn:Hhas.
  - destruct (Polars.get_column "tree_cover_loss_ha" df) as [l|] eqn:Hl;
      [|intros [= <- <-]; rewrite Hl; repeat split; trivial; lia].
    destruct (Polars.get_column "extent_2000_ha" df) as [e|] eqn:He;
      [|intros [= <- <-]; rewrite Hl, He; repeat split; trivial; lia].
    destruct (PolarsExpr.gt_col l e) as [exceeds|err] eqn:Hgt; [|discriminate].
    destruct (PolarsExpr.gt_lit e 0) as [positive|err] eqn:Hpos; [|discriminate].
    cbn [bind].
    pose proof (gt_lit_ok_numeric _ _ _ Hpos) as Hnum_e.
    pose proof (gt_col_ok_numeric _ _ _ Hgt Hnum_e) as Hnum_l.
    rewrite (gt_col_numeric l e Hnum_l Hnum_e) in Hgt. injection Hgt as <-.
    rewrite (gt_lit_numeric e 0 Hnum_e) in Hpos. injection Hpos as <-.
    rewrite (is_not_null_numeric l Hnum_l), exceeds_mask_fused.
    destruct (0 <? _)%nat eqn:Hcount.
    + destruct (when_then_col_numeric
                  (Capping.exceeds_mask (Cells.as_Q l) (Cells.as_Q e)) e l Hnum_e Hnum_l)
        as (s & -> & Hnum_s & Hs).
      cbn [bind]. intros [= <- <-]. rewrite !get_with_column. simpl String.eqb.
      rewrite He. apply Nat.ltb_lt in Hcount. repeat split; trivial.
      * rewrite Hs. apply exceeds_mask_capped.
      * lia.
      * intros Heq. lia.
      * intros c Hc. rewrite get_with_column. now rewrite Hc.
    + intros [= <- <-]. rewrite Hl, He. apply Nat.ltb_ge in Hcount.
      repeat split; trivial; lia.
  - intros [= <- <-]. apply andb_false_iff in Hhas.
    destruct Hhas as [H | H]; apply has_column_false_get in H; rewrite H.
    + repeat split; trivial; lia.
    + destruct (Polars.get_column "tree_cover_loss_ha" df); repeat split; trivial; lia.
Qed.

Lemma cap_loss_at_extent_quiet (df : Polars.DataFrame) (n : Z) :
  Capping.loss_settled df -> CleanerChecks.cap_loss_at_extent df n = Ok (df, n).
Proof.
  unfold CleanerChecks.cap_loss_at_extent, Capping.loss_settled.
  destruct (Polars.has_column "tree_cover_loss_ha" df
            && Polars.has_column "extent_2000_ha" df)%bool; [|reflexivity].
  destruct (Polars.get_column "tree_cover_loss_ha" df) as [l|]; [|reflexivity].
  destruct (Polars.get_column "extent_2000_ha" df) as [e|]; [|reflexivity].
  intros (Hnum_l & Hnum_e & Hcount).
  rewrite (gt_col_numeric l e Hnum_l Hnum_e), (gt_lit_numeric e 0 Hnum_e).
  cbn [bind]. rewrite (is_not_null_numeric l Hnum_l), exceeds_mask_fused.
  now rewrite Hcount.
Qed.

Lemma cap_loss_rate_spec (df df1 : Polars.DataFrame) (n n1 : Z) :
  CleanerChecks.cap_loss_rate df n = Ok (df1, n1) ->
  Capping.rate_settled df1
  /\ (n <= n1)%Z
  /\ (n1 = n -> df1 = df)
  /\ forall c, String.eqb c "loss_rate_pct" = false ->
       Polars.get_column c df1 = Polars.get_column c df.
Proof.
  unfold CleanerChecks.cap_loss_rate, Capping.rate_settled.
  destruct (Polars.has_column "loss_rate_pct" df) eqn:Hhas.
  - destruct (Polars.get_column "loss_rate_pct" df) as [r|] eqn:Hr;
      [|intros [= <- <-]; rewrite Hr; repeat split; trivial; lia].
    destruct (PolarsExpr.gt_lit r 100) as [mask|err] eqn:Hgt; [|discriminate].
    cbn [bind].
    pose proof (gt_lit_ok_numeric _ _ _ Hgt) as Hnum.
    rewrite (gt_lit_numeric r 100 Hnum) in Hgt. injection Hgt as <-.
    change (map (option_map (fun q => PolarsExpr.Qgtb q (inject_Z 100))) (Cells.as_Q r))
      with (Capping.rate_mask (Cells.as_Q r)).
    destruct (0 <? _)%nat eqn:Hcount.
    + destruct (when_then_100_numeric (Capping.rate_mask (Cells.as_Q r)) r Hnum)
        as (s & -> & Hnum_s & Hs).
      cbn [bind]. intros [= <- <-]. rewrite get_with_column. simpl String.eqb.
      apply Nat.ltb_lt in Hcount. repeat split; trivial.
      * rewrite Hs. apply rate_mask_capped.
      * lia.
      * intros Heq. lia.
      * intros c Hc. rewrite get_with_column. now rewrite Hc.
    + intros [= <- <-]. rewrite Hr. apply Nat.ltb_ge in Hcount.
      repeat split; trivial; lia.
  - intros [= <- <-]. apply has_column_false_get in Hhas. rewrite Hhas.
    repeat split; trivial; lia.
Qed.

Lemma cap_loss_rate_quiet (df : Polars.DataFrame) (n : Z) :
  Capping.rate_settled df -> CleanerChecks.cap_loss_rate df n = Ok (df, n).
Proof.
  unfold CleanerChecks.cap_loss_rate, Capping.rate_settled.
  destruct (Polars.has_column "loss_rate_pct" df); [|reflexivity].
  destruct (Polars.get_column "loss_rate_pct" df) as [r|]; [|reflexivity].
  intros (Hnum & Hcount). rewrite (gt_lit_numeric r 100 Hnum). cbn [bind].
  change (map (option_map (fun q => PolarsExpr.Qgtb q (inject_Z 100))) (Cells.as_Q r))
    with (Capping.rate_mask (Cells.as_Q r)).
  now rewrite Hcount.
Qed.

(** What [cap_impossible_values] returns: a frame in which nothing is
    left to cap, and a count that is zero only when the frame is the
    input. *)
Lemma cap_impossible_values_settles
    (self stats : DataCleaner.cleaning_stats) (df df' : Polars.DataFrame) :
  CleanerChecks.cap_impossible_values self df = Ok (df', stats) ->
  Capping.loss_settled df' /\ Capping.rate_settled df'
  /\ (0 <= DataCleaner.impossible_values_capped stats)%Z
  /\ (DataCleaner.impossible_values_capped stats = 0%Z -> df' = df).
Proof.
  unfold CleanerChecks.cap_impossible_values.
  destruct (CleanerChecks.cap_loss_at_extent df 0) as [[df1 n1]|e] eqn:H1; [|discriminate].
  cbn [bind].
  destruct (CleanerChecks.cap_loss_rate df1 n1) as [[df2 n2]|e] eqn:H2; [|discriminate].
  cbn [bind]. intros [= <- <-]. cbn [DataCleaner.impossible_values_capped].
  apply cap_loss_at_extent_spec in H1 as (Hloss & Hle1 & Hsame1 & _).
  apply cap_loss_rate_spec in H2 as (Hrate & Hle2 & Hsame2 & Hkeep).
  repeat split; trivial; [|lia|].
  - unfold Capping.loss_settled in *. now rewrite !Hkeep by reflexivity.
  - intros ->. assert (n1 = 0%Z) by lia. subst n1.
    rewrite Hsame2 by reflexivity. now apply Hsame1.
Qed.

(** X8.  In the frame returned by [cap_impossible_values], no loss
    exceeds a positive extent in the same row, and no loss rate exceeds
    100. *)
Theorem cap_impossible_values_bounds
    (self stats : DataCleaner.cleaning_stats) (df df' : Polars.DataFrame) :
  CleanerChecks.cap_impossible_values self df = Ok (df', stats) ->
  (forall loss extent i a b,
      Polars.get_column "tree_cover_loss_ha" df' = Some loss ->
      Polars.get_column "extent_2000_ha" df' = Some extent ->
      Cells.cell_at loss i = Some a -> Cells.cell_at extent i = Some b ->
      (0 < b)%Q -> (a <= b)%Q)
  /\ (forall rate i a,
        Polars.get_column "loss_rate_pct" df' = Some rate ->
        Cells.cell_at rate i = Some a -> (a <= 100)%Q).
Proof.
  intros H. apply cap_impossible_values_settles in H as (Hloss & Hrate & _).
  unfold Capping.loss_settled, Capping.rate_settled in *. split.
  - intros loss extent i a b Hl He Ha Hb Hpos. rewrite Hl, He in Hloss.
    destruct Hloss as (_ & _ & Hcount).
    exact (exceeds_mask_none _ _ Hcount i a b (cell_at_nth _ _ _ Ha) (cell_at_nth _ _ _ Hb)
             Hpos).
  - intros rate i a Hr Ha. rewrite Hr in Hrate. destruct Hrate as (_ & Hcount).
    exact (rate_mask_none _ Hcount i a (cell_at_nth _ _ _ Ha)).
Qed.

(** The theorem on a frame with a loss above the extent and a loss rate
    above 100 in its first row. *)
Lemma cap_impossible_values_bounds_witness :
  (forall loss extent i a b,
      Polars.get_column "tree_cover_loss_ha"
        [ ("tree_cover_loss_ha", Polars.FloatSeries [Some 100%Q; Some 50%Q]);
          ("extent_2000_ha", Polars.FloatSeries [Some 100%Q; Some 100%Q]);
          ("loss_rate_pct", Polars.FloatSeries [Some 100%Q; Some 50%Q]) ] = Some loss ->
      Polars.get_column "extent_2000_ha"
        [ ("tree_cover_loss_ha", Polars.FloatSeries [Some 100%Q; Some 50%Q]);
          ("extent_2000_ha", Polars.FloatSeries [Some 100%Q; Some 100%Q]);
          ("loss_rate_pct", Polars.FloatSeries [Some 100%Q; Some 50%Q]) ] = Some extent ->
      Cells.cell_at loss i = Some a -> Cells.cell_at extent i = Some b ->
      (0 < b)%Q -> (a <= b)%Q)
  /\ (forall rate i a,
        Polars.get_column "loss_rate_pct"
          [ ("tree_cover_loss_ha", Polars.FloatSeries [Some 100%Q; Some 50%Q]);
            ("extent_2000_ha", Polars.FloatSeries [Some 100%Q; Some 100%Q]);
            ("loss_rate_pct", Polars.FloatSeries [Some 100%Q; Some 50%Q]) ] = Some rate ->
        Cells.cell_at rate i = Some a -> (a <= 100)%Q).
Proof.
  exact (cap_impossible_values_bounds DataCleaner.init_stats
           (DataCleaner.mkStats 0 0 2 0)
           [ ("tree_cover_loss_ha", Polars.IntSeries [Some 150; Some 50]);
             ("extent_2000_ha", Polars.FloatSeries [Some 100%Q; Some 100%Q]);
             ("loss_rate_pct", Polars.IntSeries [Some 150; Some 50]) ]
           _ eq_refl).
Defined.

(** X9.  A second run of [cap_impossible_values] changes nothing: on the
    frame returned by a first run it returns that frame and the count
    zero. *)
Theorem cap_impossible_values_twice
    (self stats self' : DataCleaner.cleaning_stats) (df df' : Polars.DataFrame) :
  CleanerChecks.cap_impossible_values self df = Ok (df', stats) ->
  CleanerChecks.cap_impossible_values self' df'
  = Ok (df', DataCleaner.mkStats (DataCleaner.countries_standardized self')
               (DataCleaner.negative_values_fixed self') 0
               (DataCleaner.duplicates_removed self')).
Proof.
  intros H. apply cap_impossible_values_settles in H as (Hloss & Hrate & _).
  unfold CleanerChecks.cap_impossible_values.
  rewrite (cap_loss_at_extent_quiet df' 0 Hloss). cbn [bind].
  now rewrite (cap_loss_rate_quiet df' 0 Hrate).
Qed.

(** The theorem on a frame with a loss above the extent and a loss rate
    above 100 in its first row. *)
Lemma cap_impossible_values_twice_witness :
  CleanerChecks.cap_impossible_values (DataCleaner.mkStats 0 0 2 0)
    [ ("tree_cover_loss_ha", Polars.IntSeries [Some 100; Some 50]);
      ("extent_2000_ha", Polars.IntSeries [Some 100; Some 100]);
      ("loss_rate_pct", Polars.FloatSeries [Some 100%Q; Some 50%Q]) ]
  = Ok ([ ("tree_cover_loss_ha", Polars.IntSeries [Some 100; Some 50]);
          ("extent_2000_ha", Polars.IntSeries [Some 100; Some 100]);
          ("loss_rate_pct", Polars.FloatSeries [Some 100%Q; Some 50%Q]) ],
        DataCleaner.mkStats 0 0 0 0).
Proof.
  exact (cap_impossible_values_twice DataCleaner.init_stats
           (DataCleaner.mkStats 0 0 2 0) (DataCleaner.mkStats 0 0 2 0)
           [ ("tree_cover_loss_ha", Polars.IntSeries [Some 150; Some 50]);
             ("extent_2000_ha", Polars.IntSeries [Some 100; Some 100]);
             ("loss_rate_pct", Polars.FloatSeries [Some 150%Q; Some 50%Q]) ]
           _ eq_refl).
Defined.

Lemma exceeds_bit_true (a e : option Q) :
  Polars.is_true (Capping.exceeds_bit a e) = true -> a <> e.
Proof.
  intros H ->. destruct e as [y|]; [|discriminate].
  unfold Capping.exceeds_bit in H. simpl in H. rewrite Qgtb_irrefl in H. discriminate.
Qed.

Lemma exceeds_mask_changes (l e : list (option Q)) :
  Polars.filter_height (Capping.exceeds_mask l e) <> O ->
  Polars.when_then_otherwise (Capping.exceeds_mask l e) e l <> l.
Proof.
  unfold Polars.filter_height, Capping.exceeds_mask, Polars.when_then_otherwise.
  revert e. induction l as [|a l IH]; intros [|b e]; simpl; try congruence.
  destruct (Polars.is_true (Capping.exceeds_bit a b)) eqn:E; simpl.
  - intros _ [= Hhead _]. symmetry in Hhead. exact (exceeds_bit_true a b E Hhead).
  - intros H [= Htail]. exact (IH e H Htail).
Qed.

Lemma rate_mask_changes (r : list (option Q)) :
  Polars.filter_height (Capping.rate_mask r) <> O ->
  Polars.when_then_otherwise (Capping.rate_mask r) (map (fun _ => Some 100%Q) r) r <> r.
Proof.
  unfold Polars.filter_height, Capping.rate_mask, Polars.when_then_otherwise.
  induction r as [|[q|] r IH]; simpl; try congruence.
  - destruct (PolarsExpr.Qgtb q 100) eqn:E; simpl.
    + intros _ [= Hhead _]. rewrite <- Hhead in E.
      change (PolarsExpr.Qgtb 100 100 = true) in E. discriminate.
    + intros H [= Htail]. exact (IH H Htail).
  - intros H [= Htail]. exact (IH H Htail).
Qed.

Lemma cap_loss_at_extent_changes (df df1 : Polars.DataFrame) (n n1 : Z) :
  CleanerChecks.cap_loss_at_extent df n = Ok (df1, n1) ->
  Polars.get_column "tree_cover_loss_ha" df1 = Polars.get_column "tree_cover_loss_ha" df ->
  n1 = n.
Proof.
  unfold CleanerChecks.cap_loss_at_extent.
  destruct (Polars.has_column "tree_cover_loss_ha" df
            && Polars.has_column "extent_2000_ha" df)%bool; [|congruence].
  destruct (Polars.get_column "tree_cover_loss_ha" df) as [l|] eqn:Hl; [|congruence].
  destruct (Polars.get_column "extent_2000_ha" df) as [e|] eqn:He; [|congruence].
  destruct (PolarsExpr.gt_col l e) as [exceeds|err] eqn:Hgt; [|discriminate].
  destruct (PolarsExpr.gt_lit e 0) as [positive|err] eqn:Hpos; [|discriminate].
  cbn [bind].
  pose proof (gt_lit_ok_numeric _ _ _ Hpos) as Hnum_e.
  pose proof (gt_col_ok_numeric _ _ _ Hgt Hnum_e) as Hnum_l.
  rewrite (gt_col_numeric l e Hnum_l Hnum_e) in Hgt. injection Hgt as <-.
  rewrite (gt_lit_numeric e 0 Hnum_e) in Hpos. injection Hpos as <-.
  rewrite (is_not_null_numeric l Hnum_l), exceeds_mask_fused.
  destruct (0 <? _)%nat eqn:Hcount; [|congruence].
  destruct (when_then_col_numeric
              (Capping.exceeds_mask (Cells.as_Q l) (Cells.as_Q e)) e l Hnum_e Hnum_l)
    as (s & -> & _ & Hs).
  cbn [bind]. intros [= <- <-]. rewrite get_with_column. simpl String.eqb.
  intros [= ->]. exfalso. apply Nat.ltb_lt in Hcount.
  apply (exceeds_mask_changes (Cells.as_Q l) (Cells.as_Q e)); [lia | now symmetry].
Qed.

Lemma cap_loss_rate_changes (df df1 : Polars.DataFrame) (n n1 : Z) :
  CleanerChecks.cap_loss_rate df n = Ok (df1, n1) ->
  Polars.get_column "loss_rate_pct" df1 = Polars.get_column "loss_rate_pct" df ->
  n1 = n.
Proof.
  unfold CleanerChecks.cap_loss_rate.
  destruct (Polars.has_column "loss_rate_pct" df); [|congruence].
  destruct (Polars.get_column "loss_rate_pct" df) as [r|] eqn:Hr; [|congruence].
  destruct (PolarsExpr.gt_lit r 100) as [mask|err] eqn:Hgt; [|discriminate].
  cbn [bind].
  pose proof (gt_lit_ok_numeric _ _ _ Hgt) as Hnum.
  rewrite (gt_lit_numeric r 100 Hnum) in Hgt. injection Hgt as <-.
  change (map (option_map (fun q => PolarsExpr.Qgtb q (inject_Z 100))) (Cells.as_Q r))
    with (Capping.rate_mask (Cells.as_Q r)).
  destruct (0 <? _)%nat eqn:Hcount; [|congruence].
  destruct (when_then_100_numeric (Capping.rate_mask (Cells.as_Q r)) r Hnum)
    as (s & -> & _ & Hs).
  cbn [bind]. intros [= <- <-]. rewrite get_with_column. simpl String.eqb.
  intros [= ->]. exfalso. apply Nat.ltb_lt in Hcount.
  apply (rate_mask_changes (Cells.as_Q r)); [lia | now symmetry].
Qed.

(** X10.  The statistic [impossible_values_capped] that
    [cap_impossible_values] records is never negative, and it is zero
    exactly when the returned frame is the input frame. *)
Theorem cap_impossible_values_count
    (self stats : DataCleaner.cleaning_stats) (df df' : Polars.DataFrame) :
  CleanerChecks.cap_impossible_values self df = Ok (df', stats) ->
  (0 <= DataCleaner.impossible_values_capped stats)%Z
  /\ (DataCleaner.impossible_values_capped stats = 0%Z <-> df' = df).
Proof.
  intros H. pose proof (cap_impossible_values_settles _ _ _ _ H) as (_ & _ & Hpos & Hzero).
  split; [exact Hpos|]. split; [exact Hzero|]. intros ->.
  unfold CleanerChecks.cap_impossible_values in H.
  destruct (CleanerChecks.cap_loss_at_extent df 0) as [[df1 n1]|e] eqn:H1; [|discriminate].
  cbn [bind] in H.
  destruct (CleanerChecks.cap_loss_rate df1 n1) as [[df2 n2]|e] eqn:H2; [|discriminate].
  cbn [bind] in H. injection H as -> <-. cbn [DataCleaner.impossible_values_capped].
  pose proof (cap_loss_at_extent_spec _ _ _ _ H1) as (_ & _ & _ & Hkeep1).
  pose proof (cap_loss_rate_spec _ _ _ _ H2) as (_ & _ & _ & Hkeep2).
  assert (n1 = 0%Z).
  { apply (cap_loss_at_extent_changes _ _ _ _ H1). now rewrite <- Hkeep2. }
  subst n1. apply (cap_loss_rate_changes _ _ _ _ H2). now rewrite Hkeep1.
Qed.

(** The theorem on a frame with one loss above the extent. *)
Lemma cap_impossible_values_count_witness :
  (0 <= 1)%Z
  /\ (1%Z = 0%Z <->
      [ ("tree_cover_loss_ha", Polars.IntSeries [Some 100; Some 50]);
        ("extent_2000_ha", Polars.IntSeries [Some 100; Some 100]) ]
      = [ ("tree_cover_loss_ha", Polars.IntSeries [Some 150; Some 50]);
          ("extent_2000_ha", Polars.IntSeries [Some 100; Some 100]) ]).
Proof.
  exact (cap_impossible_values_count DataCleaner.init_stats
           (DataCleaner.mkStats 0 0 1 0)
           [ ("tree_cover_loss_ha", Polars.IntSeries [Some 150; Some 50]);
             ("extent_2000_ha", Polars.IntSeries [Some 100; Some 100]) ]
           _ eq_refl).
Defined.

(** ** What [check_negative_values] reports *)

Lemma negative_count_positive (s : Polars.series) (negative : Polars.mask) :
  Polars.lt_lit s 0 = Ok negative ->
  (0 <? Polars.filter_height (Polars.mask_and negative (Polars.is_not_null s)))%nat
  = Props.has_negative s.
Proof.
  destruct s as [vals | vals | vals]; simpl; intros [= <-];
    unfold Polars.filter_height, Polars.mask_and.
  - induction vals as [|[z|] vals IH]; simpl; trivial.
    destruct (Z.ltb z 0); simpl; trivial.
  - change (inject_Z 0) with 0%Q.
    induction vals as [|[q|] vals IH]; simpl; trivial.
    destruct (Polars.Qltb q 0); simpl; trivial.
Qed.

Lemma check_negative_loop_spec (columns : list string) (df : Polars.DataFrame) :
  forall acc,
    match ValidatorChecks.check_negative_loop columns df acc with
    | Ok found =>
        found = (acc ++ filter (Props.reported df) columns)%list
        /\ ~ Spec.blocked columns df
    | Raise _ => Spec.blocked columns df
    end.
Proof.
  induction columns as [|col rest IH]; intros acc.
  - simpl. split; [now rewrite app_nil_r | intros (c & vals & [] & _)].
  - cbn [ValidatorChecks.check_negative_loop filter]. unfold Props.reported at 1.
    fold (Spec.may_be_negative col).
    assert (Hskip : Polars.get_column col df = None \/ Spec.may_be_negative col = true ->
              match ValidatorChecks.check_negative_loop rest df acc with
              | Ok found =>
                  found = (acc ++ filter (Props.reported df) rest)%list
                  /\ ~ Spec.blocked (col :: rest) df
              | Raise _ => Spec.blocked (col :: rest) df
              end).
    { intros Hcase. specialize (IH acc).
      destruct (ValidatorChecks.check_negative_loop rest df acc) as [found|e];
        [|now apply blocked_cons].
      destruct IH as [-> Hnb]. split; [reflexivity|].
      intros (c & vals & [<- | Hin] & Hneg & Hget).
      - destruct Hcase; congruence.
      - apply Hnb. now exists c, vals. }
    destruct (Polars.has_column col df) eqn:Hhas; cbn [negb].
    + destruct (Spec.may_be_negative col) eqn:Hexempt; cbn [negb andb].
      * apply Hskip. now right.
      * apply has_column_get in Hhas as (s & Hs). rewrite Hs.
        destruct (Polars.lt_lit s 0) as [negative|e] eqn:Hlt; cbn [bind].
        -- rewrite (negative_count_positive s negative Hlt).
           assert (Hnum : forall v, s <> Polars.StrSeries v) by (intros v ->; discriminate).
           assert (Hnb : ~ Spec.blocked rest df -> ~ Spec.blocked (col :: rest) df).
           { intros Hnb (c & vals & [<- | Hin] & Hneg & Hget).
             - rewrite Hs in Hget. injection Hget as ->. exact (Hnum vals eq_refl).
             - apply Hnb. now exists c, vals. }
           destruct (Props.has_negative s).
           ++ specialize (IH (append acc col)).
              destruct (ValidatorChecks.check_negative_loop rest df (append acc col))
                as [found|e']; [|now apply blocked_cons].
              destruct IH as [-> Hrest]. split; [|now apply Hnb].
              unfold append. now rewrite <- app_assoc.
           ++ specialize (IH acc).
              destruct (ValidatorChecks.check_negative_loop rest df acc)
                as [found|e']; [|now apply blocked_cons].
              destruct IH as [-> Hrest]. split; [reflexivity | now apply Hnb].
        -- apply lt_lit_raises in Hlt as (vals & ->).
           exists col, vals. repeat split; trivial. now left.
    + apply has_column_false_get in Hhas. rewrite Hhas.
      replace (negb (Spec.may_be_negative col) && false)%bool with false
        by now destruct (Spec.may_be_negative col).
      apply Hskip. now left.
Qed.

(** X11.  [check_negative_values] returns, in the order given, exactly
    the listed columns that are in the frame, are not exempt by name
    ([net_flux], [removals]) and hold a negative value; it raises exactly
    when a listed, non-exempt column of the frame is a string column. *)
Theorem check_negative_values_reports (df : Polars.DataFrame) (columns : list string) :
  match ValidatorChecks.check_negative_values df columns with
  | Ok found => found = filter (Props.reported df) columns /\ ~ Spec.blocked columns df
  | Raise _ => Spec.blocked columns df
  end.
Proof.
  exact (check_negative_loop_spec columns df []).
Qed.

(** ** The range of the completeness scores *)

Lemma Q_of_nat_le (a b : nat) : (a <= b)%nat -> (Loaders.Q_of_nat a <= Loaders.Q_of_nat b)%Q.
Proof.
  intros H. unfold Loaders.Q_of_nat. rewrite <- Zle_Qle. lia.
Qed.

Lemma Q_of_nat_pos (a : nat) : a <> O -> (0 < Loaders.Q_of_nat a)%Q.
Proof.
  intros H. unfold Loaders.Q_of_nat. change 0%Q with (inject_Z 0). rewrite <- Zlt_Qlt. lia.
Qed.

Lemma non_null_cells_le (l : list Polars.series) :
  (Spec.non_null_cells l <= Spec.cells l)%nat.
Proof.
  pose proof (non_null_cells_sub l). lia.
Qed.

Lemma non_null_fraction_bounds (l : list Polars.series) :
  Spec.cells l <> O ->
  (0 <= Spec.non_null_fraction l)%Q /\ (Spec.non_null_fraction l <= 1)%Q.
Proof.
  intros Hcells. unfold Spec.non_null_fraction.
  pose proof (Q_of_nat_pos _ Hcells) as Hpos. split.
  - apply Qle_shift_div_l; [exact Hpos|]. rewrite Qmult_0_l.
    change 0%Q with (Loaders.Q_of_nat 0). apply Q_of_nat_le. lia.
  - apply Qle_shift_div_r; [exact Hpos|]. rewrite Qmult_1_l.
    apply Q_of_nat_le, non_null_cells_le.
Qed.

(** X12.  On a well-formed frame both completeness scores, the one of
    the ingestion stage and the one of the post-transform stage, lie
    between 0 and 1. *)
Theorem completeness_scores_in_unit_interval (df : Polars.DataFrame) :
  Spec.well_formed df ->
  (0 <= Loaders.check_data_completeness df <= 1)%Q
  /\ (0 <= Validators.check_data_completeness df <= 1)%Q.
Proof.
  intros Hwf.
  destruct (loaders_completeness df Hwf) as [Hl Hl0].
  destruct (validators_completeness df Hwf) as (Hv & Hv1 & Hv0).
  destruct (Nat.eq_dec (Spec.cells (Spec.all_columns df)) O) as [Hall | Hall].
  - rewrite (Hl0 Hall), (Hv0 Hall). repeat split; discriminate.
  - split.
    + rewrite (Hl Hall). apply non_null_fraction_bounds, Hall.
    + destruct (Nat.eq_dec (Spec.cells (Spec.numeric_columns df)) O) as [Hnum | Hnum].
      * rewrite (Hv1 Hall Hnum). split; discriminate.
      * rewrite (Hv Hnum). apply non_null_fraction_bounds, Hnum.
Qed.

(** The theorem on a frame with one null among four cells. *)
Lemma completeness_scores_in_unit_interval_witness :
  (0 <= Loaders.check_data_completeness Spec.sample_null_in_text <= 1)%Q
  /\ (0 <= Validators.check_data_completeness Spec.sample_null_in_text <= 1)%Q.
Proof.
  apply (completeness_scores_in_unit_interval Spec.sample_null_in_text).
  split.
  - repeat constructor; simpl; intuition discriminate.
  - intros name s [[= <- <-] | [[= <- <-] | []]]; reflexivity.
Defined.

Lemma list_sum_zero (l : list nat) : list_sum l = O <-> forall n, In n l -> n = O.
Proof.
  induction l as [|a l IH]; simpl.
  - split; [intros _ n [] | reflexivity].
  - split.
    + intros H n [<- | Hin]; [lia | apply IH; [lia | exact Hin]].
    + intros H. rewrite (H a (or_introl eq_refl)). apply IH. intros n Hn. apply H. now right.
Qed.

Lemma non_null_fraction_one (l : list Polars.series) :
  Spec.cells l <> O ->
  (Spec.non_null_fraction l == 1)%Q <-> forall s, In s l -> Polars.null_count s = O.
Proof.
  intros Hcells. unfold Spec.non_null_fraction.
  pose proof (Q_of_nat_pos _ Hcells) as Hpos.
  assert (Hne : ~ (Loaders.Q_of_nat (Spec.cells l) == 0)%Q).
  { intros H. rewrite H in Hpos. exact (Qlt_irrefl _ Hpos). }
  pose proof (non_null_cells_sub l) as Hsum.
  assert (Hzero : list_sum (map Polars.null_count l) = O
                  <-> forall s, In s l -> Polars.null_count s = O).
  { rewrite list_sum_zero. split.
    - intros H s Hs. apply H. apply in_map_iff. now exists s.
    - intros H n Hn. apply in_map_iff in Hn as (s & <- & Hs). now apply H. }
  rewrite <- Hzero. split.
  - intros H.
    assert (Heq : (Loaders.Q_of_nat (Spec.non_null_cells l)
                   == Loaders.Q_of_nat (Spec.cells l))%Q).
    { pose proof (Qmult_div_r (Loaders.Q_of_nat (Spec.non_null_cells l))
                    (Loaders.Q_of_nat (Spec.cells l)) Hne) as Hdiv.
      eapply Qeq_trans; [symmetry; exact Hdiv|].
      eapply Qeq_trans; [apply Qmult_comp; [reflexivity | exact H]|].
      apply Qmult_1_r. }
    unfold Loaders.Q_of_nat in Heq. apply (proj1 (inject_Z_injective _ _)) in Heq. lia.
  - intros H. replace (Spec.non_null_cells l) with (Spec.cells l) by lia.
    field. exact Hne.
Qed.

(** X13.  On a well-formed frame with at least one cell, the ingestion
    score is 1 exactly when no column holds a null, and the
    post-transform score is 1 exactly when no numeric column holds a
    null. *)
Theorem completeness_one_iff_no_nulls (df : Polars.DataFrame) :
  Spec.well_formed df ->
  Spec.cells (Spec.all_columns df) <> O ->
  ((Loaders.check_data_completeness df == 1)%Q
   <-> forall s, In s (Spec.all_columns df) -> Polars.null_count s = O)
  /\ ((Validators.check_data_completeness df == 1)%Q
      <-> forall s, In s (Spec.numeric_columns df) -> Polars.null_count s = O).
Proof.
  intros Hwf Hall.
  destruct (loaders_completeness df Hwf) as [Hl _].
  destruct (validators_completeness df Hwf) as (Hv & Hv1 & _).
  split.
  - rewrite (Hl Hall). now apply non_null_fraction_one.
  - destruct (Nat.eq_dec (Spec.cells (Spec.numeric_columns df)) O) as [Hnum | Hnum].
    + rewrite (Hv1 Hall Hnum). split; [|reflexivity].
      intros _ s Hs. pose proof (null_count_le s) as Hle.
      assert (Hlen : Polars.series_len s = O); [|lia].
      unfold Spec.cells in Hnum. apply (proj1 (list_sum_zero _) Hnum).
      apply in_map_iff. now exists s.
    + rewrite (Hv Hnum). now apply non_null_fraction_one.
Qed.

(** The theorem on a frame with a null in its only non-numeric column:
    the two scores disagree on whether the frame is complete. *)
Lemma completeness_one_iff_no_nulls_witness :
  ((Loaders.check_data_completeness Spec.sample_null_in_text == 1)%Q
   <-> forall s, In s (Spec.all_columns Spec.sample_null_in_text) ->
         Polars.null_count s = O)
  /\ ((Validators.check_data_completeness Spec.sample_null_in_text == 1)%Q
      <-> forall s, In s (Spec.numeric_columns Spec.sample_null_in_text) ->
            Polars.null_count s = O).
Proof.
  apply (completeness_one_iff_no_nulls Spec.sample_null_in_text).
  - split.
    + repeat constructor; simpl; intuition discriminate.
    + intros name s [[= <- <-] | [[= <- <-] | []]]; reflexivity.
  - discriminate.
Defined.

(** ** A validated export bounds the view *)

Lemma passed_iff_no_violation (tree_cover_df : list Validators.tree_cover_row)
    (primary_forest_df : list Validators.primary_forest_row) :
  Validators.passed (Validators.validate_relationships tree_cover_df primary_forest_df)
  = true
  <-> ~ exists t p,
        Spec.joined_pair tree_cover_df primary_forest_df t p /\ Spec.primary_exceeds t p.
Proof.
  rewrite <- severity_error_iff. unfold Validators.validate_relationships.
  destruct (0 <? List.length _)%nat; simpl; split.
  - discriminate.
  - intros H. exfalso. now apply H.
  - intros _. discriminate.
  - reflexivity.
Qed.

Lemma export_all_tables_state (tree_cover_df : list Validators.tree_cover_row)
    (primary_forest_df : list Validators.primary_forest_row)
    (db0 db : Database.database) (counts : list (string * nat)) :
  Database.export_all_tables tree_cover_df primary_forest_df db0 = (Ok counts, db) ->
  db = Database.mkDatabase tree_cover_df primary_forest_df.
Proof.
  unfold Database.export_all_tables, seq, Database.export_tree_cover,
    Database.export_primary_forest.
  destruct (Database.tree_cover_constraints tree_cover_df); [|discriminate].
  simpl. destruct (Database.primary_forest_constraints primary_forest_df); [|discriminate].
  simpl. now intros [= _ <-].
Qed.

Lemma left_join_member (db : Database.database) (t : Validators.tree_cover_row)
    (p : option Validators.primary_forest_row) :
  In (t, p) (Database.left_join db) ->
  In t (Database.fact_tree_cover_loss db)
  /\ Validators.tc_threshold t = Some 30%Z
  /\ forall p0, p = Some p0 ->
       In p0 (Database.fact_primary_forest db) /\ Validators.keys_match t p0 = true.
Proof.
  unfold Database.left_join. intros H.
  apply in_flat_map in H as (t0 & Ht0 & Hin).
  apply filter_In in Ht0 as [Ht0 H30].
  assert (Ht : t0 = t /\ forall p0, p = Some p0 ->
            In p0 (filter (Validators.keys_match t0) (Database.fact_primary_forest db))).
  { destruct (filter (Validators.keys_match t0) (Database.fact_primary_forest db))
      as [|m ms].
    - destruct Hin as [[= <- <-] | []]. split; [reflexivity | discriminate].
    - apply in_map_iff in Hin as (p1 & [= <- <-] & Hp1). split; [reflexivity|].
      now intros p0 [= <-]. }
  destruct Ht as [<- Hp]. repeat split; trivial.
  - now apply threshold_is_30_true.
  - specialize (Hp p0 H). now apply filter_In in Hp.
  - specialize (Hp p0 H). now apply filter_In in Hp.
Qed.

Lemma view_row_source (db : Database.database) (row : Database.view_row) :
  In row (Database.v_primary_forest_percentage db)
  \/ In row (Database.schema_v_primary_forest_percentage db) ->
  exists t p,
    In (t, p) (Database.left_join db)
    /\ Database.v_tree_cover_loss_ha row = Validators.tc_tree_cover_loss_ha t
    /\ Database.v_primary_forest_loss_ha row = Database.p_loss_of p.
Proof.
  unfold Database.v_primary_forest_percentage, Database.schema_v_primary_forest_percentage.
  intros [H | H]; apply in_map_iff in H as ([t p] & <- & Hin); exists t, p; now split.
Qed.

(** X14.  When [validate_relationships] passes on two frames whose
    primary-forest losses are not negative, and the frames are exported,
    every percentage of the primary-forest view lies between 0 and
    100. *)
Theorem validated_export_bounds_view
    (tree_cover_df : list Validators.tree_cover_row)
    (primary_forest_df : list Validators.primary_forest_row)
    (db0 db : Database.database) (counts : list (string * nat))
    (row : Database.view_row) (v : Q) :
  Validators.passed (Validators.validate_relationships tree_cover_df primary_forest_df)
  = true ->
  (forall p pl, In p primary_forest_df ->
     Validators.pf_primary_forest_loss_ha p = Some pl -> (0 <= pl)%Q) ->
  Database.export_all_tables tree_cover_df primary_forest_df db0 = (Ok counts, db) ->
  In row (Database.v_primary_forest_percentage db)
  \/ In row (Database.schema_v_primary_forest_percentage db) ->
  Database.primary_percentage row = Some v ->
  (0 <= v)%Q /\ (v <= 100)%Q.
Proof.
  intros Hpassed Hnonneg Hexport Hin Hv.
  apply export_all_tables_state in Hexport. subst db.
  rewrite (view_rows _ row Hin) in Hv.
  destruct (percentage_expr_some _ _ _ Hv) as (tl & pl & Ht & Hp & Hpos & ->).
  destruct (view_row_source _ row Hin) as (t & p & Hjoin & Htl & Hpl).
  rewrite Ht in Htl. rewrite Hp in Hpl.
  destruct p as [p0|]; [|discriminate]. simpl in Hpl.
  destruct (left_join_member _ t (Some p0) Hjoin) as (Htin & H30 & Hmatch).
  destruct (Hmatch p0 eq_refl) as [Hpin Hkeys]. simpl in Htin, Hpin.
  assert (Hle : (pl <= tl)%Q).
  { apply Qnot_lt_le. intros Hlt.
    apply (proj1 (passed_iff_no_violation _ _) Hpassed).
    exists t, p0. split; [now repeat split|]. exists tl, pl. now repeat split. }
  assert (H0 : (0 <= pl)%Q) by (apply (Hnonneg p0); auto).
  destruct (ratio_bounds pl tl Hpos H0 Hle) as [Hlo Hhi].
  now apply sql_round2_bounds.
Qed.

(** The theorem at the frames with tree-cover loss 100 and
    primary-forest loss 50 for the same country and year. *)
Lemma validated_export_bounds_view_witness :
  (0 <= Database.sql_round2 ((50 # 1) / (100 # 1) * 100))%Q
  /\ (Database.sql_round2 ((50 # 1) / (100 # 1) * 100) <= 100)%Q.
Proof.
  apply (validated_export_bounds_view
           Spec.sample_tree_cover
           [Validators.mkPrimaryForest (Some "Brazil") (Some 2022) (Some (50 # 1))]
           (Database.mkDatabase [] [])
           (Database.mkDatabase Spec.sample_tree_cover
              [Validators.mkPrimaryForest (Some "Brazil") (Some 2022) (Some (50 # 1))])
           [("fact_tree_cover_loss", 1%nat); ("fact_primary_forest", 1%nat)]
           (Database.mkViewRow (Some "Brazil") (Some 2022) (Some (100 # 1))
              (Some (50 # 1))
              (Some (Database.sql_round2 ((50 # 1) / (100 # 1) * 100)))
              (Some "Both"))).
  - reflexivity.
  - intros p pl [<- | []] [= <-]. discriminate.
  - reflexivity.
  - left. simpl. left. reflexivity.
  - reflexivity.
Defined.

(** ** Exports that fail half-way, and the size of the view *)

(** X15.  [export_all_tables] is not all-or-nothing across tables: when
    the tree-cover frame satisfies its constraints and the primary-forest
    frame does not, the call raises with the tree-cover table already
    replaced and the primary-forest table as it was.  When the tree-cover
    frame itself is rejected, the call raises and the database is
    unchanged. *)
Theorem export_all_tables_partial
    (tree_cover_df : list Validators.tree_cover_row)
    (primary_forest_df : list Validators.primary_forest_row) (db0 : Database.database) :
  (Database.tree_cover_constraints tree_cover_df = true ->
   Database.primary_forest_constraints primary_forest_df = false ->
   exists e,
     Database.export_all_tables tree_cover_df primary_forest_df db0
     = (Raise e, Database.mkDatabase tree_cover_df (Database.fact_primary_forest db0)))
  /\ (Database.tree_cover_constraints tree_cover_df = false ->
      exists e,
        Database.export_all_tables tree_cover_df primary_forest_df db0 = (Raise e, db0)).
Proof.
  unfold Database.export_all_tables, seq, Database.export_tree_cover,
    Database.export_primary_forest.
  split.
  - intros -> Hpf. simpl. rewrite Hpf. eexists. reflexivity.
  - intros ->. eexists. reflexivity.
Qed.

(** The theorem at a primary-forest frame with a missing year, exported
    over the sample database. *)
Lemma export_all_tables_partial_witness :
  exists e,
    Database.export_all_tables
      [Validators.mkTreeCover (Some "Chad") (Some 2020) (Some 30%Z) (Some (7 # 1))]
      [Validators.mkPrimaryForest (Some "Chad") None (Some (5 # 1))]
      Spec.sample_database
    = (Raise e,
       Database.mkDatabase
         [Validators.mkTreeCover (Some "Chad") (Some 2020) (Some 30%Z) (Some (7 # 1))]
         (Database.fact_primary_forest Spec.sample_database)).
Proof.
  exact (proj1 (export_all_tables_partial
                  [Validators.mkTreeCover (Some "Chad") (Some 2020) (Some 30%Z)
                     (Some (7 # 1))]
                  [Validators.mkPrimaryForest (Some "Chad") None (Some (5 # 1))]
                  Spec.sample_database) eq_refl eq_refl).
Defined.

Lemma keys_match_same_key (t : Validators.tree_cover_row)
    (a p : Validators.primary_forest_row) :
  Validators.keys_match t a = true -> Validators.keys_match t p = true ->
  Database.key2_eqb (Validators.pf_country a, Validators.pf_year a)
    (Validators.pf_country p, Validators.pf_year p) = true.
Proof.
  unfold Validators.keys_match, Database.key2_eqb.
  destruct (Validators.tc_country t) as [c|]; [|discriminate].
  destruct (Validators.pf_country a) as [ca|]; [|discriminate].
  destruct (Validators.tc_year t) as [y|]; [|discriminate].
  destruct (Validators.pf_year a) as [ya|]; [|discriminate].
  destruct (Validators.pf_country p) as [cp|]; [|discriminate].
  destruct (Validators.pf_year p) as [yp|]; [|discriminate].
  intros [Hc1 Hy1]%andb_prop [Hc2 Hy2]%andb_prop. simpl.
  apply String.eqb_eq in Hc1, Hc2. apply Z.eqb_eq in Hy1, Hy2. subst.
  now rewrite String.eqb_refl, Z.eqb_refl.
Qed.

Lemma matches_at_most_one (t : Validators.tree_cover_row)
    (rows : list Validators.primary_forest_row) :
  Database.no_duplicates Database.key2_eqb
    (map (fun r => (Validators.pf_country r, Validators.pf_year r)) rows) = true ->
  (List.length (filter (Validators.keys_match t) rows) <= 1)%nat.
Proof.
  induction rows as [|a rest IH]; simpl; [lia|].
  intros [Hfresh Hrest]%andb_prop. specialize (IH Hrest).
  destruct (Validators.keys_match t a) eqn:Ha; [|exact IH]. simpl.
  assert (Hnone : filter (Validators.keys_match t) rest = []).
  { destruct (filter (Validators.keys_match t) rest) as [|p ps] eqn:Hf; [reflexivity|].
    assert (Hp : In p (filter (Validators.keys_match t) rest)) by (rewrite Hf; now left).
    apply filter_In in Hp as [Hin Hmatch].
    apply negb_true_iff in Hfresh.
    assert (Hex : existsb
              (Database.key2_eqb (Validators.pf_country a, Validators.pf_year a))
              (map (fun r => (Validators.pf_country r, Validators.pf_year r)) rest) = true).
    { apply existsb_exists. exists (Validators.pf_country p, Validators.pf_year p).
      split; [|now apply (keys_match_same_key t)].
      apply in_map_iff. now exists p. }
    congruence. }
  rewrite Hnone. simpl. lia.
Qed.

Lemma length_flat_map_singletons {A B : Type} (f : A -> list B) (l : list A) :
  (forall a, In a l -> List.length (f a) = 1%nat) ->
  List.length (flat_map f l) = List.length l.
Proof.
  induction l as [|a l IH]; intros H; simpl; [reflexivity|].
  rewrite length_app, (H a (or_introl eq_refl)), IH; [reflexivity|].
  intros a' Ha'. apply H. now right.
Qed.

(** X16.  In a database produced by the export path, the primary-forest
    view has exactly one row for each tree-cover row at threshold 30: the
    left join neither drops nor repeats a row. *)
Theorem view_one_row_per_tree_cover_row (db : Database.database) :
  Database.exported db ->
  List.length (Database.v_primary_forest_percentage db)
  = List.length (filter (fun t => Polars.is_true (Validators.threshold_is_30 t))
                   (Database.fact_tree_cover_loss db))
  /\ List.length (Database.schema_v_primary_forest_percentage db)
     = List.length (Database.v_primary_forest_percentage db).
Proof.
  intros [_ Hpf]%exported_iff.
  apply andb_prop in Hpf as [_ Hnodup].
  unfold Database.v_primary_forest_percentage, Database.schema_v_primary_forest_percentage.
  rewrite !length_map. split; [|reflexivity].
  unfold Database.left_join. apply length_flat_map_singletons.
  intros t _.
  pose proof (matches_at_most_one t _ Hnodup) as Hle.
  destruct (filter (Validators.keys_match t) (Database.fact_primary_forest db))
    as [|m [|m' ms]]; simpl in *; trivial; lia.
Qed.

(** The theorem at the sample database. *)
Lemma view_one_row_per_tree_cover_row_witness :
  List.length (Database.v_primary_forest_percentage Spec.sample_database)
  = List.length (filter (fun t => Polars.is_true (Validators.threshold_is_30 t))
                   (Database.fact_tree_cover_loss Spec.sample_database))
  /\ List.length (Database.schema_v_primary_forest_percentage Spec.sample_database)
     = List.length (Database.v_primary_forest_percentage Spec.sample_database).
Proof.
  apply (view_one_row_per_tree_cover_row Spec.sample_database).
  exists Spec.sample_tree_cover, Spec.sample_primary_200, (Database.mkDatabase [] []).
  eexists. reflexivity.
Defined.

(** ** The quality flag and the validator *)

Lemma Zltb_Qltb (a b : Z) : Z.ltb a b = Polars.Qltb (inject_Z a) (inject_Z b).
Proof.
  unfold Polars.Qltb, Qle_bool. simpl. rewrite !Z.mul_1_r. apply Z.ltb_antisym.
Qed.

Lemma Zeqb_Qeq_bool (a b : Z) : Z.eqb a b = Qeq_bool (inject_Z a) (inject_Z b).
Proof.
  unfold Qeq_bool. simpl. now rewrite !Z.mul_1_r.
Qed.

Lemma has_negative_as_Q (s : Polars.series) :
  Props.has_negative s
  = existsb (fun c => match c with Some q => Polars.Qltb q 0 | None => false end)
      (Cells.as_Q s).
Proof.
  destruct s as [vals | vals | vals]; simpl; trivial.
  unfold PolarsExpr.to_float. induction vals as [|[z|] vals IH]; simpl; trivial.
  now rewrite IH, Zltb_Qltb.
Qed.

Lemma quality_flag_chain (cells : list (option Q)) (n : nat) :
  n = List.length cells ->
  Polars.when_then_otherwise (map (fun c => Some (Polars.is_null c)) cells)
    (repeat (Some "NULL") n)
    (Polars.when_then_otherwise (map (option_map (fun q => Qeq_bool q 0)) cells)
       (repeat (Some "ZERO") n)
       (Polars.when_then_otherwise (map (option_map (fun q => Polars.Qltb q 0)) cells)
          (repeat (Some "INVALID") n) (repeat (Some "VALID") n)))
  = map (fun c => Some (Flags.quality_flag c)) cells.
Proof.
  unfold Polars.when_then_otherwise. revert n.
  induction cells as [|c cells IH]; intros n ->; simpl; [reflexivity|].
  rewrite (IH _ eq_refl). f_equal.
  destruct c as [q|]; simpl; trivial.
  destruct (Qeq_bool q 0); simpl; trivial.
  now destruct (Polars.Qltb q 0).
Qed.

Lemma as_Q_length (s : Polars.series) :
  Validators.is_numeric s = true -> List.length (Cells.as_Q s) = Polars.series_len s.
Proof.
  destruct s; simpl; try discriminate; intros _; trivial.
  unfold PolarsExpr.to_float. apply length_map.
Qed.

(** The column [_add_data_quality_flag] adds holds the flag of each
    cell of the value column. *)
Lemma add_data_quality_flag_column (df df' : Polars.DataFrame) (value_column : string) :
  Transformers._add_data_quality_flag df value_column = Ok df' ->
  exists s,
    Polars.get_column value_column df = Some s
    /\ Validators.is_numeric s = true
    /\ df' = Polars.with_column "data_quality_flag"
               (Polars.StrSeries (map (fun c => Some (Flags.quality_flag c)) (Cells.as_Q s)))
               df.
Proof.
  unfold Transformers._add_data_quality_flag.
  destruct (Polars.get_column value_column df) as [s|]; [|discriminate].
  intros H. exists s. split; [reflexivity|].
  destruct s as [vals | vals | vals]; [| |discriminate]; simpl in H;
    injection H as <-; (split; [reflexivity|]); do 2 f_equal;
    unfold Transformers.lit, Transformers.is_null_expr, Polars.series_len, Cells.as_Q.
  - rewrite <- (quality_flag_chain (PolarsExpr.to_float vals) (List.length vals))
      by (unfold PolarsExpr.to_float; now rewrite length_map).
    unfold PolarsExpr.to_float. rewrite !map_map. f_equal; [|f_equal; [|f_equal]].
    + apply map_ext. now intros [z|].
    + apply map_ext. intros [z|]; simpl; trivial. now rewrite Zeqb_Qeq_bool.
    + apply map_ext. intros [z|]; simpl; trivial. now rewrite Zltb_Qltb.
  - now rewrite <- (quality_flag_chain vals (List.length vals)) by reflexivity.
Qed.

Lemma quality_flag_invalid (c : option Q) :
  Flags.quality_flag c = "INVALID"
  <-> match c with Some q => Polars.Qltb q 0 | None => false end = true.
Proof.
  destruct c as [q|]; simpl; [|split; discriminate].
  destruct (Qeq_bool q 0) eqn:Ez.
  - split; [discriminate|]. intros Hlt. apply Qltb_lt in Hlt. apply Qeq_bool_iff in Ez.
    rewrite Ez in Hlt. exfalso. exact (Qlt_irrefl _ Hlt).
  - destruct (Polars.Qltb q 0); split; trivial; discriminate.
Qed.

Lemma invalid_flag_iff_negative (s : Polars.series) :
  In (Some "INVALID") (map (fun c => Some (Flags.quality_flag c)) (Cells.as_Q s))
  <-> Props.has_negative s = true.
Proof.
  rewrite has_negative_as_Q, existsb_exists, in_map_iff. split.
  - intros (c & [= Hc] & Hin). exists c. split; [exact Hin | now apply quality_flag_invalid].
  - intros (c & Hin & Hc). exists c. split; [|exact Hin].
    f_equal. now apply quality_flag_invalid.
Qed.

Lemma check_negative_values_single (df : Polars.DataFrame) (col : string)
    (s : Polars.series) :
  Polars.get_column col df = Some s -> Validators.is_numeric s = true ->
  Spec.may_be_negative col = false ->
  ValidatorChecks.check_negative_values df [col]
  = Ok (if Props.has_negative s then [col] else []).
Proof.
  intros Hs Hnum Hexempt.
  pose proof (check_negative_loop_spec [col] df []) as H.
  unfold ValidatorChecks.check_negative_values.
  destruct (ValidatorChecks.check_negative_loop [col] df []) as [found|e].
  - destruct H as [-> _]. simpl. unfold Props.reported. rewrite Hexempt, Hs. simpl.
    now destruct (Props.has_negative s).
  - destruct H as (c & vals & [<- | []] & _ & Hget). rewrite Hs in Hget.
    injection Hget as ->. discriminate.
Qed.

(** X17.  The quality flag and the validator agree: for a value column
    that is not exempt by name, the column [data_quality_flag] added by
    [_add_data_quality_flag] holds the flag [INVALID] in some row exactly
    when [check_negative_values] reports the value column. *)
Theorem quality_flag_invalid_iff_reported
    (df df' : Polars.DataFrame) (value_column : string) :
  Transformers._add_data_quality_flag df value_column = Ok df' ->
  Spec.may_be_negative value_column = false ->
  exists flags,
    Polars.get_column "data_quality_flag" df' = Some (Polars.StrSeries flags)
    /\ (In (Some "INVALID") flags
        <-> ValidatorChecks.check_negative_values df [value_column] = Ok [value_column]).
Proof.
  intros H Hexempt.
  destruct (add_data_quality_flag_column _ _ _ H) as (s & Hs & Hnum & ->).
  eexists. split; [rewrite get_with_column; reflexivity|].
  rewrite invalid_flag_iff_negative, (check_negative_values_single df _ s Hs Hnum Hexempt).
  destruct (Props.has_negative s); split; trivial; discriminate.
Qed.

(** The theorem on the frame of the cleaner's unit test. *)
Lemma quality_flag_invalid_iff_reported_witness :
  exists flags,
    Polars.get_column "data_quality_flag"
      (Polars.with_column "data_quality_flag"
         (Polars.StrSeries [Some "VALID"; Some "INVALID"; Some "VALID"])
         Spec.sample_negative_frame)
    = Some (Polars.StrSeries flags)
    /\ (In (Some "INVALID") flags
        <-> ValidatorChecks.check_negative_values Spec.sample_negative_frame
              ["tree_cover_loss_ha"] = Ok ["tree_cover_loss_ha"]).
Proof.
  exact (quality_flag_invalid_iff_reported Spec.sample_negative_frame _
           "tree_cover_loss_ha" eq_refl eq_refl).
Defined.

(** X18.  After [fix_negative_values] has been applied to a column that
    is not exempt by name, [_add_data_quality_flag] on that column yields
    no [INVALID] flag. *)
Theorem no_invalid_flag_after_fix
    (self stats : DataCleaner.cleaning_stats) (df df1 df2 : Polars.DataFrame)
    (value_column : string) (flags : list (option string)) :
  DataCleaner.fix_negative_values self df [value_column] = Ok (df1, stats) ->
  Spec.may_be_negative value_column = false ->
  Transformers._add_data_quality_flag df1 value_column = Ok df2 ->
  Polars.get_column "data_quality_flag" df2 = Some (Polars.StrSeries flags) ->
  ~ In (Some "INVALID") flags.
Proof.
  intros Hfix Hexempt Hflag Hget Hin.
  pose proof (check_after_fix _ _ _ _ _ Hfix) as Hcheck.
  destruct (add_data_quality_flag_column _ _ _ Hflag) as (s & Hs & Hnum & ->).
  rewrite get_with_column in Hget. simpl in Hget. injection Hget as <-.
  apply invalid_flag_iff_negative in Hin.
  rewrite (check_negative_values_single df1 _ s Hs Hnum Hexempt), Hin in Hcheck.
  discriminate.
Qed.

(** The theorem on the frame of the cleaner's unit test. *)
Lemma no_invalid_flag_after_fix_witness :
  ~ In (Some "INVALID") [Some "VALID"; Some "NULL"; Some "VALID"].
Proof.
  exact (no_invalid_flag_after_fix DataCleaner.init_stats _ Spec.sample_negative_frame
           _ _ "tree_cover_loss_ha" _ eq_refl eq_refl eq_refl eq_refl).
Defined.

(** ** The flux status of the transformer and the label of the handler *)

Lemma flux_status_chain (cells : list (option Q)) (n : nat) :
  n = List.length cells ->
  Polars.when_then_otherwise (map (option_map (fun q => Polars.Qltb q 0)) cells)
    (repeat (Some "SINK") n)
    (Polars.when_then_otherwise (map (option_map (fun q => PolarsExpr.Qgtb q 0)) cells)
       (repeat (Some "SOURCE") n) (repeat (Some "NEUTRAL") n))
  = map (fun c => Some (Flags.flux_status c)) cells.
Proof.
  unfold Polars.when_then_otherwise. revert n.
  induction cells as [|c cells IH]; intros n ->; simpl; [reflexivity|].
  rewrite (IH _ eq_refl). f_equal.
  destruct c as [q|]; simpl; trivial.
  destruct (Polars.Qltb q 0); simpl; trivial.
  now destruct (PolarsExpr.Qgtb q 0).
Qed.

Lemma carbon_flux_status_column (df df' : Polars.DataFrame) :
  Transformers.carbon_flux_status df = Ok df' ->
  exists s,
    Polars.get_column "carbon_net_flux_annual_avg" df = Some s
    /\ Validators.is_numeric s = true
    /\ df' = Polars.with_column "carbon_flux_status"
               (Polars.StrSeries (map (fun c => Some (Flags.flux_status c)) (Cells.as_Q s)))
               df.
Proof.
  unfold Transformers.carbon_flux_status.
  destruct (Polars.get_column "carbon_net_flux_annual_avg" df) as [s|]; [|discriminate].
  intros H. exists s. split; [reflexivity|].
  destruct s as [vals | vals | vals]; [| |discriminate]; simpl in H;
    injection H as <-; (split; [reflexivity|]); do 2 f_equal;
    unfold Transformers.lit, Polars.series_len, Cells.as_Q.
  - rewrite <- (flux_status_chain (PolarsExpr.to_float vals) (List.length vals))
      by (unfold PolarsExpr.to_float; now rewrite length_map).
    unfold PolarsExpr.to_float. rewrite !map_map. f_equal; [|f_equal].
    + apply map_ext. intros [z|]; simpl; trivial. now rewrite Zltb_Qltb.
    + apply map_ext. intros [z|]; simpl; trivial. now rewrite Zgtb_Qgtb.
  - now rewrite <- (flux_status_chain vals (List.length vals)) by reflexivity.
Qed.

Lemma flux_label_agreement (q : Q) :
  Flags.handler_label (Polars.Qltb q 0) = Flags.flux_status (Some q) <-> ~ (q == 0)%Q.
Proof.
  unfold Flags.handler_label, Flags.flux_status.
  destruct (Polars.Qltb q 0) eqn:Hneg.
  - split; [|reflexivity]. intros _ Hz. apply Qltb_lt in Hneg. rewrite Hz in Hneg.
    exact (Qlt_irrefl _ Hneg).
  - destruct (PolarsExpr.Qgtb q 0) eqn:Hpos.
    + split; [|reflexivity]. intros _ Hz. apply Qgtb_gt in Hpos. rewrite Hz in Hpos.
      exact (Qlt_irrefl _ Hpos).
    + split; [discriminate|]. intros Hnz. exfalso. apply Hnz.
      apply Qle_antisym.
      * apply Qnot_lt_le. intros H. apply Qgtb_gt in H. congruence.
      * apply Qnot_lt_le. intros H. apply Qltb_lt in H. congruence.
Qed.

(** X19.  The status [carbon_flux_status] stored by the transformer and
    the label the carbon handler prints beside the net flux of the same
    row agree exactly when the net flux is not zero: a zero net flux is
    stored as [NEUTRAL] and printed as [SOURCE].  For a missing net flux
    the stored status is [NEUTRAL] and the comparison of the handler
    raises. *)
Theorem flux_status_vs_handler_label (df df' : Polars.DataFrame) :
  Transformers.carbon_flux_status df = Ok df' ->
  exists s statuses,
    Polars.get_column "carbon_net_flux_annual_avg" df = Some s
    /\ Polars.get_column "carbon_flux_status" df' = Some (Polars.StrSeries statuses)
    /\ forall i c,
         nth_error (Cells.as_Q s) i = Some c ->
         exists status,
           nth_error statuses i = Some (Some status)
           /\ forall log,
                match c with
                | Some q =>
                    exists is_sink,
                      McpServer.lt_zero (Flags.cell_value c) log = (Ok is_sink, log)
                      /\ (Flags.handler_label is_sink = status <-> ~ (q == 0)%Q)
                | None =>
                    status = "NEUTRAL"
                    /\ exists e, McpServer.lt_zero (Flags.cell_value c) log = (Raise e, log)
                end.
Proof.
  intros H. destruct (carbon_flux_status_column _ _ H) as (s & Hs & Hnum & ->).
  exists s. eexists. split; [exact Hs|]. split; [rewrite get_with_column; reflexivity|].
  intros i c Hc. exists (Flags.flux_status c). split.
  - rewrite nth_error_map, Hc. reflexivity.
  - intros log. destruct c as [q|].
    + exists (Polars.Qltb q 0). split; [reflexivity | apply flux_label_agreement].
    + split; [reflexivity|]. eexists. reflexivity.
Qed.

(** The theorem on a frame with a negative, a zero and a missing net
    flux. *)
Lemma flux_status_vs_handler_label_witness :
  exists s statuses,
    Polars.get_column "carbon_net_flux_annual_avg"
      [("carbon_net_flux_annual_avg", Polars.FloatSeries [Some (-5 # 1); Some 0%Q; None])]
    = Some s
    /\ Polars.get_column "carbon_flux_status"
         [ ("carbon_net_flux_annual_avg",
            Polars.FloatSeries [Some (-5 # 1); Some 0%Q; None]);
           ("carbon_flux_status",
            Polars.StrSeries [Some "SINK"; Some "NEUTRAL"; Some "NEUTRAL"]) ]
       = Some (Polars.StrSeries statuses)
    /\ forall i c,
         nth_error (Cells.as_Q s) i = Some c ->
         exists status,
           nth_error statuses i = Some (Some status)
           /\ forall log,
                match c with
                | Some q =>
                    exists is_sink,
                      McpServer.lt_zero (Flags.cell_value c) log = (Ok is_sink, log)
                      /\ (Flags.handler_label is_sink = status <-> ~ (q == 0)%Q)
                | None =>
                    status = "NEUTRAL"
                    /\ exists e, McpServer.lt_zero (Flags.cell_value c) log = (Raise e, log)
                end.
Proof.
  exact (flux_status_vs_handler_label
           [("carbon_net_flux_annual_avg",
             Polars.FloatSeries [Some (-5 # 1); Some 0%Q; None])]
           _ eq_refl).
Defined.

(** ** The dispatcher of the tool server *)

Section DispatchProofs.

Variable database : string -> list pyval -> list McpServer.row.
Variable climategpt : string -> list McpServer.row -> string -> string.
Variable str_of : pyval -> string.
Variable format_thousands : pyval -> string.
Variable bullet : string.
Variable str_of_exn : exn -> string.

(** X20.  [call_tool] catches what is an [Exception] and nothing else.
    Whatever the twelve tools do, it never raises an [Exception]: when
    the routed tool returns, so does [call_tool], with the same texts;
    when the routed tool raises an [Exception], [call_tool] returns the
    single text [Error: ...] built from it; and [call_tool] raises exactly
    when the routed tool raises an exception that is no [Exception], which
    passes through unchanged.  In particular, with the two embedded
    handlers as tools, a call of [query_primary_forest] or
    [query_carbon_data] without a [country] argument returns the error
    text of the [KeyError] and executes no statement. *)
Theorem call_tool_catches_exceptions :
  (forall (t1 t2 t3 t4 t5 t6 t7 t8 t9 t10 t11 t12 : McpDispatch.tool)
          (name : string) (arguments : McpServer.row) (log : list McpServer.query),
      let routed :=
        McpDispatch.route t1 t2 t3 t4 t5 t6 t7 t8 t9 t10 t11 t12 name arguments log in
      let called :=
        McpDispatch.call_tool str_of_exn t1 t2 t3 t4 t5 t6 t7 t8 t9 t10 t11 t12
          name arguments log in
      snd called = snd routed
      /\ (forall e, fst called <> McpDispatch.Raises e)
      /\ (forall texts, fst routed = McpDispatch.Returns texts ->
            fst called = McpDispatch.Returns texts)
      /\ (forall e, fst routed = McpDispatch.Raises e ->
            fst called
            = McpDispatch.Returns
                [McpServer.mkTextContent "text" (McpDispatch.error_message str_of_exn e)])
      /\ (forall class, fst called = McpDispatch.Escapes class
                        <-> fst routed = McpDispatch.Escapes class))
  /\ (forall (t1 t4 t5 t6 t7 t8 t9 t10 t11 t12 : McpDispatch.tool)
             (name : string) (arguments : McpServer.row) (log : list McpServer.query),
        In name ["query_primary_forest"; "query_carbon_data"] ->
        McpServer.dict_get arguments "country" = None ->
        McpDispatch.call_tool str_of_exn t1
          (McpDispatch.of_handler
             (McpTools.handle_query_primary_forest database climategpt str_of
                format_thousands bullet))
          (McpDispatch.of_handler
             (McpServer.handle_query_carbon_data database climategpt str_of
                format_thousands bullet))
          t4 t5 t6 t7 t8 t9 t10 t11 t12 name arguments log
        = (McpDispatch.Returns
             [McpServer.mkTextContent "text"
                (McpDispatch.error_message str_of_exn (KeyError "country"))],
           log)).
Proof.
  split.
  - intros t1 t2 t3 t4 t5 t6 t7 t8 t9 t10 t11 t12 name arguments log routed called.
    subst called. unfold McpDispatch.call_tool. fold routed.
    destruct routed as [[texts | e | class] log']; cbn [fst snd].
    + repeat split; try discriminate; try (intros; congruence).
    + repeat split; try discriminate; try (intros; congruence).
    + repeat split; try discriminate; try (intros; congruence).
  - intros t1 t4 t5 t6 t7 t8 t9 t10 t11 t12 name arguments log Hname Hmissing.
    unfold McpDispatch.call_tool, McpDispatch.route, McpDispatch.of_handler.
    destruct Hname as [<- | [<- | []]]; simpl String.eqb; cbv iota.
    + unfold McpTools.handle_query_primary_forest, seq, McpServer.getitem.
      now rewrite Hmissing.
    + unfold McpServer.handle_query_carbon_data, seq, McpServer.getitem.
      now rewrite Hmissing.
Qed.

End DispatchProofs.

(** The theorem for a call of [query_carbon_data] without arguments. *)
Lemma call_tool_catches_exceptions_witness :
  McpDispatch.call_tool Samples.sample_str_of_exn Samples.sample_tool
    (McpDispatch.of_handler
       (McpTools.handle_query_primary_forest Spec.sample_database_answers
          Spec.sample_no_analysis Spec.sample_str Spec.sample_str "*"))
    (McpDispatch.of_handler
       (McpServer.handle_query_carbon_data Spec.sample_database_answers
          Spec.sample_no_analysis Spec.sample_str Spec.sample_str "*"))
    Samples.sample_tool Samples.sample_tool Samples.sample_tool Samples.sample_tool
    Samples.sample_tool Samples.sample_tool Samples.sample_tool Samples.sample_tool
    Samples.sample_tool
    "query_carbon_data" [] []
  = (McpDispatch.Returns
       [McpServer.mkTextContent "text"
          (McpDispatch.error_message Samples.sample_str_of_exn (KeyError "country"))],
     []).
Proof.
  exact (proj2 (call_tool_catches_exceptions Spec.sample_database_answers
                  Spec.sample_no_analysis Spec.sample_str Spec.sample_str "*"
                  Samples.sample_str_of_exn)
           Samples.sample_tool Samples.sample_tool Samples.sample_tool
           Samples.sample_tool Samples.sample_tool Samples.sample_tool
           Samples.sample_tool Samples.sample_tool Samples.sample_tool
           Samples.sample_tool
           "query_carbon_data" [] [] (or_intror (or_introl eq_refl)) eq_refl).
Defined.

(** ** A database that cannot be read *)

Section BrokenDatabase.

Variable engine : string -> list pyval -> exn + list McpServer.row.
Variable climategpt : string -> list McpServer.row -> string -> string.
Variable str_of : pyval -> string.
Variable format_thousands : pyval -> string.
Variable bullet : string.

Let database := McpQueryExecutor.execute_query engine.

Lemma broken_database_empty :
  (forall sql params, exists e, engine sql params = inl e) ->
  forall sql params, database sql params = [].
Proof.
  intros Hbroken sql params. unfold database, McpQueryExecutor.execute_query.
  destruct (Hbroken sql params) as (e & ->). reflexivity.
Qed.

(** X21.  When every statement fails (the database file is missing or
    unreadable), the tools do not report the failure: the query executor
    of the server answers each statement with the empty list, so the
    latest year defaults to 2024, [handle_query_primary_forest] answers
    that the country may not be tropical, and [handle_query_carbon_data]
    answers that no carbon data was found. *)
Theorem broken_database_answers_no_data (args : McpServer.row) (country : pyval) :
  (forall sql params, exists e, engine sql params = inl e) ->
  McpServer.dict_get args "country" = Some country ->
  let year := McpServer.get args "year" (PInt 2024) in
  let threshold := McpServer.get args "threshold" (PInt 30) in
  McpTools.handle_query_primary_forest database climategpt str_of format_thousands
    bullet args []
  = (Ok [McpServer.mkTextContent "text" (McpTools.not_tropical_message str_of country)],
     [ (McpServer.latest_year_sql, []);
       (McpTools.primary_forest_sql, [country; year]);
       (McpTools.tropical_sql, [country]) ])
  /\ (McpServer.in_ints threshold [30; 50; 75] = true ->
      McpServer.handle_query_carbon_data database climategpt str_of format_thousands
        bullet args []
      = (Ok [McpServer.mkTextContent "text"
               (McpServer.no_data_message str_of bullet country year threshold)],
         [ (McpServer.latest_year_sql, []);
           (McpServer.carbon_sql, [country; year; threshold]) ])).
Proof.
  intros Hbroken Hcountry year threshold.
  pose proof (broken_database_empty Hbroken) as Hempty.
  assert (Hlatest : McpServer.get_latest_year database []
                    = (Ok (PInt 2024), [(McpServer.latest_year_sql, @nil pyval)])).
  { unfold McpServer.get_latest_year, seq, McpServer.execute_query.
    now rewrite Hempty. }
  split.
  - unfold McpTools.handle_query_primary_forest.
    unfold seq at 1. unfold McpServer.getitem at 1. rewrite Hcountry. unfold ret at 1.
    unfold seq at 1. rewrite Hlatest. fold year.
    unfold seq at 1. unfold McpServer.execute_query at 1. rewrite Hempty.
    unfold seq at 1. unfold McpServer.execute_query at 1. rewrite Hempty.
    reflexivity.
  - intros Hthreshold. unfold McpServer.handle_query_carbon_data.
    unfold seq at 1. unfold McpServer.getitem at 1. rewrite Hcountry. unfold ret at 1.
    unfold seq at 1. rewrite Hlatest. fold year. fold threshold. rewrite Hthreshold.
    cbn [negb]. unfold seq at 1. unfold McpServer.execute_query at 1. rewrite Hempty.
    reflexivity.
Qed.

End BrokenDatabase.

(** The theorem for a database file that cannot be opened and a call
    that names only the country. *)
Lemma broken_database_answers_no_data_witness :
  McpTools.handle_query_primary_forest
    (McpQueryExecutor.execute_query Samples.sample_broken_engine)
    Spec.sample_no_analysis Spec.sample_str Spec.sample_str "*"
    [("country", PStr "Brazil")] []
  = (Ok [McpServer.mkTextContent "text"
           (McpTools.not_tropical_message Spec.sample_str (PStr "Brazil"))],
     [ (McpServer.latest_year_sql, []);
       (McpTools.primary_forest_sql, [PStr "Brazil"; PInt 2024]);
       (McpTools.tropical_sql, [PStr "Brazil"]) ])
  /\ (McpServer.in_ints (PInt 30) [30; 50; 75] = true ->
      McpServer.handle_query_carbon_data
        (McpQueryExecutor.execute_query Samples.sample_broken_engine)
        Spec.sample_no_analysis Spec.sample_str Spec.sample_str "*"
        [("country", PStr "Brazil")] []
      = (Ok [McpServer.mkTextContent "text"
               (McpServer.no_data_message Spec.sample_str "*" (PStr "Brazil")
                  (PInt 2024) (PInt 30))],
         [ (McpServer.latest_year_sql, []);
           (McpServer.carbon_sql, [PStr "Brazil"; PInt 2024; PInt 30]) ])).
Proof.
  apply (broken_database_answers_no_data Samples.sample_broken_engine
           Spec.sample_no_analysis Spec.sample_str Spec.sample_str "*"
           [("country", PStr "Brazil")] (PStr "Brazil")).
  - intros sql params. eexists. reflexivity.
  - reflexivity.
Defined.

(** ** [fix_negative_values]: a second run, and the statistic *)

Lemma fix_negative_loop_quiet (columns : list string) (df : Polars.DataFrame) :
  (forall c s, In c columns -> Spec.may_be_negative c = false ->
     Polars.get_column c df = Some s ->
     exists negative,
       Polars.lt_lit s 0 = Ok negative
       /\ Polars.filter_height (Polars.mask_and negative (Polars.is_not_null s)) = O) ->
  forall n, DataCleaner.fix_negative_loop columns df n = Ok (df, n).
Proof.
  induction columns as [|col rest IH]; intros H n; [reflexivity|].
  cbn [DataCleaner.fix_negative_loop].
  assert (Hrest : forall n', DataCleaner.fix_negative_loop rest df n' = Ok (df, n')).
  { apply IH. intros c s Hc. apply H. now right. }
  destruct (Polars.has_column col df); cbn [negb]; [|apply Hrest].
  fold (Spec.may_be_negative col).
  destruct (Spec.may_be_negative col) eqn:Hexempt; [apply Hrest|].
  destruct (Polars.get_column col df) as [s|] eqn:Hs; [|apply Hrest].
  destruct (H col s (or_introl eq_refl) Hexempt Hs) as (negative & -> & Hcount).
  cbn [bind]. rewrite Hcount. apply Hrest.
Qed.

Lemma fix_negative_loop_count (columns : list string) :
  forall (df df' : Polars.DataFrame) (n n' : Z),
    DataCleaner.fix_negative_loop columns df n = Ok (df', n') ->
    (n <= n')%Z /\ (n' = n -> df' = df).
Proof.
  induction columns as [|col rest IH]; intros df df' n n' H.
  - injection H as <- <-. split; [lia | reflexivity].
  - cbn [DataCleaner.fix_negative_loop] in H.
    destruct (Polars.has_column col df); cbn [negb] in H; [|now apply IH].
    destruct (_ || _)%bool; [now apply IH|].
    destruct (Polars.get_column col df) as [s|]; [|now apply IH].
    destruct (Polars.lt_lit s 0) as [negative|e]; [|discriminate].
    cbn [bind] in H. destruct (0 <? _)%nat eqn:Hcount; [|now apply IH].
    apply Nat.ltb_lt in Hcount. apply IH in H as [Hle _]. split; lia.
Qed.

Lemma fixed_point_no_negative (s : Polars.series) :
  (forall v, s <> Polars.StrSeries v) -> Spec.fix_series s = s ->
  exists negative,
    Polars.lt_lit s 0 = Ok negative
    /\ Polars.filter_height (Polars.mask_and negative (Polars.is_not_null s)) = O.
Proof.
  intros Hnum Hfix. rewrite <- Hfix. now apply fixed_series_no_negative.
Qed.

(** X22.  A second run of [fix_negative_values] changes nothing: on the
    frame returned by a first run, with the same columns, it returns that
    frame and records no fixed value. *)
Theorem fix_negative_values_twice
    (self stats self' : DataCleaner.cleaning_stats) (df df' : Polars.DataFrame)
    (columns : list string) :
  DataCleaner.fix_negative_values self df columns = Ok (df', stats) ->
  DataCleaner.fix_negative_values self' df' columns
  = Ok (df', DataCleaner.mkStats (DataCleaner.countries_standardized self') 0
               (DataCleaner.impossible_values_capped self')
               (DataCleaner.duplicates_removed self')).
Proof.
  unfold DataCleaner.fix_negative_values, bind. intros H.
  destruct (DataCleaner.fix_negative_loop columns df 0) as [[d n]|e] eqn:Hloop;
    [|discriminate].
  injection H as -> _.
  pose proof (fix_negative_loop_spec columns df 0) as Hspec. rewrite Hloop in Hspec.
  pose proof (fix_negative_loop_not_blocked columns df 0 _ Hloop) as Hnb.
  destruct Hspec as [_ Hget].
  rewrite (fix_negative_loop_quiet columns df'); [reflexivity|].
  intros c s Hc Hexempt Hs. rewrite Hget in Hs. unfold Spec.targeted in Hs.
  rewrite Hexempt in Hs.
  assert (Hin : existsb (String.eqb c) columns = true).
  { apply existsb_exists. exists c. split; [exact Hc | apply String.eqb_refl]. }
  rewrite Hin in Hs. simpl in Hs.
  destruct (Polars.get_column c df) as [s0|] eqn:Hs0; [|discriminate].
  injection Hs as <-. apply fixed_series_no_negative.
  intros v ->. apply Hnb. now exists c, v.
Qed.

(** The theorem on the frame of the cleaner's unit test. *)
Lemma fix_negative_values_twice_witness :
  DataCleaner.fix_negative_values (DataCleaner.mkStats 0 1 0 0)
    [ ("tree_cover_loss_ha", Polars.IntSeries [Some 100; None; Some 200]);
      ("carbon_net_flux_annual_avg", Polars.IntSeries [Some 100; Some (-50); Some 200]) ]
    ["tree_cover_loss_ha"; "carbon_net_flux_annual_avg"]
  = Ok ([ ("tree_cover_loss_ha", Polars.IntSeries [Some 100; None; Some 200]);
          ("carbon_net_flux_annual_avg",
           Polars.IntSeries [Some 100; Some (-50); Some 200]) ],
        DataCleaner.mkStats 0 0 0 0).
Proof.
  exact (fix_negative_values_twice DataCleaner.init_stats (DataCleaner.mkStats 0 1 0 0)
           (DataCleaner.mkStats 0 1 0 0) Spec.sample_negative_frame _
           ["tree_cover_loss_ha"; "carbon_net_flux_annual_avg"] eq_refl).
Defined.

(** X23.  The statistic [negative_values_fixed] that
    [fix_negative_values] records is never negative, and it is zero
    exactly when the returned frame is the input frame. *)
Theorem fix_negative_values_count
    (self stats : DataCleaner.cleaning_stats) (df df' : Polars.DataFrame)
    (columns : list string) :
  DataCleaner.fix_negative_values self df columns = Ok (df', stats) ->
  (0 <= DataCleaner.negative_values_fixed stats)%Z
  /\ (DataCleaner.negative_values_fixed stats = 0%Z <-> df' = df).
Proof.
  unfold DataCleaner.fix_negative_values, bind. intros H.
  destruct (DataCleaner.fix_negative_loop columns df 0) as [[d n]|e] eqn:Hloop;
    [|discriminate].
  injection H as -> <-. cbn [DataCleaner.negative_values_fixed].
  destruct (fix_negative_loop_count _ _ _ _ _ Hloop) as [Hle Hsame].
  split; [exact Hle|]. split; [exact Hsame|]. intros ->.
  pose proof (fix_negative_loop_spec columns df 0) as Hspec. rewrite Hloop in Hspec.
  pose proof (fix_negative_loop_not_blocked columns df 0 _ Hloop) as Hnb.
  destruct Hspec as [_ Hget].
  rewrite (fix_negative_loop_quiet columns df) in Hloop; [congruence|].
  intros c s Hc Hexempt Hs. apply fixed_point_no_negative.
  - intros v ->. apply Hnb. now exists c, v.
  - specialize (Hget c). unfold Spec.targeted in Hget. rewrite Hexempt in Hget.
    assert (Hin : existsb (String.eqb c) columns = true).
    { apply existsb_exists. exists c. split; [exact Hc | apply String.eqb_refl]. }
    rewrite Hin, Hs in Hget. simpl in Hget. congruence.
Qed.

(** The theorem on the frame of the cleaner's unit test. *)
Lemma fix_negative_values_count_witness :
  (0 <= 1)%Z
  /\ (1%Z = 0%Z <->
      [ ("tree_cover_loss_ha", Polars.IntSeries [Some 100; None; Some 200]);
        ("carbon_net_flux_annual_avg",
         Polars.IntSeries [Some 100; Some (-50); Some 200]) ]
      = Spec.sample_negative_frame).
Proof.
  exact (fix_negative_values_count DataCleaner.init_stats (DataCleaner.mkStats 0 1 0 0)
           Spec.sample_negative_frame _
           ["tree_cover_loss_ha"; "carbon_net_flux_annual_avg"] eq_refl).
Defined.

(** ** [clean_country_names]: what it keeps, and its statistic *)

Section DistinctProofs.

Variable A : Type.
Variable eqb : A -> A -> bool.
Hypothesis eqb_eq : forall a b, eqb a b = true <-> a = b.

Lemma existsb_eqb_in (a : A) (l : list A) : existsb (eqb a) l = true <-> In a l.
Proof.
  rewrite existsb_exists. split.
  - intros (b & Hb & E). apply eqb_eq in E. now subst.
  - intros H. exists a. split; [exact H | now apply eqb_eq].
Qed.

Lemma distinct_in (l : list A) (x : A) : In x (Polars.distinct eqb l) <-> In x l.
Proof.
  induction l as [|a l IH]; simpl; [tauto|].
  destruct (existsb (eqb a) l) eqn:E.
  - rewrite IH. split; [tauto|]. intros [<- | H]; [now apply existsb_eqb_in | exact H].
  - simpl. rewrite IH. tauto.
Qed.

Lemma distinct_nodup (l : list A) : NoDup (Polars.distinct eqb l).
Proof.
  induction l as [|a l IH]; simpl; [constructor|].
  destruct (existsb (eqb a) l) eqn:E; [exact IH|].
  constructor; [|exact IH]. rewrite distinct_in. intros H.
  apply existsb_eqb_in in H. congruence.
Qed.

Lemma distinct_map_le (f : A -> A) (l : list A) :
  (List.length (Polars.distinct eqb (map f l)) <= List.length (Polars.distinct eqb l))%nat.
Proof.
  assert (H : (List.length (Polars.distinct eqb (map f l))
               <= List.length (map f (Polars.distinct eqb l)))%nat).
  { apply NoDup_incl_length; [apply distinct_nodup|].
    intros x Hx. apply (proj1 (distinct_in _ _)) in Hx.
    apply in_map_iff in Hx as (y & <- & Hy).
    apply in_map. now apply (proj2 (distinct_in _ _)). }
  now rewrite length_map in H.
Qed.

End DistinctProofs.

Lemma option_string_eqb_eq (a b : option string) :
  Polars.option_eqb String.eqb a b = true <-> a = b.
Proof.
  destruct a as [x|], b as [y|]; simpl; try (split; [discriminate | discriminate]).
  - rewrite String.eqb_eq. split; [now intros -> | now intros [= ->]].
  - tauto.
Qed.

Lemma count_nulls_normalize (vals : list (option string)) :
  Polars.count_nulls (map Spec.normalize_cell vals) = Polars.count_nulls vals.
Proof.
  unfold Polars.count_nulls.
  induction vals as [|[v|] vals IH]; simpl; trivial. now rewrite IH.
Qed.

(** X24.  On a frame with a string [country] column,
    [clean_country_names] keeps the column names, the number of rows and
    the null cells of the country column, and the statistic
    [countries_standardized] it records is never negative. *)
Theorem clean_country_names_keeps_shape
    (self stats : DataCleaner.cleaning_stats) (df df' : Polars.DataFrame)
    (vals : list (option string)) :
  Polars.get_column "country" df = Some (Polars.StrSeries vals) ->
  DataCleaner.clean_country_names self df = Ok (df', stats) ->
  Polars.columns df' = Polars.columns df
  /\ (exists vals',
        Polars.get_column "country" df' = Some (Polars.StrSeries vals')
        /\ List.length vals' = List.length vals
        /\ Polars.count_nulls vals' = Polars.count_nulls vals)
  /\ (0 <= DataCleaner.countries_standardized stats)%Z.
Proof.
  intros Hget H. unfold DataCleaner.clean_country_names in H.
  assert (Hhas : Polars.has_column "country" df = true)
    by (apply has_column_get; eauto).
  rewrite Hhas, Hget in H. simpl negb in H. cbv iota in H.
  rewrite apply_mappings_alias in H. injection H as <- <-.
  split; [now apply columns_with_column|]. split.
  - eexists. split; [rewrite get_with_column; reflexivity|].
    split; [apply length_map | apply count_nulls_normalize].
  - cbn [DataCleaner.countries_standardized]. unfold Polars.n_unique_str.
    pose proof (distinct_map_le (option string) (Polars.option_eqb String.eqb)
                  option_string_eqb_eq Spec.normalize_cell vals).
    lia.
Qed.

(** The theorem on a frame with two aliases of one country and a null. *)
Lemma clean_country_names_keeps_shape_witness :
  Polars.columns
    [("country", Polars.StrSeries [Some "United States"; Some "United States"; None])]
  = Polars.columns [("country", Polars.StrSeries [Some "USA"; Some "US"; None])]
  /\ (exists vals',
        Polars.get_column "country"
          [("country", Polars.StrSeries [Some "United States"; Some "United States"; None])]
        = Some (Polars.StrSeries vals')
        /\ List.length vals' = List.length [Some "USA"; Some "US"; @None string]
        /\ Polars.count_nulls vals' = Polars.count_nulls [Some "USA"; Some "US"; None])
  /\ (0 <= 1)%Z.
Proof.
  exact (clean_country_names_keeps_shape DataCleaner.init_stats
           (DataCleaner.mkStats 1 0 0 0)
           [("country", Polars.StrSeries [Some "USA"; Some "US"; None])] _
           [Some "USA"; Some "US"; None] eq_refl eq_refl).
Defined.

(** ** Table statistics and the health check *)

Section TableStatsProofs.

Variable database : string -> exn + list McpServer.row.
Variable str_of_error : TableStats.error -> string.

Let get_table_stats := TableStats.get_table_stats database.
Let validate_database := TableStats.validate_database database str_of_error.

(** X25.  [get_table_stats] guards the table name: a name outside the
    allow-list raises [ValueError] before any statement is executed, and
    whatever the name, the only statement the call can execute is the
    fixed statistics query of one of the five allowed tables. *)
Theorem get_table_stats_allow_list (table_name : string) (log : list string) :
  (existsb (String.eqb table_name) TableStats.allowed_tables = false ->
   get_table_stats table_name log
   = (inr (TableStats.Exn (ValueError ("Invalid table name: " ++ table_name))), log))
  /\ (snd (get_table_stats table_name log) = log
      \/ exists t,
           In t TableStats.allowed_tables
           /\ snd (get_table_stats table_name log) = append log (TableStats.stats_sql t)).
Proof.
  unfold get_table_stats, TableStats.get_table_stats, TableStats.execute_query.
  destruct (existsb (String.eqb table_name) TableStats.allowed_tables) eqn:E; cbn [negb].
  - split; [discriminate|]. right.
    apply existsb_exists in E as (t & Hin & Heq). apply String.eqb_eq in Heq. subst t.
    exists table_name. split; [exact Hin|].
    destruct (database (TableStats.stats_sql table_name)) as [e|[|first rest]];
      reflexivity.
  - split; [reflexivity | now left].
Qed.

End TableStatsProofs.

(** The theorem for a table name that carries a second statement. *)
Lemma get_table_stats_allow_list_witness :
  TableStats.get_table_stats (fun _ => inr []) "fact_carbon; DROP TABLE fact_carbon" []
  = (inr (TableStats.Exn
            (ValueError "Invalid table name: fact_carbon; DROP TABLE fact_carbon")),
     []).
Proof.
  exact (proj1 (get_table_stats_allow_list (fun _ => inr [])
                  "fact_carbon; DROP TABLE fact_carbon" []) eq_refl).
Defined.

Lemma append_not_nil {A : Type} (l : list A) (x : A) : append l x <> [].
Proof.
  unfold append. destruct l; discriminate.
Qed.

Section HealthProofs.

Variable database : string -> exn + list McpServer.row.
Variable str_of_error : TableStats.error -> string.

Let check_tables := TableStats.check_tables database.
Let validate_database := TableStats.validate_database database str_of_error.

Lemma check_tables_consistent (names : list string) :
  forall (results : TableStats.health) (log : list string),
    Health.consistent results ->
    Health.consistent (snd (fst (check_tables names results log)))
    /\ (fst (fst (check_tables names results log)) = None ->
        map fst (TableStats.tables (snd (fst (check_tables names results log))))
        = (map fst (TableStats.tables results) ++ names)%list).
Proof.
  induction names as [|table rest IH]; intros results log Hinv.
  - simpl. split; [exact Hinv | intros _; now rewrite app_nil_r].
  - unfold check_tables in *. cbn [TableStats.check_tables].
    destruct (TableStats.get_table_stats database table log) as [[stats|e] log'].
    + set (recorded := TableStats.mkHealth (TableStats.status results)
                         (append (TableStats.tables results) (table, stats))
                         (TableStats.issues results)).
      set (results' := if McpServer.eq_int (McpServer.get stats "row_count" (PInt 0)) 0
                       then TableStats.mkHealth "unhealthy" (TableStats.tables recorded)
                              (append (TableStats.issues recorded) (table ++ " is empty"))
                       else recorded).
      assert (Hinv' : Health.consistent results').
      { subst results'.
        destruct (McpServer.eq_int (McpServer.get stats "row_count" (PInt 0)) 0) eqn:E.
        - right. split; [reflexivity | apply append_not_nil].
        - destruct Hinv as [(Hs & Hi & Hp) | (Hs & Hi)]; [left | right; now split].
          repeat split; trivial. intros t st Hin. unfold recorded in Hin. simpl in Hin.
          unfold append in Hin. apply in_app_iff in Hin as [Hin | [[= <- <-] | []]];
            [now apply (Hp t) | exact E]. }
      assert (Htables : map fst (TableStats.tables results')
                        = (map fst (TableStats.tables results) ++ [table])%list).
      { subst results'.
        destruct (McpServer.eq_int _ 0); simpl; unfold append; now rewrite map_app. }
      destruct (IH results' log' Hinv') as [Hc Hn]. split; [exact Hc|].
      intros Hnone. rewrite (Hn Hnone), Htables, <- app_assoc. reflexivity.
    + simpl. split; [exact Hinv | discriminate].
Qed.

(** X26.  The verdict of [validate_database]: the status is one of
    [healthy], [unhealthy] and [error]; it is [healthy] exactly when no
    issue is listed; and a [healthy] verdict means that the statistics of
    the three fact tables were all obtained, each with a row count other
    than zero. *)
Theorem validate_database_verdict (log : list string) :
  let results := fst (validate_database log) in
  In (TableStats.status results) ["healthy"; "unhealthy"; "error"]
  /\ (TableStats.status results = "healthy" <-> TableStats.issues results = [])
  /\ (TableStats.status results = "healthy" ->
      map fst (TableStats.tables results) = Health.fact_tables
      /\ Health.all_populated results).
Proof.
  assert (Hstart : Health.consistent (TableStats.mkHealth "healthy" [] [])).
  { left. repeat split. intros t st []. }
  pose proof (check_tables_consistent Health.fact_tables _ log Hstart) as [Hinv Htables].
  unfold validate_database, TableStats.validate_database. cbv zeta.
  unfold check_tables, Health.fact_tables in Hinv, Htables.
  destruct (TableStats.check_tables database
              ["fact_tree_cover_loss"; "fact_primary_forest"; "fact_carbon"]
              (TableStats.mkHealth "healthy" [] []) log) as [[[e|] results] log'].
  - simpl. split; [auto|]. split; [|discriminate].
    split; [discriminate | intros H; now apply append_not_nil in H].
  - simpl in Hinv, Htables. specialize (Htables eq_refl).
    assert (Herror : forall e,
              let failed := TableStats.mkHealth "error" (TableStats.tables results)
                              (append (TableStats.issues results) (str_of_error e)) in
              In (TableStats.status failed) ["healthy"; "unhealthy"; "error"]
              /\ (TableStats.status failed = "healthy" <-> TableStats.issues failed = [])
              /\ (TableStats.status failed = "healthy" ->
                  map fst (TableStats.tables failed) = Health.fact_tables
                  /\ Health.all_populated failed)).
    { intros e. simpl. split; [auto|]. split; [|discriminate].
      split; [discriminate | intros H; now apply append_not_nil in H]. }
    assert (Hkeep : In (TableStats.status results) ["healthy"; "unhealthy"; "error"]
              /\ (TableStats.status results = "healthy" <-> TableStats.issues results = [])
              /\ (TableStats.status results = "healthy" ->
                  map fst (TableStats.tables results) = Health.fact_tables
                  /\ Health.all_populated results)).
    { destruct Hinv as [(Hs & Hi & Hp) | (Hs & Hi)].
      - rewrite Hs, Hi. split; [simpl; auto|]. split; [tauto|]. intros _.
        split; [exact Htables | exact Hp].
      - rewrite Hs. split; [simpl; auto|]. split; [|discriminate].
        split; [discriminate | intros H; contradiction]. }
    unfold TableStats.execute_query.
    destruct (database "PRAGMA integrity_check") as [e|[|first rest]]; cbn [fst].
    + apply Herror.
    + apply Herror.
    + destruct (TableStats.integrity_failed first); [|exact Hkeep].
      simpl. split; [auto|]. split; [|discriminate].
      split; [discriminate | intros H; now apply append_not_nil in H].
Qed.

End HealthProofs.

(** The theorem at a database with populated tables: the verdict is
    [healthy]. *)
Lemma validate_database_verdict_witness :
  TableStats.status
    (fst (TableStats.validate_database HealthSamples.sample_sound_database
            HealthSamples.sample_str_of_error [])) = "healthy"
  /\ map fst
       (TableStats.tables
          (fst (TableStats.validate_database HealthSamples.sample_sound_database
                  HealthSamples.sample_str_of_error [])))
     = Health.fact_tables.
Proof.
  split; [reflexivity|].
  exact (proj1 (proj2 (proj2 (validate_database_verdict
                                 HealthSamples.sample_sound_database
                                 HealthSamples.sample_str_of_error [])) eq_refl)).
Defined.

(** The theorem on the frame of the cleaner's unit test: the column
    with the value -50 is reported, the exempt one is not. *)
Lemma check_negative_values_reports_witness :
  ValidatorChecks.check_negative_values Spec.sample_negative_frame
    ["tree_cover_loss_ha"; "carbon_net_flux_annual_avg"]
  = Ok ["tree_cover_loss_ha"].
Proof.
  pose proof (check_negative_values_reports Spec.sample_negative_frame
                ["tree_cover_loss_ha"; "carbon_net_flux_annual_avg"]) as H.
  destruct (ValidatorChecks.check_negative_values Spec.sample_negative_frame
              ["tree_cover_loss_ha"; "carbon_net_flux_annual_avg"]) as [found|e].
  - destruct H as [-> _]. reflexivity.
  - exfalso. destruct H as (c & vals & [<- | [<- | []]] & _ & Hget); discriminate.
Defined.

(** ** The labels of the time dimension *)

(** X27.  The two labels [create_dimension_tables] gives a year: the
    decade is missing exactly for the years before 2000 and after 2029,
    and where there is one, the period names the same decade except for
    the years 2010 and 2020, which are put in the decade that starts
    with them and in the period that ends with them. *)
Theorem dim_time_labels (y : Z) :
  (DimTime.decade (Some y) = None <-> (y < 2000 \/ 2029 < y)%Z)
  /\ (forall d, DimTime.decade (Some y) = Some d ->
        (contains d (DimTime.period (Some y)) = true <-> y <> 2010%Z /\ y <> 2020%Z)).
Proof.
  unfold DimTime.decade, DimTime.period, DimTime.between, DimTime.at_most.
  destruct (Z.leb_spec 2000 y), (Z.leb_spec y 2009), (Z.leb_spec 2010 y),
    (Z.leb_spec y 2019), (Z.leb_spec 2020 y), (Z.leb_spec y 2029);
    cbn [andb]; try lia;
    (split; [split; [try discriminate; lia | try lia; intros _; reflexivity]|]);
    intros d Hd; try discriminate; injection Hd as <-;
    destruct (Z.leb_spec y 2005), (Z.leb_spec y 2010), (Z.leb_spec y 2015),
      (Z.leb_spec y 2020); try lia;
    (split; [intros Hc; try (vm_compute in Hc; discriminate); lia
            | intros [? ?]; try lia; reflexivity]).
Qed.

(** The theorem at the year 2010. *)
Lemma dim_time_labels_witness :
  contains "2010s" (DimTime.period (Some 2010%Z)) = true
  <-> 2010%Z <> 2010%Z /\ 2010%Z <> 2020%Z.
Proof.
  exact (proj2 (dim_time_labels 2010) "2010s" eq_refl).
Defined.
